(** * Session load balancing and flood-wait retry: a shallow embedding

    This development embeds two Python modules of the repository,
    [utils/floodwait.py] (the retry wrapper [safe_execute]) and
    [utils/load_balancer.py] (the class [LoadBalancer]), and states the
    properties of the specification over the embedded code.

    Conventions of the embedding.
    - Python [int] is [Z]; Python [float] is idealised as an exact rational
      [Q] (no rounding, no infinities): the properties below only compare,
      add and scale timestamps and scores.
    - A Python [dict] is a [gmap]; a key that the code may find absent is an
      [option] field or a [gmap] lookup returning [None].
    - An [async def] is a computation in the monad [M]: it threads the
      object state and the environment (the clock read by [time.time()], the
      samples drawn by [random.uniform], the calls to [asyncio.sleep]) and
      either returns a value or raises.  State changes made before a raise
      are kept, as in Python.
    - Exceptions are the instances of [Exception] the code can meet. *)

From Stdlib Require Import QArith Qabs Qminmax Qround ZArith Lia Lqa String Ascii List.
From Stdlib Require Import DecimalString DecimalZ DecimalPos.
From stdpp Require Import gmap strings list fin_maps.
Import ListNotations.

Local Open Scope Z_scope.
Local Open Scope Q_scope.

(** ** Python values shared by both modules *)

(** The exception classes the two modules raise or catch.  [str e] is the
    text Python's [str(e)] gives. *)
Inductive exn : Type :=
| FloodWaitError (seconds : Z) (message : string)
| ServerError (message : string)
| TimedOutError (message : string)
| AttributeError (message : string)
| KeyError (message : string)
| ZeroDivisionError (message : string)
| Exception (message : string).

Definition str (e : exn) : string :=
  match e with
  | FloodWaitError _ m | ServerError m | TimedOutError m | AttributeError m
  | KeyError m | ZeroDivisionError m | Exception m => m
  end.

(** What a call produces: a returned value or a raised exception. *)
Inductive result (A : Type) : Type :=
| Ok (a : A)
| Raise (e : exn).
Arguments Ok {A} a.
Arguments Raise {A} e.

(** Comparison of floats, as booleans. *)
Definition Qltb (x y : Q) : bool := negb (Qle_bool y x).
Definition Qgtb (x y : Q) : bool := Qltb y x.
Definition Qgeb (x y : Q) : bool := Qle_bool y x.

Lemma Qltb_lt x y : Qltb x y = true <-> x < y.
Proof.
  unfold Qltb. rewrite negb_true_iff. split.
  - intros H. apply Qnot_le_lt. intros Hle. apply Qle_bool_iff in Hle. congruence.
  - intros H. destruct (Qle_bool y x) eqn:E; [|reflexivity].
    apply Qle_bool_iff in E. exfalso. exact (Qlt_not_le _ _ H E).
Qed.

Lemma Qltb_ge x y : Qltb x y = false <-> y <= x.
Proof.
  unfold Qltb. rewrite negb_false_iff. apply Qle_bool_iff.
Qed.

(** Python's two-argument [max] and [min] return their first argument unless
    the second is strictly larger (smaller): [Qmax] and [Qmin] do the same. *)
Definition pymax (a b : Q) : Q := Qmax a b.
Definition pymin (a b : Q) : Q := Qmin a b.

(** [int(x)] truncates towards zero. *)
Definition int_of_float (x : Q) : Z := Z.quot (Qnum x) (Zpos (Qden x)).

(** [sum(l)] adds from the left, starting at 0. *)
Definition Qsum (l : list Q) : Q := fold_left Qplus l 0.

Definition len {A} (l : list A) : Z := Z.of_nat (length l).

(** ** [utils/floodwait.py] *)

Module Floodwait.

(** What the wrapper does to the outside world, in order: it calls the
    wrapped function (attempt number [attempt], counted from 0) and it
    sleeps. *)
Inductive event : Type :=
| Called (attempt : Z)
| Slept (seconds : Q).

Record frame : Type := mkFrame {
  attempt : Z;
  last_exception : option exn;
  draws : nat;
  trace : list event
}.

Definition emit (ev : event) (s : frame) : frame :=
  mkFrame (attempt s) (last_exception s) (draws s) (trace s ++ [ev]).

(** The attempt numbers of the calls in a trace, in order. *)
Definition calls (t : list event) : list Z :=
  omap (λ ev, match ev with Called k => Some k | Slept _ => None end) t.

Section SafeExecute.
(** The returned values are of any type. *)
Context {value : Type}.
(** [func k] is what the wrapped call does when it is invoked after [k]
      failed attempts; [uniform01 n] is the [n]-th sample of
      [random.uniform(0, 1)]. *)
Variable func : Z -> result value.
Variable uniform01 : nat -> Q.
Variable max_attempts : Z.
Variable exponential_backoff : bool.

(** The code after the [while] loop: [raise last_exception] if there is
      one, else [return None]. *)
Definition after_loop (s : frame) : result (option value) * frame :=
    match last_exception s with
    | Some e => (Raise e, s)
    | None => (Ok None, s)
    end.

(** The [while attempt < max_attempts] loop.  [fuel] bounds the number of
      iterations; [None] means the fuel ran out. *)
Fixpoint while_loop (fuel : nat) (s : frame)
    : option (result (option value) * frame) :=
    if (attempt s <? max_attempts)%Z then
      match fuel with
      | O => None
      | S fuel' =>
        let s := emit (Called (attempt s)) s in
        match func (attempt s) with
        | Ok v => Some (Ok (Some v), s)
        | Raise (FloodWaitError wait_time msg as e) =>
          let s := mkFrame (attempt s + 1) (Some e) (draws s) (trace s) in
          if (attempt s <? max_attempts)%Z then
            while_loop fuel' (emit (Slept (inject_Z wait_time)) s)
          else Some (Raise e, s)
        | Raise ((ServerError _ | TimedOutError _) as e) =>
          let s := mkFrame (attempt s + 1) (Some e) (draws s) (trace s) in
          if (attempt s <? max_attempts)%Z then
            if exponential_backoff then
              let wait_time :=
                pymin 30 (inject_Z (2 ^ attempt s) + uniform01 (draws s)) in
              let s := mkFrame (attempt s) (last_exception s) (S (draws s)) (trace s) in
              while_loop fuel' (emit (Slept wait_time) s)
            else
              while_loop fuel' (emit (Slept 5) s)
          else Some (Raise e, s)
        | Raise e => Some (Raise e, s)
        end
      end
    else Some (after_loop s).

Definition safe_execute : option (result (option value) * frame) :=
    while_loop (Z.to_nat max_attempts) (mkFrame 0 None 0 []).

End SafeExecute.

(** *** [RateLimitManager] *)

(** [str(n)] for an [int]: its decimal digits, with a minus sign when
    negative. *)
Definition str_of_int (n : Z) : string := NilZero.string_of_int (Z.to_int n).

(** The two dictionaries of a [RateLimitManager], both keyed by text. *)
Record RateLimitManager : Type := mkRateLimitManager {
  session_timestamps : gmap string Q;
  operation_counts : gmap string Z
}.

(** The object [__init__] builds, which is also the module's global
    [rate_limit_manager]. *)
Definition rate_limit_manager : RateLimitManager := mkRateLimitManager ∅ ∅.

(** The world of [execute_with_rate_limit]: the manager, how many times the
    event loop's clock was read, and the sleeps taken so far, oldest
    first. *)
Record Loop : Type := mkLoop {
  manager : RateLimitManager;
  reads : nat;
  naps : list Q
}.

(** [f"{session_id}_{operation_type}"] and
    [f"{operation_key}_{int(current_time / 86400)}"]. *)
Definition operation_key_of (session_id operation_type : string) : string :=
  session_id +:+ "_" +:+ operation_type.

Definition day_key_of (operation_key : string) (current_time : Q) : string :=
  operation_key +:+ "_" +:+ str_of_int (int_of_float (current_time / 86400)).

Definition daily_limit_message (max_per_day : Z) (operation_type session_id : string)
  : string :=
  "Daily limit of " +:+ str_of_int max_per_day +:+ " " +:+ operation_type
  +:+ " operations reached for session " +:+ session_id.

Section RateLimit.
Context {value : Type}.
(** [loop_time n] is what the [n]-th call of
    [asyncio.get_event_loop().time()] returns. *)
Variable loop_time : nat → Q.

(** The daily-limit block: [max_per_day] is [None] or an [int], and [0] is
    falsy too. *)
Definition check_daily_limit (session_id operation_type : string) (current_time : Q)
    (max_per_day : option Z) (w : Loop) : result unit * Loop :=
  match max_per_day with
  | None => (Ok tt, w)
  | Some limit =>
    if (limit =? 0)%Z then (Ok tt, w)
    else
      let day_key := day_key_of (operation_key_of session_id operation_type) current_time in
      let counts := operation_counts (manager w) in
      match counts !! day_key with
      | Some count =>
        if (limit <=? count)%Z then
          (Raise (Exception (daily_limit_message limit operation_type session_id)), w)
        else
          (Ok tt, mkLoop (mkRateLimitManager (session_timestamps (manager w))
                            (<[day_key := (count + 1)%Z]> counts))
                         (reads w) (naps w))
      | None =>
        (Ok tt, mkLoop (mkRateLimitManager (session_timestamps (manager w))
                          (<[day_key := (0 + 1)%Z]> counts))
                       (reads w) (naps w))
      end
  end.

(** The interval block: sleep for what is left of [min_interval] since the
    last recorded operation of the key. *)
Definition wait_for_interval (operation_key : string) (current_time min_interval : Q)
    (w : Loop) : Loop :=
  match session_timestamps (manager w) !! operation_key with
  | Some last_time =>
    let elapsed := current_time - last_time in
    if Qltb elapsed min_interval then
      mkLoop (manager w) (reads w) (naps w ++ [min_interval - elapsed])
    else w
  | None => w
  end.

(** [func] is the wrapped call applied to its arguments, given by what it
    returns or raises. *)
Definition execute_with_rate_limit (session_id operation_type : string)
    (func : result value) (min_interval : Q) (max_per_day : option Z) (w : Loop)
  : result value * Loop :=
  let operation_key := operation_key_of session_id operation_type in
  let current_time := loop_time (reads w) in
  let w := mkLoop (manager w) (S (reads w)) (naps w) in
  match check_daily_limit session_id operation_type current_time max_per_day w with
  | (Raise e, w) => (Raise e, w)
  | (Ok _, w) =>
    let w := wait_for_interval operation_key current_time min_interval w in
    match func with
    | Raise e => (Raise e, w)
    | Ok result =>
      (Ok result,
       mkLoop (mkRateLimitManager
                 (<[operation_key := loop_time (reads w)]> (session_timestamps (manager w)))
                 (operation_counts (manager w)))
              (S (reads w)) (naps w))
    end
  end.

End RateLimit.

(** A call of [execute_with_rate_limit] from outside, with the outcome of
    the function it wraps. *)
Record request : Type := mkRequest {
  session_id : string;
  operation_type : string;
  func_outcome : result Z;
  min_interval : Q;
  max_per_day : option Z
}.

Definition serve (loop_time : nat → Q) (w : Loop) (r : request) : Loop :=
  (execute_with_rate_limit loop_time (session_id r) (operation_type r) (func_outcome r)
     (min_interval r) (max_per_day r) w).2.

(** The world after a sequence of requests to a fresh manager. *)
Definition serve_all (loop_time : nat → Q) (requests : list request) : Loop :=
  foldl (serve loop_time) (mkLoop rate_limit_manager 0 []) requests.

End Floodwait.

(** ** [utils/load_balancer.py] *)

Module LoadBalancer.

(** A [TelegramClient] is used as an opaque handle. *)
Definition Client : Type := nat.

(** Session health status constants. *)
Inductive Status : Type :=
| STATUS_HEALTHY
| STATUS_DEGRADED
| STATUS_OVERLOADED
| STATUS_DISABLED
| STATUS_COOLING.

#[global] Instance Status_eq_dec : EqDecision Status.
Proof. solve_decision. Defined.

Definition ERROR_WINDOW_SECONDS : Q := 300.
Definition HEALTH_CHECK_INTERVAL : Q := 60.

(** [self.baseline_response_times]. *)
Definition baseline_response_times : gmap string Q :=
  list_to_map [("default"%string, 1.0); ("message"%string, 1.2); ("join"%string, 2.0);
               ("admin"%string, 1.5); ("scrape"%string, 2.5)].

(** [self.overload_thresholds], one definition per key the code reads. *)
Definition overload_error_rate : Q := 0.2.
Definition overload_flood_wait_frequency : Z := 5.
Definition overload_flood_wait_time_window : Q := 3600.
Definition overload_consecutive_errors : Z := 3.
Definition overload_response_time_factor : Q := 2.0.
Definition overload_operation_rate_acceleration : Q := 2.0.
Definition overload_combined_warning_threshold : Q := 1.0.
Definition overload_pattern_recognition_weight : Q := 0.7.

(** [self.cooldown_parameters]. *)
Definition base_cooldown : Z := 300.
Definition max_cooldown : Z := 3600.
Definition escalation_factor : Q := 1.5.
Definition de_escalation_factor : Q := 0.8.
Definition success_recovery_threshold : Z := 10.
Definition repeated_issue_threshold : Z := 3.
Definition cooldown_jitter : Q := 0.2.

(** [self.cooldown_parameters["severity_weights"].get(error_type, ...["other"])]. *)
Definition severity_weights : gmap string Q :=
  list_to_map [("flood_wait"%string, 1.2); ("timeout"%string, 1.1); ("network"%string, 1.0);
               ("auth"%string, 1.3); ("other"%string, 0.8)].

Definition severity_weight (error_type : string) : Q :=
  default 0.8 (severity_weights !! error_type).

Definition default_priority : Z := 5.
Definition min_priority : Z := 1.
Definition max_priority : Z := 10.

(** [self.priority_throttle_map.get(priority, 1.5)]. *)
Definition priority_throttle_map : gmap Z Q :=
  list_to_map [(1%Z, 5.0); (2%Z, 4.0); (3%Z, 3.0); (4%Z, 2.0); (5%Z, 1.5); (6%Z, 1.2);
               (7%Z, 1.1); (8%Z, 1.05); (9%Z, 1.01); (10%Z, 1.0)].

Definition throttle_factor_of (priority : Z) : Q :=
  default 1.5 (priority_throttle_map !! priority).

Definition pattern_window : Q := 86400.

(** An entry of [metrics["overload_history"]]. *)
Record OverloadEntry : Type := mkOverloadEntry {
  oe_timestamp : Q;
  oe_score : Q;
  oe_error_rate : Q;
  oe_flood_waits : Z;
  oe_consecutive_errors : Z
}.

(** An entry of [self.session_cooldown_history[phone]]. *)
Record CooldownRecord : Type := mkCooldownRecord {
  cr_timestamp : Q;
  cr_duration : Q;
  cr_error_type : string
}.

(** [self.sessions[purpose]]: the two pools of a purpose. *)
Record Pool : Type := mkPool {
  primary : list string;
  backup : list string
}.

(** The per-session metrics dictionary.  Every key the code reads or writes
    is a field; [None] means the key is absent. *)
Record Metrics : Type := mkMetrics {
  operations : option Z;
  errors : option Z;
  flood_waits : option Z;
  total_flood_wait_time : option Z;
  last_flood_wait : option Z;
  response_times : option (gmap string (list (Q * Q)));
  error_timestamps : option (list Q);
  health_score : option Q;
  consecutive_errors : option Z;
  overload_history : option (list OverloadEntry);
  operation_timestamps : option (list Q);
  operations_by_type : option (gmap string (list Q));
  successful_ops_since_last_issue : option Z;
  status : option Status;
  cooling_start : option Q;
  cooling_duration : option Z;
  cooling_end : option Q;
  cooling_reason : option string;
  current_overload_score : option Q;
  operation_rate_history : option (list Z);
  user_type : option string;
  critical_operation : option bool;
  consistent_good_behavior : option bool;
  good_behavior_streak : option Z
}.

Definition set_operations (v : option Z) (m : Metrics) : Metrics :=
  mkMetrics v (errors m) (flood_waits m) (total_flood_wait_time m) (last_flood_wait m)
    (response_times m) (error_timestamps m) (health_score m) (consecutive_errors m)
    (overload_history m) (operation_timestamps m) (operations_by_type m)
    (successful_ops_since_last_issue m) (status m) (cooling_start m) (cooling_duration
    m) (cooling_end m) (cooling_reason m) (current_overload_score m)
    (operation_rate_history m) (user_type m) (critical_operation m)
    (consistent_good_behavior m) (good_behavior_streak m).

Definition set_error_timestamps (v : option (list Q)) (m : Metrics) : Metrics :=
  mkMetrics (operations m) (errors m) (flood_waits m) (total_flood_wait_time m)
    (last_flood_wait m) (response_times m) v (health_score m) (consecutive_errors m)
    (overload_history m) (operation_timestamps m) (operations_by_type m)
    (successful_ops_since_last_issue m) (status m) (cooling_start m) (cooling_duration
    m) (cooling_end m) (cooling_reason m) (current_overload_score m)
    (operation_rate_history m) (user_type m) (critical_operation m)
    (consistent_good_behavior m) (good_behavior_streak m).

Definition set_consecutive_errors (v : option Z) (m : Metrics) : Metrics :=
  mkMetrics (operations m) (errors m) (flood_waits m) (total_flood_wait_time m)
    (last_flood_wait m) (response_times m) (error_timestamps m) (health_score m) v
    (overload_history m) (operation_timestamps m) (operations_by_type m)
    (successful_ops_since_last_issue m) (status m) (cooling_start m) (cooling_duration
    m) (cooling_end m) (cooling_reason m) (current_overload_score m)
    (operation_rate_history m) (user_type m) (critical_operation m)
    (consistent_good_behavior m) (good_behavior_streak m).

Definition set_overload_history (v : option (list OverloadEntry)) (m : Metrics) : Metrics :=
  mkMetrics (operations m) (errors m) (flood_waits m) (total_flood_wait_time m)
    (last_flood_wait m) (response_times m) (error_timestamps m) (health_score m)
    (consecutive_errors m) v (operation_timestamps m) (operations_by_type m)
    (successful_ops_since_last_issue m) (status m) (cooling_start m) (cooling_duration
    m) (cooling_end m) (cooling_reason m) (current_overload_score m)
    (operation_rate_history m) (user_type m) (critical_operation m)
    (consistent_good_behavior m) (good_behavior_streak m).

Definition set_operation_timestamps (v : option (list Q)) (m : Metrics) : Metrics :=
  mkMetrics (operations m) (errors m) (flood_waits m) (total_flood_wait_time m)
    (last_flood_wait m) (response_times m) (error_timestamps m) (health_score m)
    (consecutive_errors m) (overload_history m) v (operations_by_type m)
    (successful_ops_since_last_issue m) (status m) (cooling_start m) (cooling_duration
    m) (cooling_end m) (cooling_reason m) (current_overload_score m)
    (operation_rate_history m) (user_type m) (critical_operation m)
    (consistent_good_behavior m) (good_behavior_streak m).

Definition set_operations_by_type (v : option (gmap string (list Q))) (m : Metrics) : Metrics :=
  mkMetrics (operations m) (errors m) (flood_waits m) (total_flood_wait_time m)
    (last_flood_wait m) (response_times m) (error_timestamps m) (health_score m)
    (consecutive_errors m) (overload_history m) (operation_timestamps m) v
    (successful_ops_since_last_issue m) (status m) (cooling_start m) (cooling_duration
    m) (cooling_end m) (cooling_reason m) (current_overload_score m)
    (operation_rate_history m) (user_type m) (critical_operation m)
    (consistent_good_behavior m) (good_behavior_streak m).

Definition set_successful_ops_since_last_issue (v : option Z) (m : Metrics) : Metrics :=
  mkMetrics (operations m) (errors m) (flood_waits m) (total_flood_wait_time m)
    (last_flood_wait m) (response_times m) (error_timestamps m) (health_score m)
    (consecutive_errors m) (overload_history m) (operation_timestamps m)
    (operations_by_type m) v (status m) (cooling_start m) (cooling_duration m)
    (cooling_end m) (cooling_reason m) (current_overload_score m)
    (operation_rate_history m) (user_type m) (critical_operation m)
    (consistent_good_behavior m) (good_behavior_streak m).

Definition set_status (v : option Status) (m : Metrics) : Metrics :=
  mkMetrics (operations m) (errors m) (flood_waits m) (total_flood_wait_time m)
    (last_flood_wait m) (response_times m) (error_timestamps m) (health_score m)
    (consecutive_errors m) (overload_history m) (operation_timestamps m)
    (operations_by_type m) (successful_ops_since_last_issue m) v (cooling_start m)
    (cooling_duration m) (cooling_end m) (cooling_reason m) (current_overload_score m)
    (operation_rate_history m) (user_type m) (critical_operation m)
    (consistent_good_behavior m) (good_behavior_streak m).

Definition set_cooling_start (v : option Q) (m : Metrics) : Metrics :=
  mkMetrics (operations m) (errors m) (flood_waits m) (total_flood_wait_time m)
    (last_flood_wait m) (response_times m) (error_timestamps m) (health_score m)
    (consecutive_errors m) (overload_history m) (operation_timestamps m)
    (operations_by_type m) (successful_ops_since_last_issue m) (status m) v
    (cooling_duration m) (cooling_end m) (cooling_reason m) (current_overload_score m)
    (operation_rate_history m) (user_type m) (critical_operation m)
    (consistent_good_behavior m) (good_behavior_streak m).

Definition set_cooling_duration (v : option Z) (m : Metrics) : Metrics :=
  mkMetrics (operations m) (errors m) (flood_waits m) (total_flood_wait_time m)
    (last_flood_wait m) (response_times m) (error_timestamps m) (health_score m)
    (consecutive_errors m) (overload_history m) (operation_timestamps m)
    (operations_by_type m) (successful_ops_since_last_issue m) (status m) (cooling_start
    m) v (cooling_end m) (cooling_reason m) (current_overload_score m)
    (operation_rate_history m) (user_type m) (critical_operation m)
    (consistent_good_behavior m) (good_behavior_streak m).

Definition set_cooling_end (v : option Q) (m : Metrics) : Metrics :=
  mkMetrics (operations m) (errors m) (flood_waits m) (total_flood_wait_time m)
    (last_flood_wait m) (response_times m) (error_timestamps m) (health_score m)
    (consecutive_errors m) (overload_history m) (operation_timestamps m)
    (operations_by_type m) (successful_ops_since_last_issue m) (status m) (cooling_start
    m) (cooling_duration m) v (cooling_reason m) (current_overload_score m)
    (operation_rate_history m) (user_type m) (critical_operation m)
    (consistent_good_behavior m) (good_behavior_streak m).

Definition set_cooling_reason (v : option string) (m : Metrics) : Metrics :=
  mkMetrics (operations m) (errors m) (flood_waits m) (total_flood_wait_time m)
    (last_flood_wait m) (response_times m) (error_timestamps m) (health_score m)
    (consecutive_errors m) (overload_history m) (operation_timestamps m)
    (operations_by_type m) (successful_ops_since_last_issue m) (status m) (cooling_start
    m) (cooling_duration m) (cooling_end m) v (current_overload_score m)
    (operation_rate_history m) (user_type m) (critical_operation m)
    (consistent_good_behavior m) (good_behavior_streak m).

Definition set_current_overload_score (v : option Q) (m : Metrics) : Metrics :=
  mkMetrics (operations m) (errors m) (flood_waits m) (total_flood_wait_time m)
    (last_flood_wait m) (response_times m) (error_timestamps m) (health_score m)
    (consecutive_errors m) (overload_history m) (operation_timestamps m)
    (operations_by_type m) (successful_ops_since_last_issue m) (status m) (cooling_start
    m) (cooling_duration m) (cooling_end m) (cooling_reason m) v (operation_rate_history
    m) (user_type m) (critical_operation m) (consistent_good_behavior m)
    (good_behavior_streak m).

Definition set_operation_rate_history (v : option (list Z)) (m : Metrics) : Metrics :=
  mkMetrics (operations m) (errors m) (flood_waits m) (total_flood_wait_time m)
    (last_flood_wait m) (response_times m) (error_timestamps m) (health_score m)
    (consecutive_errors m) (overload_history m) (operation_timestamps m)
    (operations_by_type m) (successful_ops_since_last_issue m) (status m) (cooling_start
    m) (cooling_duration m) (cooling_end m) (cooling_reason m) (current_overload_score
    m) v (user_type m) (critical_operation m) (consistent_good_behavior m)
    (good_behavior_streak m).

Definition set_consistent_good_behavior (v : option bool) (m : Metrics) : Metrics :=
  mkMetrics (operations m) (errors m) (flood_waits m) (total_flood_wait_time m)
    (last_flood_wait m) (response_times m) (error_timestamps m) (health_score m)
    (consecutive_errors m) (overload_history m) (operation_timestamps m)
    (operations_by_type m) (successful_ops_since_last_issue m) (status m) (cooling_start
    m) (cooling_duration m) (cooling_end m) (cooling_reason m) (current_overload_score
    m) (operation_rate_history m) (user_type m) (critical_operation m) v
    (good_behavior_streak m).

Definition set_good_behavior_streak (v : option Z) (m : Metrics) : Metrics :=
  mkMetrics (operations m) (errors m) (flood_waits m) (total_flood_wait_time m)
    (last_flood_wait m) (response_times m) (error_timestamps m) (health_score m)
    (consecutive_errors m) (overload_history m) (operation_timestamps m)
    (operations_by_type m) (successful_ops_since_last_issue m) (status m) (cooling_start
    m) (cooling_duration m) (cooling_end m) (cooling_reason m) (current_overload_score
    m) (operation_rate_history m) (user_type m) (critical_operation m)
    (consistent_good_behavior m) v.


(** The dictionary [register_client] creates for a new session. *)
Definition registered_metrics : Metrics :=
  mkMetrics (Some 0%Z) (Some 0%Z) (Some 0%Z) (Some 0%Z) (Some 0%Z) (Some ∅) (Some [])
    (Some 1.0) (Some 0%Z) (Some []) None None None None None None None None None None
    None None None None.

(** The empty dictionary [{}] that [record_operation] creates. *)
Definition empty_metrics : Metrics :=
  mkMetrics None None None None None None None None None None None None None None None
    None None None None None None None None None.

(** The attributes of a [LoadBalancer] that the embedded methods use. *)
Record LoadBalancer : Type := mkLoadBalancer {
  active_clients : gmap string Client;
  session_metrics : gmap string Metrics;
  last_health_check : Q;
  sessions : gmap string Pool;
  flood_wait_times : gmap string (list (Q * Z));
  session_cooldowns : gmap string Q;
  session_cooldown_history : gmap string (list CooldownRecord);
  session_priorities : gmap string Z;
  behavior_patterns : gmap string (gmap string (list (Q * string)));
  last_priority_update : Q
}.

Definition set_active_clients (v : gmap string Client) (self : LoadBalancer) : LoadBalancer :=
  mkLoadBalancer v (session_metrics self) (last_health_check self) (sessions self)
    (flood_wait_times self) (session_cooldowns self) (session_cooldown_history self)
    (session_priorities self) (behavior_patterns self) (last_priority_update self).

Definition set_session_metrics (v : gmap string Metrics) (self : LoadBalancer) : LoadBalancer :=
  mkLoadBalancer (active_clients self) v (last_health_check self) (sessions self)
    (flood_wait_times self) (session_cooldowns self) (session_cooldown_history self)
    (session_priorities self) (behavior_patterns self) (last_priority_update self).

Definition set_last_health_check (v : Q) (self : LoadBalancer) : LoadBalancer :=
  mkLoadBalancer (active_clients self) (session_metrics self) v (sessions self)
    (flood_wait_times self) (session_cooldowns self) (session_cooldown_history self)
    (session_priorities self) (behavior_patterns self) (last_priority_update self).

Definition set_sessions (v : gmap string Pool) (self : LoadBalancer) : LoadBalancer :=
  mkLoadBalancer (active_clients self) (session_metrics self) (last_health_check self) v
    (flood_wait_times self) (session_cooldowns self) (session_cooldown_history self)
    (session_priorities self) (behavior_patterns self) (last_priority_update self).

Definition set_flood_wait_times (v : gmap string (list (Q * Z))) (self : LoadBalancer) : LoadBalancer :=
  mkLoadBalancer (active_clients self) (session_metrics self) (last_health_check self)
    (sessions self) v (session_cooldowns self) (session_cooldown_history self)
    (session_priorities self) (behavior_patterns self) (last_priority_update self).

Definition set_session_cooldowns (v : gmap string Q) (self : LoadBalancer) : LoadBalancer :=
  mkLoadBalancer (active_clients self) (session_metrics self) (last_health_check self)
    (sessions self) (flood_wait_times self) v (session_cooldown_history self)
    (session_priorities self) (behavior_patterns self) (last_priority_update self).

Definition set_session_cooldown_history (v : gmap string (list CooldownRecord)) (self : LoadBalancer) : LoadBalancer :=
  mkLoadBalancer (active_clients self) (session_metrics self) (last_health_check self)
    (sessions self) (flood_wait_times self) (session_cooldowns self) v
    (session_priorities self) (behavior_patterns self) (last_priority_update self).

Definition set_session_priorities (v : gmap string Z) (self : LoadBalancer) : LoadBalancer :=
  mkLoadBalancer (active_clients self) (session_metrics self) (last_health_check self)
    (sessions self) (flood_wait_times self) (session_cooldowns self)
    (session_cooldown_history self) v (behavior_patterns self) (last_priority_update
    self).

Definition set_behavior_patterns (v : gmap string (gmap string (list (Q * string)))) (self : LoadBalancer) : LoadBalancer :=
  mkLoadBalancer (active_clients self) (session_metrics self) (last_health_check self)
    (sessions self) (flood_wait_times self) (session_cooldowns self)
    (session_cooldown_history self) (session_priorities self) v (last_priority_update
    self).

Definition set_last_priority_update (v : Q) (self : LoadBalancer) : LoadBalancer :=
  mkLoadBalancer (active_clients self) (session_metrics self) (last_health_check self)
    (sessions self) (flood_wait_times self) (session_cooldowns self)
    (session_cooldown_history self) (session_priorities self) (behavior_patterns self)
    v.


(** The object [__init__] builds. *)
Definition init : LoadBalancer :=
  mkLoadBalancer ∅ ∅ 0 ∅ ∅ ∅ ∅ ∅ ∅ 0.

(** *** The environment and the monad of the methods *)

(** The world a method runs in: the object ([self]), how many times the
    clock and the random generator were consulted, and the arguments of the
    [asyncio.sleep] calls made so far, oldest first. *)
Record World : Type := mkWorld {
  lb : LoadBalancer;
  ticks : nat;
  draws : nat;
  sleeps : list Q
}.

Definition M (A : Type) : Type := World → result A * World.

Definition ret {A} (a : A) : M A := λ w, (Ok a, w).

(** Sequencing: a raise in [m] skips [f] and keeps the world [m] left. *)
Definition bind {A B} (m : M A) (f : A → M B) : M B :=
  λ w, match m w with
       | (Ok a, w') => f a w'
       | (Raise e, w') => (Raise e, w')
       end.

Declare Scope M_scope.
Delimit Scope M_scope with M.
Bind Scope M_scope with M.
Notation "x ← y ; z" := (bind y (λ x, z))
  (at level 20, y at level 100, z at level 200, only parsing) : M_scope.
Notation "y ;; z" := (bind y (λ _, z))
  (at level 100, z at level 200, only parsing, right associativity) : M_scope.
Local Open Scope M_scope.

Definition raise {A} (e : exn) : M A := λ w, (Raise e, w).

(** Nothing to do (an [if] without [else]). *)
Definition skip : M unit := ret tt.

Definition gets {A} (f : LoadBalancer → A) : M A := λ w, (Ok (f (lb w)), w).

Definition modify (f : LoadBalancer → LoadBalancer) : M unit :=
  λ w, (Ok tt, mkWorld (f (lb w)) (ticks w) (draws w) (sleeps w)).

(** [await asyncio.sleep(d)]. *)
Definition sleep (d : Q) : M unit :=
  λ w, (Ok tt, mkWorld (lb w) (ticks w) (draws w) (sleeps w ++ [d])).

(** Runs [m] and hands its outcome, returned or raised, to the caller: the
    [try] part of a [try] statement. *)
Definition try {A} (m : M A) : M (result A) :=
  λ w, (Ok (m w).1, (m w).2).

(** Python's [/] on floats. *)
Definition truediv (a b : Q) : M Q :=
  if Qeq_bool b 0 then raise (ZeroDivisionError "float division by zero")
  else ret (a / b).

(** A call of a method the class does not define: the attribute lookup
    raises.  [LoadBalancer] defines neither [check_all_sessions_health] nor
    [check_session_health]. *)
Definition check_all_sessions_health : M unit :=
  raise (AttributeError
    "'LoadBalancer' object has no attribute 'check_all_sessions_health'").

Definition check_session_health (phone : string) : M unit :=
  raise (AttributeError
    "'LoadBalancer' object has no attribute 'check_session_health'").

(** [self.session_metrics[phone][key] = v], for a [phone] that is a key. *)
Definition modify_metrics (phone : string) (f : Metrics → Metrics) : M unit :=
  modify (λ self, set_session_metrics (alter f phone (session_metrics self)) self).

Definition has_metrics (phone : string) : M bool :=
  gets (λ self, bool_decide (is_Some (session_metrics self !! phone))).

(** [l[-n:]]. *)
Definition last_n {A} (n : nat) (l : list A) : list A := drop (length l - n) l.

(** [[t[i] - t[i-1] for i in range(1, len(t))]]. *)
Fixpoint intervals_of (t : list Q) : list Q :=
  match t with
  | a :: (b :: _) as t' => (b - a) :: intervals_of t'
  | _ => []
  end.


(** Text helpers for [str(e).lower()], the [in] test on strings and
    [re.search(r"(\d+)", ...)], over ASCII text. *)
Definition lower_char (c : ascii) : ascii :=
  let n := nat_of_ascii c in
  if (65 <=? n)%nat && (n <=? 90)%nat then ascii_of_nat (n + 32) else c.

Fixpoint lower (s : string) : string :=
  match s with
  | EmptyString => EmptyString
  | String c s' => String (lower_char c) (lower s')
  end.

Fixpoint contains (needle hay : string) : bool :=
  String.prefix needle hay ||
  match hay with
  | EmptyString => false
  | String _ hay' => contains needle hay'
  end.

Definition is_digit (c : ascii) : bool :=
  let n := nat_of_ascii c in (48 <=? n)%nat && (n <=? 57)%nat.

(** The number the leading digits of [s] spell, continuing from [acc]. *)
Fixpoint leading_number (s : string) (acc : Z) : Z :=
  match s with
  | String c s' =>
    if is_digit c then leading_number s' (acc * 10 + Z.of_nat (nat_of_ascii c - 48))%Z
    else acc
  | EmptyString => acc
  end.

(** [int(m.group(1))] for [m = re.search(r"(\d+)", s)], or [None] when there
    is no digit in [s]. *)
Fixpoint search_number (s : string) : option Z :=
  match s with
  | EmptyString => None
  | String c s' => if is_digit c then Some (leading_number s 0) else search_number s'
  end.

(** The flood-wait seconds [execute_with_priority] reads off an exception. *)
Definition extract_floodwait (e : exn) : Z :=
  let error_str := lower (str e) in
  if contains "floodwait" error_str || contains "flood wait" error_str then
    default 0%Z (search_number error_str)
  else 0%Z.

Section Methods.

(** [clock n] is what the [n]-th call of [time.time()] returns and [rand n]
    the [n]-th sample of [random.random()], from which [random.uniform(a, b)]
    is [a + (b - a) * random()]. *)
Variable clock : nat → Q.
Variable rand : nat → Q.

Definition time_time : M Q :=
  λ w, (Ok (clock (ticks w)), mkWorld (lb w) (S (ticks w)) (draws w) (sleeps w)).

Definition uniform (a b : Q) : M Q :=
  λ w, (Ok (a + (b - a) * rand (draws w)),
        mkWorld (lb w) (ticks w) (S (draws w)) (sleeps w)).

(** [[x for x in l if time.time() - timestamp_of(x) <= limit]]: the clock is
    read once per element. *)
Fixpoint filter_recent {A} (timestamp_of : A → Q) (limit : Q) (l : list A)
  : M (list A) :=
  match l with
  | [] => ret []
  | x :: l' =>
    now ← time_time;
    rest ← filter_recent timestamp_of limit l';
    ret (if Qle_bool (now - timestamp_of x) limit then x :: rest else rest)
  end.

Definition register_client (phone : string) (client : Client)
    (purpose : string) (is_primary : bool) : M unit :=
  modify (λ self, set_active_clients (<[phone := client]> (active_clients self)) self);;
  modify (λ self,
    match session_metrics self !! phone with
    | Some _ => self
    | None =>
      set_session_metrics (<[phone := registered_metrics]> (session_metrics self)) self
    end);;
  modify (λ self,
    match sessions self !! purpose with
    | Some _ => self
    | None => set_sessions (<[purpose := mkPool [] []]> (sessions self)) self
    end);;
  modify (λ self,
    match sessions self !! purpose with
    | Some pool =>
      let pool' :=
        if is_primary then
          if bool_decide (phone ∈ primary pool) then pool
          else mkPool (primary pool ++ [phone]) (backup pool)
        else
          if bool_decide (phone ∈ backup pool) then pool
          else mkPool (primary pool) (backup pool ++ [phone]) in
      set_sessions (<[purpose := pool']> (sessions self)) self
    | None => self
    end).

(** Step 1 of [calculate_adaptive_cooldown]: escalation on repeated issues. *)
Definition escalate (phone_history : list CooldownRecord) (cooldown_period : Q) : M Q :=
  if (2 <=? len phone_history)%Z then
    recent_cooldowns ← filter_recent cr_timestamp 21600 phone_history;
    if (repeated_issue_threshold <=? len recent_cooldowns)%Z then
      let escalation_count := Z.min (len recent_cooldowns) 5 in
      ret (cooldown_period * Qpower escalation_factor (escalation_count - 1))
    else ret cooldown_period
  else ret cooldown_period.

(** Step 3: the flood-wait floor. *)
Definition flood_wait_adjust (phone : string) (metrics : Metrics) (cooldown_period : Q)
  : M Q :=
  match last_flood_wait metrics with
  | Some last =>
    if (0 <? last)%Z then
      waits ← gets (λ self, default [] (flood_wait_times self !! phone));
      recent ← filter_recent fst 3600 waits;
      match snd <$> recent with
      | [] => ret cooldown_period
      | fw :: fws =>
        let max_flood_wait := foldl Z.max fw fws in
        let flood_cooldown := Z.max (max_flood_wait * 2) base_cooldown in
        ret (pymax cooldown_period (inject_Z flood_cooldown))
      end
    else ret cooldown_period
  | None => ret cooldown_period
  end.

(** Step 4: the floor from a recurring overload pattern. *)
Definition pattern_adjust (metrics : Metrics) (cooldown_period : Q) : M Q :=
  match overload_history metrics with
  | Some history =>
    if (3 <=? len history)%Z then
      let timestamps := oe_timestamp <$> history in
      let intervals := intervals_of timestamps in
      avg_interval ← truediv (Qsum intervals) (inject_Z (len intervals));
      deviation ← truediv (Qsum ((λ i, Qabs (i - avg_interval)) <$> intervals))
                          (inject_Z (len intervals));
      ratio ← truediv deviation avg_interval;
      let consistency := 1 - pymin ratio 0.5 in
      if Qgtb consistency 0.7 then
        let pattern_cooldown := avg_interval * 1.2 in
        ret (pymax cooldown_period pattern_cooldown)
      else ret cooldown_period
    else ret cooldown_period
  | None => ret cooldown_period
  end.

(** Step 5: de-escalation after a run of successes. *)
Definition de_escalate (phone_history : list CooldownRecord) (metrics : Metrics)
    (cooldown_period : Q) : Q :=
  let successful := default 0%Z (successful_ops_since_last_issue metrics) in
  if (success_recovery_threshold <=? successful)%Z then
    match last phone_history with
    | Some last_record =>
      pymax (inject_Z base_cooldown) (cr_duration last_record * de_escalation_factor)
    | None => cooldown_period
    end
  else cooldown_period.

Definition calculate_adaptive_cooldown (phone : string) (error_type : string) : M Z :=
  known ← gets (λ self, session_metrics self !! phone);
  match known with
  | None => ret base_cooldown
  | Some metrics =>
    phone_history ← gets (λ self, default [] (session_cooldown_history self !! phone));
    cooldown_period ← escalate phone_history (inject_Z base_cooldown);
    let cooldown_period := cooldown_period * severity_weight error_type in
    cooldown_period ← flood_wait_adjust phone metrics cooldown_period;
    cooldown_period ← pattern_adjust metrics cooldown_period;
    let cooldown_period := de_escalate phone_history metrics cooldown_period in
    jitter_factor ← uniform (1 - cooldown_jitter) (1 + cooldown_jitter);
    let cooldown_period := cooldown_period * jitter_factor in
    let cooldown_period :=
      pymin (pymax cooldown_period (inject_Z base_cooldown)) (inject_Z max_cooldown) in
    now ← time_time;
    modify (λ self,
      let history := default [] (session_cooldown_history self !! phone)
                     ++ [mkCooldownRecord now cooldown_period error_type] in
      let history := if (10 <? len history)%Z then last_n 10 history else history in
      set_session_cooldown_history (<[phone := history]> (session_cooldown_history self)) self);;
    ret (int_of_float cooldown_period)
  end.

Definition cool_down_session (phone : string) (error_type : string) : M Z :=
  duration ← calculate_adaptive_cooldown phone error_type;
  now ← time_time;
  modify (λ self,
    set_session_cooldowns (<[phone := now + inject_Z duration]> (session_cooldowns self)) self);;
  known ← has_metrics phone;
  (if known then
     modify_metrics phone (set_status (Some STATUS_COOLING));;
     now ← time_time;
     modify_metrics phone (set_cooling_start (Some now));;
     modify_metrics phone (set_cooling_duration (Some duration));;
     now ← time_time;
     modify_metrics phone (set_cooling_end (Some (now + inject_Z duration)));;
     modify_metrics phone (set_cooling_reason (Some error_type));;
     modify_metrics phone (set_consecutive_errors (Some 0%Z));;
     modify_metrics phone (set_successful_ops_since_last_issue (Some 0%Z))
   else skip);;
  ret duration.

Definition is_in_cooldown (phone : string) : M bool :=
  entry ← gets (λ self, session_cooldowns self !! phone);
  match entry with
  | None => ret false
  | Some cooldown_until =>
    now ← time_time;
    if Qgtb now cooldown_until then
      modify (λ self, set_session_cooldowns (delete phone (session_cooldowns self)) self);;
      ret false
    else ret true
  end.


(** *** Selection *)

(** The score [get_best_client] gives a session: priority times health
    score, times 0.9 in the backup pool. *)
Definition combined_score (self : LoadBalancer) (phone : string) (is_backup : bool) : Q :=
  let priority := default default_priority (session_priorities self !! phone) in
  let health_score :=
    default 1.0 (health_score (default empty_metrics (session_metrics self !! phone))) in
  if is_backup then inject_Z priority * health_score * 0.9
  else inject_Z priority * health_score.

(** Python's order on the tuples [(score, phone)]. *)
Definition tuple_ltb (a b : Q * string) : bool :=
  match Qcompare a.1 b.1 with
  | Lt => true
  | Gt => false
  | Eq => String.ltb a.2 b.2
  end.

Fixpoint insert_descending (x : Q * string) (l : list (Q * string)) : list (Q * string) :=
  match l with
  | [] => [x]
  | y :: l' => if tuple_ltb x y then y :: insert_descending x l' else x :: l
  end.

(** [l.sort(reverse=True)]. *)
Definition sort_reverse (l : list (Q * string)) : list (Q * string) :=
  fold_right insert_descending [] l.

Fixpoint insert_ascending (x : Q * string) (l : list (Q * string)) : list (Q * string) :=
  match l with
  | [] => [x]
  | y :: l' => if tuple_ltb y x then y :: insert_ascending x l' else x :: l
  end.

(** [l.sort()]. *)
Definition sort (l : list (Q * string)) : list (Q * string) :=
  fold_right insert_ascending [] l.

(** The loop over one pool that fills [available_sessions]. *)
Fixpoint collect_available (is_backup : bool) (phones : list string)
  : M (list (Q * string)) :=
  match phones with
  | [] => ret []
  | phone :: rest =>
    active ← gets (λ self, bool_decide (is_Some (active_clients self !! phone)));
    eligible ← (if active then cooling ← is_in_cooldown phone; ret (negb cooling)
                else ret false);
    if eligible then
      score ← gets (λ self, combined_score self phone is_backup);
      others ← collect_available is_backup rest;
      ret ((score, phone) :: others)
    else collect_available is_backup rest
  end.

(** The last resort over one pool: the first session with a client and
    metrics whose status is not cooling. *)
Fixpoint last_resort (phones : list string) : M (option (string * option Client)) :=
  match phones with
  | [] => ret None
  | phone :: rest =>
    client ← gets (λ self, active_clients self !! phone);
    known ← gets (λ self, session_metrics self !! phone);
    match client, known with
    | Some _, Some metrics =>
      match status metrics with
      | None => raise (KeyError "'status'")
      | Some st =>
        if bool_decide (st ≠ STATUS_COOLING) then ret (Some (phone, client))
        else last_resort rest
      end
    | _, _ => last_resort rest
    end
  end.

(** *** Priorities *)

Definition error_factor_of (error_rate : Q) : Z :=
  if Qltb error_rate 0.01 then 2
  else if Qltb error_rate 0.05 then 1
  else if Qgtb error_rate 0.20 then -1
  else if Qgtb error_rate 0.40 then -2
  else 0.

Definition flood_factor_of (flood_waits : Z) : Z :=
  if (flood_waits =? 0)%Z then 1
  else if (3 <? flood_waits)%Z then -1
  else if (5 <? flood_waits)%Z then -2
  else 0.

Definition frequency_factor_of (recent_ops : Z) : Z :=
  if (100 <? recent_ops)%Z then -2
  else if (50 <? recent_ops)%Z then -1
  else if (recent_ops <? 10)%Z then 1
  else 0.

Definition type_factor_of (user_type : string) : Z :=
  if String.eqb user_type "premium" then 1
  else if String.eqb user_type "admin" then 2
  else 0.

(** [len([t for t in l if current_time - t <= window])]. *)
Definition count_recent (current_time window : Q) (l : list Q) : Z :=
  len (List.filter (λ t, Qle_bool (current_time - t) window) l).

(** The tracking of a good-behaviour streak at the end of an iteration. *)
Definition track_consistency (good : bool) (m : Metrics) : Metrics :=
  if good then
    let streak := (default 0 (good_behavior_streak m) + 1)%Z in
    let m := set_good_behavior_streak (Some streak) m in
    if (5 <=? streak)%Z then set_consistent_good_behavior (Some true) m else m
  else
    set_consistent_good_behavior (Some false) (set_good_behavior_streak (Some 0%Z) m).

(** One iteration of the loop of [update_session_priorities], for the item
    [(phone, metrics)] of [self.session_metrics].  The divisor of the error
    rate is [max(operations, 1)], never zero. *)
Definition update_priority (current_time : Q) (self : LoadBalancer)
    (item : string * Metrics) : LoadBalancer :=
  let phone := item.1 in
  let metrics := item.2 in
  let self :=
    match session_priorities self !! phone with
    | Some _ => self
    | None =>
      set_session_priorities (<[phone := default_priority]> (session_priorities self)) self
    end in
  match operations metrics with
  | None => self
  | Some ops =>
    if (ops <? 10)%Z then self
    else
      let error_rate :=
        inject_Z (len (default [] (error_timestamps metrics))) / inject_Z (Z.max ops 1) in
      let error_factor := error_factor_of error_rate in
      let flood_waits := len (default [] (flood_wait_times self !! phone)) in
      let flood_factor := flood_factor_of flood_waits in
      let recent_ops :=
        count_recent current_time 600 (default [] (operation_timestamps metrics)) in
      let frequency_factor := frequency_factor_of recent_ops in
      let type_factor := type_factor_of (default "regular"%string (user_type metrics)) in
      let critical_factor := (if default false (critical_operation metrics) then 1 else 0)%Z in
      let consistency_factor :=
        (if default false (consistent_good_behavior metrics) then 1 else 0)%Z in
      let adjustment := (error_factor + flood_factor + frequency_factor + type_factor
                         + critical_factor + consistency_factor)%Z in
      let capped_adjustment := Z.max (Z.min adjustment 2) (-2) in
      let current := default default_priority (session_priorities self !! phone) in
      let new_priority := (current + capped_adjustment)%Z in
      let new_priority := Z.max (Z.min new_priority max_priority) min_priority in
      let self :=
        if bool_decide (new_priority ≠ current) then
          set_session_priorities (<[phone := new_priority]> (session_priorities self)) self
        else self in
      let good := (0 <? error_factor)%Z && (0 <=? flood_factor)%Z in
      set_session_metrics (alter (track_consistency good) phone (session_metrics self)) self
  end.

Definition update_session_priorities : M unit :=
  current_time ← time_time;
  modify (λ self,
    foldl (update_priority current_time) self (map_to_list (session_metrics self))).

Definition get_best_client (purpose : string) : M (option (string * option Client)) :=
  current_time ← time_time;
  last_check ← gets last_health_check;
  (if Qgtb (current_time - last_check) HEALTH_CHECK_INTERVAL then
     check_all_sessions_health;;
     modify (set_last_health_check current_time)
   else skip);;
  last_update ← gets last_priority_update;
  (if Qgtb (current_time - last_update) 600 then
     update_session_priorities;;
     modify (set_last_priority_update current_time)
   else skip);;
  pools ← gets (λ self,
    match sessions self !! purpose with
    | Some pool => Some pool
    | None => sessions self !! "general"%string
    end);
  match pools with
  | None => ret None
  | Some pool =>
    available_sessions ← collect_available false (primary pool);
    available_sessions ←
      match available_sessions with
      | [] => collect_available true (backup pool)
      | _ => ret available_sessions
      end;
    match sort_reverse available_sessions with
    | (best_score, best_phone) :: _ =>
      client ← gets (λ self, active_clients self !! best_phone);
      ret (Some (best_phone, client))
    | [] =>
      found ← last_resort (primary pool);
      match found with
      | Some _ => ret found
      | None => last_resort (backup pool)
      end
    end
  end.

Definition apply_priority_throttling (phone : string) : M Q :=
  priority ← gets (λ self, default default_priority (session_priorities self !! phone));
  ret (throttle_factor_of priority).


(** *** Recording and overload detection *)

Definition record_operation (phone : string) (success : bool) (error : option exn)
    (floodwait_seconds : Z) (operation_type : string) : M unit :=
  modify (λ self,
    match session_metrics self !! phone with
    | Some _ => self
    | None => set_session_metrics (<[phone := empty_metrics]> (session_metrics self)) self
    end);;
  current_time ← time_time;
  modify_metrics phone (λ m,
    match operation_timestamps m with
    | Some _ => m
    | None => set_operation_timestamps (Some []) m
    end);;
  modify_metrics phone (λ m,
    set_operation_timestamps
      (Some (default [] (operation_timestamps m) ++ [current_time])) m);;
  modify_metrics phone (λ m,
    set_operation_timestamps
      (Some (List.filter (λ t, Qle_bool (current_time - t) ERROR_WINDOW_SECONDS)
                         (default [] (operation_timestamps m)))) m);;
  modify_metrics phone (λ m,
    set_operations (Some (len (default [] (operation_timestamps m)))) m);;
  modify_metrics phone (λ m,
    match operations_by_type m with
    | Some _ => m
    | None => set_operations_by_type (Some ∅) m
    end);;
  modify_metrics phone (λ m,
    let by_type := default ∅ (operations_by_type m) in
    set_operations_by_type
      (Some (<[operation_type := default [] (by_type !! operation_type) ++ [current_time]]>
               by_type)) m);;
  (if negb success && bool_decide (is_Some error) then
     modify_metrics phone (λ m,
       match error_timestamps m with
       | Some _ => m
       | None => set_error_timestamps (Some []) m
       end);;
     now ← time_time;
     modify_metrics phone (λ m,
       set_error_timestamps (Some (default [] (error_timestamps m) ++ [now])) m);;
     modify_metrics phone (λ m,
       set_consecutive_errors (Some (default 0 (consecutive_errors m) + 1)%Z) m);;
     modify_metrics phone (λ m,
       set_error_timestamps
         (Some (List.filter (λ t, Qle_bool (current_time - t) ERROR_WINDOW_SECONDS)
                            (default [] (error_timestamps m)))) m)
   else
     modify_metrics phone (set_consecutive_errors (Some 0%Z));;
     modify_metrics phone (λ m,
       set_successful_ops_since_last_issue
         (Some (default 0 (successful_ops_since_last_issue m) + 1)%Z) m));;
  (if (0 <? floodwait_seconds)%Z then
     (** the membership test is on the literal key ["flood_waits"] *)
     modify (λ self,
       match flood_wait_times self !! "flood_waits"%string with
       | Some _ => self
       | None => set_flood_wait_times (<[phone := []]> (flood_wait_times self)) self
       end);;
     waits ← gets (λ self, flood_wait_times self !! phone);
     match waits with
     | None => raise (KeyError (String.append "'" (String.append phone "'")))
     | Some waits =>
       now ← time_time;
       modify (λ self,
         set_flood_wait_times
           (<[phone := waits ++ [(now, floodwait_seconds)]]> (flood_wait_times self)) self);;
       now ← time_time;
       let cutoff := now - overload_flood_wait_time_window in
       modify (λ self,
         set_flood_wait_times
           (<[phone := List.filter (λ p, Qle_bool cutoff p.1)
                                   (default [] (flood_wait_times self !! phone))]>
              (flood_wait_times self)) self);;
       modify_metrics phone (set_successful_ops_since_last_issue (Some 0%Z))
     end
   else skip);;
  check_session_health phone.

(** [calculate_client_score]: the load score of a session, lower being
    better. *)
Definition calculate_client_score (phone operation_type : string) : M Q :=
  known ← gets (λ self, session_metrics self !! phone);
  match known with
  | None => ret 0.5
  | Some metrics =>
    current_time ← time_time;
    let score : Q := 0.0 in
    let recent_ops :=
      count_recent current_time 300 (default [] (operation_timestamps metrics)) in
    let score := score + Qmin (inject_Z recent_ops / 50) 1.0 in
    let recent_errors :=
      count_recent current_time 300 (default [] (error_timestamps metrics)) in
    let score := score + inject_Z recent_errors * 0.5 in
    score ←
      match default ∅ (response_times metrics) !! operation_type with
      | Some times =>
        let recent_times :=
          snd <$> List.filter (λ p, Qle_bool (current_time - p.1) 300) times in
        match recent_times with
        | _ :: _ =>
          avg_time ← truediv (Qsum recent_times) (inject_Z (len recent_times));
          let baseline :=
            default (default 1.0 (baseline_response_times !! "default"%string))
                    (baseline_response_times !! operation_type) in
          time_factor ← truediv avg_time baseline;
          ret (score + Qmin (time_factor - 1) 1.0)
        | [] => ret score
        end
      | None => ret score
      end;
    flood_waits ← gets (λ self,
      len (List.filter (λ p : Q * Z, Qle_bool (current_time - p.1) 900)
                       (default [] (flood_wait_times self !! phone))));
    let score := score + inject_Z flood_waits * 0.3 in
    jitter ← uniform 0 0.1;
    ret (score + jitter)
  end%Q.

(** The count of degraded operation types among the items of
    [metrics["response_times"]]. *)
Fixpoint degraded_types (current_time : Q) (items : list (string * list (Q * Q))) : M Z :=
  match items with
  | [] => ret 0%Z
  | (op_type, times) :: rest =>
    let recent_times :=
      snd <$> List.filter (λ p, Qle_bool (current_time - p.1) 1800) times in
    here ←
      match recent_times, baseline_response_times !! op_type with
      | _ :: _, Some baseline =>
        avg_time ← truediv (Qsum recent_times) (inject_Z (len recent_times));
        ret (if Qgtb avg_time (baseline * overload_response_time_factor) then 1 else 0)%Z
      | _, _ => ret 0%Z
      end;
    others ← degraded_types current_time rest;
    ret (here + others)%Z
  end.

(** The pattern score of [detect_session_overload]. *)
Definition pattern_score_of (current_time : Q) (metrics : Metrics) : M Q :=
  match overload_history metrics with
  | Some history =>
    if (2 <=? len history)%Z then
      match last history with
      | Some last_overload =>
        let time_since_last := current_time - oe_timestamp last_overload in
        let intervals := intervals_of (oe_timestamp <$> history) in
        match intervals with
        | [] => ret 0
        | _ :: _ =>
          avg_interval ← truediv (Qsum intervals) (inject_Z (len intervals));
          ret (if Qgtb time_since_last (avg_interval * 0.7)
               then overload_pattern_recognition_weight else 0)
        end
      | None => ret 0
      end
    else ret 0
  | None => ret 0
  end.

(** The flood-wait frequency signal: the flood waits of [phone] in the last
    [flood_wait_time_window] seconds. *)
Definition flood_wait_frequency (self : LoadBalancer) (phone : string) (current_time : Q) : Z :=
  len (List.filter (λ p : Q * Z, Qle_bool (current_time - p.1) overload_flood_wait_time_window)
                   (default [] (flood_wait_times self !! phone))).

(** The operation-rate block of the source only logs a warning, and is left
    out. *)
Definition detect_session_overload (phone : string) : M bool :=
  known ← gets (λ self, session_metrics self !! phone);
  match known with
  | None => ret false
  | Some metrics =>
    current_time ← time_time;
    let recent_errors :=
      count_recent current_time ERROR_WINDOW_SECONDS (default [] (error_timestamps metrics)) in
    let recent_ops :=
      Z.max (count_recent current_time ERROR_WINDOW_SECONDS
                          (default [] (operation_timestamps metrics))) 1 in
    error_rate ← truediv (inject_Z recent_errors) (inject_Z recent_ops);
    flood_waits ← gets (λ self, flood_wait_frequency self phone current_time);
    response_time_degradation ←
      degraded_types current_time (map_to_list (default ∅ (response_times metrics)));
    pattern_score ← pattern_score_of current_time metrics;
    let overload_score : Q := 0 in
    let overload_score :=
      if Qgeb error_rate overload_error_rate
      then overload_score + error_rate / overload_error_rate else overload_score in
    let overload_score :=
      if (overload_flood_wait_frequency <=? flood_waits)%Z
      then overload_score + inject_Z flood_waits / inject_Z overload_flood_wait_frequency
      else overload_score in
    let consecutive := default 0%Z (consecutive_errors metrics) in
    let overload_score :=
      if (overload_consecutive_errors <=? consecutive)%Z
      then overload_score + inject_Z consecutive / inject_Z overload_consecutive_errors
      else overload_score in
    let overload_score := overload_score + inject_Z response_time_degradation * 0.2 in
    let overload_score := overload_score + pattern_score in
    modify_metrics phone (set_current_overload_score (Some overload_score));;
    modify_metrics phone (λ m,
      match operation_rate_history m with
      | Some _ => m
      | None => set_operation_rate_history (Some []) m
      end);;
    let current_rate :=
      count_recent current_time 60 (default [] (operation_timestamps metrics)) in
    modify_metrics phone (λ m,
      set_operation_rate_history
        (Some (default [] (operation_rate_history m) ++ [current_rate])) m);;
    modify_metrics phone (λ m,
      let history := default [] (operation_rate_history m) in
      if (10 <? len history)%Z then set_operation_rate_history (Some (last_n 10 history)) m
      else m);;
    let is_overloaded := Qgeb overload_score overload_combined_warning_threshold in
    (if is_overloaded then
       modify_metrics phone (λ m,
         match overload_history m with
         | Some _ => m
         | None => set_overload_history (Some []) m
         end);;
       modify_metrics phone (λ m,
         set_overload_history
           (Some (default [] (overload_history m)
                  ++ [mkOverloadEntry current_time overload_score error_rate flood_waits
                                      consecutive])) m);;
       modify_metrics phone (set_status (Some STATUS_OVERLOADED));;
       modify_metrics phone (λ m,
         let history := default [] (overload_history m) in
         if (20 <? len history)%Z then set_overload_history (Some (last_n 20 history)) m
         else m)
     else skip);;
    ret is_overloaded
  end.


(** *** Execution with priority *)

(** What [execute_with_priority] returns: the tuple [(result, success,
    phone)], whose first component is [None], the value of the operation or
    the exception it raised. *)
Inductive outcome (value : Type) : Type :=
| NoClient
| Returned (v : value)
| Failed (e : exn).
Arguments NoClient {value}.
Arguments Returned {value} v.
Arguments Failed {value} e.

(** The arguments the [finally] block passes to [record_operation], from
    what the operation did: [(success, error, floodwait_seconds)]. *)
Definition recorded {value} (r : result value) : bool * option exn * Z :=
  match r with
  | Ok _ => (true, None, 0%Z)
  | Raise e => (false, Some e, extract_floodwait e)
  end.

(** [func] is the wrapped operation applied to its arguments: a computation
    over the same world, given the client. *)
Definition execute_with_priority {value} (purpose : string) (func : Client → M value)
    (operation_type : string) (priority_override : option Z)
  : M (outcome value * bool * string) :=
  best ← get_best_client purpose;
  match best with
  | None | Some (_, None) => ret (NoClient, false, ""%string)
  | Some (phone, Some client) =>
    throttle_factor ←
      match priority_override with
      | Some override =>
        let priority := Z.max (Z.min override max_priority) min_priority in
        ret (throttle_factor_of priority)
      | None => apply_priority_throttling phone
      end;
    (if Qgtb throttle_factor 1.0 then
       sample ← uniform 0.5 1.5;
       let delay := (throttle_factor - 1.0) * sample in
       if Qgtb delay 0.1 then sleep delay else skip
     else skip);;
    done ← try (func client);
    let '(success, error, floodwait_seconds) := recorded done in
    (** the [finally] block *)
    record_operation phone success error floodwait_seconds operation_type;;
    match done with
    | Ok v => ret (Returned v, true, phone)
    | Raise e => ret (Failed e, false, phone)
    end
  end.

Definition register_user_behavior (phone : string) (behavior_type : string)
    (value : string) : M unit :=
  modify (λ self,
    match behavior_patterns self !! phone with
    | Some _ => self
    | None => set_behavior_patterns (<[phone := ∅]> (behavior_patterns self)) self
    end);;
  current_time ← time_time;
  modify (λ self,
    let patterns := default ∅ (behavior_patterns self !! phone) in
    let instances := default [] (patterns !! behavior_type) ++ [(current_time, value)] in
    let instances :=
      List.filter (λ b : Q * string, Qle_bool (current_time - b.1) pattern_window) instances in
    set_behavior_patterns
      (<[phone := <[behavior_type := instances]> patterns]> (behavior_patterns self)) self);;
  let adjustment :=
    if String.eqb behavior_type "spam" then (-2)%Z
    else if String.eqb behavior_type "abusive" then (-3)%Z
    else if String.eqb behavior_type "helpful" then 1%Z
    else 0%Z in
  modify (λ self,
    match session_priorities self !! phone with
    | Some current =>
      if bool_decide (adjustment ≠ 0%Z) then
        let new_priority :=
          Z.max (Z.min (current + adjustment) max_priority) min_priority in
        if bool_decide (new_priority ≠ current) then
          set_session_priorities (<[phone := new_priority]> (session_priorities self)) self
        else self
      else self
    | None => self
    end).

(** *** Rotation *)

(** The loop over one pool that fills [available_phones]. *)
Fixpoint collect_alternatives (current_phone : string) (phones : list string)
  : M (list string) :=
  match phones with
  | [] => ret []
  | phone :: rest =>
    active ← gets (λ self, bool_decide (is_Some (active_clients self !! phone)));
    eligible ← (if negb (String.eqb phone current_phone) && active
                then cooling ← is_in_cooldown phone; ret (negb cooling)
                else ret false);
    others ← collect_alternatives current_phone rest;
    ret (if eligible then phone :: others else others)
  end.

(** The loop that scores the alternatives (lower is better). *)
Fixpoint score_phones (phones : list string) : M (list (Q * string)) :=
  match phones with
  | [] => ret []
  | phone :: rest =>
    known ← gets (λ self, session_metrics self !! phone);
    entry ←
      match known with
      | Some metrics =>
        let health := default 1.0 (health_score metrics) in
        priority ← gets (λ self, default default_priority (session_priorities self !! phone));
        recent ← filter_recent id 300 (default [] (operation_timestamps metrics));
        jitter ← uniform 0 0.1;
        ret (0 - health - inject_Z priority / 10 + inject_Z (len recent) / 100 + jitter,
             phone)
      | None => ret (0, phone)
      end;
    others ← score_phones rest;
    ret (entry :: others)
  end.

(** [current_phone] is [None] or a string; the empty string is falsy too. *)
Definition implement_session_rotation (purpose : string) (current_phone : option string)
  : M (option (string * option Client)) :=
  match current_phone with
  | None | Some EmptyString => get_best_client purpose
  | Some current_phone =>
    pool ← gets (λ self, default (mkPool [] []) (sessions self !! purpose));
    let in_primary := bool_decide (current_phone ∈ primary pool) in
    let in_backup := bool_decide (current_phone ∈ backup pool) in
    let current_is_backup := negb in_primary && in_backup in
    let same_pool := if current_is_backup then backup pool else primary pool in
    let other_pool := if current_is_backup then primary pool else backup pool in
    available_phones ← collect_alternatives current_phone same_pool;
    available_phones ←
      match available_phones with
      | [] => collect_alternatives current_phone other_pool
      | _ => ret available_phones
      end;
    match available_phones with
    | [] =>
      client ← gets (λ self, active_clients self !! current_phone);
      ret (Some (current_phone, client))
    | _ =>
      phone_scores ← score_phones available_phones;
      match sort phone_scores with
      | (_, best_phone) :: _ =>
        client ← gets (λ self, active_clients self !! best_phone);
        ret (Some (best_phone, client))
      | [] => raise (Exception "list index out of range")
      end
    end
  end.

Definition force_session_rotation (purpose : string) (avoid_phone : string)
  : M (option (string * option Client)) :=
  known ← has_metrics avoid_phone;
  (if known then cool_down_session avoid_phone "forced_rotation";; skip else skip);;
  implement_session_rotation purpose (Some avoid_phone).

End Methods.

Arguments NoClient {value}.
Arguments Returned {value} v.
Arguments Failed {value} e.

(** *** Calls from outside *)

(** The public methods with their arguments: what a caller of the object
    can do.  The operation wrapped by [execute_with_priority] is given by
    what it does, whatever the client: return a value or raise. *)
Inductive call : Type :=
| RegisterClient (phone : string) (client : Client) (purpose : string) (is_primary : bool)
| CalculateAdaptiveCooldown (phone error_type : string)
| CoolDownSession (phone error_type : string)
| IsInCooldown (phone : string)
| GetBestClient (purpose : string)
| UpdateSessionPriorities
| ApplyPriorityThrottling (phone : string)
| RecordOperation (phone : string) (success : bool) (error : option exn)
    (floodwait_seconds : Z) (operation_type : string)
| ExecuteWithPriority (purpose : string) (func : result Z) (operation_type : string)
    (priority_override : option Z)
| RegisterUserBehavior (phone behavior_type value : string)
| DetectSessionOverload (phone : string)
| ImplementSessionRotation (purpose : string) (current_phone : option string)
| ForceSessionRotation (purpose avoid_phone : string).

(** An operation that touches nothing of the object. *)
Definition operation_of (r : result Z) : Client → M Z :=
  λ _, match r with Ok v => ret v | Raise e => raise e end.

(** The world after a call, whatever it returned or raised. *)
Definition after (clock rand : nat → Q) (c : call) (w : World) : World :=
  match c with
  | RegisterClient phone client purpose is_primary =>
    (register_client phone client purpose is_primary w).2
  | CalculateAdaptiveCooldown phone error_type =>
    (calculate_adaptive_cooldown clock rand phone error_type w).2
  | CoolDownSession phone error_type => (cool_down_session clock rand phone error_type w).2
  | IsInCooldown phone => (is_in_cooldown clock phone w).2
  | GetBestClient purpose => (get_best_client clock purpose w).2
  | UpdateSessionPriorities => (update_session_priorities clock w).2
  | ApplyPriorityThrottling phone => (apply_priority_throttling phone w).2
  | RecordOperation phone success error floodwait_seconds operation_type =>
    (record_operation clock phone success error floodwait_seconds operation_type w).2
  | ExecuteWithPriority purpose func operation_type priority_override =>
    (execute_with_priority clock rand purpose (operation_of func) operation_type
       priority_override w).2
  | RegisterUserBehavior phone behavior_type value =>
    (register_user_behavior clock phone behavior_type value w).2
  | DetectSessionOverload phone => (detect_session_overload clock phone w).2
  | ImplementSessionRotation purpose current_phone =>
    (implement_session_rotation clock rand purpose current_phone w).2
  | ForceSessionRotation purpose avoid_phone =>
    (force_session_rotation clock rand purpose avoid_phone w).2
  end.

(** The world of a fresh object, and the world after a sequence of calls. *)
Definition start : World := mkWorld init 0 0 [].

Definition run (clock rand : nat → Q) (calls : list call) : World :=
  foldl (λ w c, after clock rand c w) start calls.

End LoadBalancer.

(** * Properties of [safe_execute] *)

Module FloodwaitFacts.
Import Floodwait.
Local Open Scope Z_scope.

Section Retry.
Context {value : Type}.
Variable func : Z → result value.
Variable uniform01 : nat → Q.
Variable max_attempts : Z.
Variable exponential_backoff : bool.






End Retry.
End FloodwaitFacts.

(** * Properties of [LoadBalancer] *)

Module LoadBalancerFacts.
Import LoadBalancer.
Local Open Scope Z_scope.
Local Open Scope M_scope.

(** ** Invariants of the world *)

(** [keeps I m]: running [m] from a world in [I] ends in a world in [I],
    whether [m] returns or raises. *)
Definition keeps {A} (I : World → Prop) (m : M A) : Prop :=
  ∀ w, I w → I (m w).2.

(** An invariant of the object alone. *)
Definition on_lb (J : LoadBalancer → Prop) : World → Prop := λ w, J (lb w).

Lemma keeps_ret {A} I (a : A) : keeps I (ret a).
Proof. intros w Hw. exact Hw. Qed.

Lemma keeps_skip I : keeps I skip.
Proof. intros w Hw. exact Hw. Qed.

Lemma keeps_raise {A} I e : keeps I (raise e : M A).
Proof. intros w Hw. exact Hw. Qed.

Lemma keeps_gets {A} I (f : LoadBalancer → A) : keeps I (gets f).
Proof. intros w Hw. exact Hw. Qed.

Lemma keeps_bind {A B} I (m : M A) (f : A → M B) :
  keeps I m → (∀ a, keeps I (f a)) → keeps I (bind m f).
Proof.
  intros Hm Hf w Hw. unfold bind. specialize (Hm w Hw).
  destruct (m w) as [[a|e] w1]; cbn in *; [apply Hf|]; assumption.
Qed.

Lemma keeps_try {A} I (m : M A) : keeps I m → keeps I (try m).
Proof. intros Hm w Hw. exact (Hm w Hw). Qed.

Lemma keeps_truediv I a b : keeps I (truediv a b).
Proof. unfold truediv. destruct (Qeq_bool b 0); intros w Hw; exact Hw. Qed.

Lemma keeps_modify J f :
  (∀ self, J self → J (f self)) → keeps (on_lb J) (modify f).
Proof. intros Hf w Hw. exact (Hf _ Hw). Qed.

Lemma keeps_time J clock : keeps (on_lb J) (time_time clock).
Proof. intros w Hw. exact Hw. Qed.

Lemma keeps_uniform J rand a b : keeps (on_lb J) (uniform rand a b).
Proof. intros w Hw. exact Hw. Qed.

Lemma keeps_sleep J d : keeps (on_lb J) (sleep d).
Proof. intros w Hw. exact Hw. Qed.

Lemma keeps_check_all I : keeps I check_all_sessions_health.
Proof. apply keeps_raise. Qed.

Lemma keeps_check I phone : keeps I (check_session_health phone).
Proof. apply keeps_raise. Qed.

Lemma keeps_has_metrics I phone : keeps I (has_metrics phone).
Proof. apply keeps_gets. Qed.

(** One step through the structure of a method body. *)
Ltac keeps_step :=
  idtac; lazymatch goal with
  | |- keeps _ (bind _ _) => apply keeps_bind; [|intro]
  | |- keeps _ (ret _) => apply keeps_ret
  | |- keeps _ skip => apply keeps_skip
  | |- keeps _ (raise _) => apply keeps_raise
  | |- keeps _ (gets _) => apply keeps_gets
  | |- keeps _ (has_metrics _) => apply keeps_has_metrics
  | |- keeps _ (truediv _ _) => apply keeps_truediv
  | |- keeps _ (try _) => apply keeps_try
  | |- keeps _ check_all_sessions_health => apply keeps_check_all
  | |- keeps _ (check_session_health _) => apply keeps_check
  | |- keeps _ (time_time _) => apply keeps_time
  | |- keeps _ (uniform _ _ _) => apply keeps_uniform
  | |- keeps _ (sleep _) => apply keeps_sleep
  | |- keeps _ (if ?b then _ else _) => destruct b
  | |- keeps _ (match ?x with _ => _ end) => destruct x
  | |- keeps _ (let _ := _ in _) => cbv zeta
  end.


Ltac unfold_methods :=
  unfold register_client, calculate_adaptive_cooldown, escalate, flood_wait_adjust,
    pattern_adjust, cool_down_session, is_in_cooldown, update_session_priorities,
    get_best_client, apply_priority_throttling, record_operation, pattern_score_of,
    detect_session_overload, execute_with_priority, register_user_behavior,
    implement_session_rotation, force_session_rotation, operation_of, modify_metrics.

(** Walks a method body; [leaf] settles the assignments to the object and
    the calls of recursive helpers. *)
Ltac keeps_auto leaf :=
  repeat first [ leaf | keeps_step | progress unfold_methods ].

(** ** Helpers that keep any invariant of the object

    An invariant [J] of the object that survives the deletion of a cooldown
    entry survives every helper loop: they change nothing else. *)
Section Helpers.
Variable clock : nat → Q.
Variable rand : nat → Q.
Variable J : LoadBalancer → Prop.
Hypothesis J_delete : ∀ phone self,
  J self → J (set_session_cooldowns (delete phone (session_cooldowns self)) self).

Lemma keeps_filter_recent {A} (ts : A → Q) limit l :
  keeps (on_lb J) (filter_recent clock ts limit l).
Proof. induction l; cbn [filter_recent]; keeps_auto fail; assumption. Qed.

Lemma keeps_is_in_cooldown phone : keeps (on_lb J) (is_in_cooldown clock phone).
Proof.
  keeps_auto fail. apply keeps_modify. intros self. apply J_delete.
Qed.

Lemma keeps_collect_available b l : keeps (on_lb J) (collect_available clock b l).
Proof.
  induction l; cbn [collect_available];
    keeps_auto ltac:(first [assumption | apply keeps_is_in_cooldown]).
Qed.

Lemma keeps_last_resort l : keeps (on_lb J) (last_resort l).
Proof. induction l; cbn [last_resort]; keeps_auto assumption. Qed.

Lemma keeps_collect_alternatives cur l :
  keeps (on_lb J) (collect_alternatives clock cur l).
Proof.
  induction l; cbn [collect_alternatives];
    keeps_auto ltac:(first [assumption | apply keeps_is_in_cooldown]).
Qed.

Lemma keeps_score_phones l : keeps (on_lb J) (score_phones clock rand l).
Proof.
  induction l; cbn [score_phones];
    keeps_auto ltac:(first [assumption | apply keeps_filter_recent]).
Qed.

Lemma keeps_degraded_types t l : keeps (on_lb J) (degraded_types t l).
Proof.
  induction l as [|[op times] l IH]; cbn [degraded_types]; keeps_auto assumption.
Qed.

End Helpers.

(** The helper loops, for the invariant [J] whose [J_delete] is proved by
    [del]. *)
Ltac keeps_helpers del :=
  first
    [ apply keeps_filter_recent | apply keeps_is_in_cooldown; del
    | apply keeps_collect_available; del | apply keeps_last_resort
    | apply keeps_collect_alternatives; del | apply keeps_score_phones
    | apply keeps_degraded_types ].

(** A call keeps [I] when the method it runs does. *)
Ltac keeps_call :=
  lazymatch goal with
  | |- ?I (after _ _ ?c ?w) =>
    destruct c; cbn [after];
    lazymatch goal with
    | H : I w |- I (?m w).2 => revert w H; change (keeps I m)
    end
  end.

(** ** Health scores are never written *)


















(** ** Priorities stay between 1 and 10 *)

Definition priority_of (self : LoadBalancer) (phone : string) : Z :=
  default default_priority (session_priorities self !! phone).

Definition priorities_in_range (self : LoadBalancer) : Prop :=
  map_Forall (λ _ p, 1 ≤ p ≤ 10) (session_priorities self).

Lemma in_range_same self self' :
  session_priorities self' = session_priorities self →
  priorities_in_range self → priorities_in_range self'.
Proof. unfold priorities_in_range. intros ->. auto. Qed.

Lemma in_range_insert phone p self :
  1 ≤ p ≤ 10 → priorities_in_range self →
  priorities_in_range (set_session_priorities (<[phone := p]> (session_priorities self)) self).
Proof. intros Hp H. apply map_Forall_insert_2; assumption. Qed.

Ltac in_range_tac H :=
  repeat case_match;
  repeat first
    [ exact H
    | apply in_range_insert;
      [unfold max_priority, min_priority, default_priority; lia|]
    | eapply in_range_same; [reflexivity|] ].

Lemma in_range_update_priority t items : ∀ self,
  priorities_in_range self → priorities_in_range (foldl (update_priority t) self items).
Proof.
  induction items as [|item items IH]; intros self H; [exact H|].
  cbn [foldl]. apply IH. unfold update_priority. cbv zeta. in_range_tac H.
Qed.

Ltac in_range_leaf :=
  idtac; lazymatch goal with
  | |- keeps (on_lb priorities_in_range) (modify _) =>
    apply keeps_modify; let self := fresh "self" in let H := fresh "H" in
    intros self H;
    first [ apply in_range_update_priority; exact H | in_range_tac H ]
  | |- _ => keeps_helpers ltac:(intros ? ?; apply in_range_same; reflexivity)
  end.

Lemma in_range_after clock rand c w :
  on_lb priorities_in_range w → on_lb priorities_in_range (after clock rand c w).
Proof. intros H. keeps_call; keeps_auto in_range_leaf. Qed.

Lemma in_range_run clock rand calls : priorities_in_range (lb (run clock rand calls)).
Proof.
  unfold run. induction calls as [|c calls IH] using rev_ind.
  - apply map_Forall_empty.
  - rewrite foldl_app. cbn [foldl]. apply in_range_after. exact IH.
Qed.





(** ** One cycle of [update_session_priorities] *)

(** Fewer than 10 recorded operations: the test that makes the loop skip a
    session. *)
Definition few_operations (m : Metrics) : Prop :=
  match operations m with
  | Some ops => ops < 10
  | None => True
  end.

Lemma update_priority_other t self item phone :
  phone ≠ item.1 →
  session_priorities (update_priority t self item) !! phone
  = session_priorities self !! phone.
Proof.
  intros Hne. unfold update_priority. cbv zeta.
  repeat case_match; cbn; rewrite ?lookup_insert_ne by congruence; reflexivity.
Qed.

Lemma update_priority_bounds t self phone m :
  1 ≤ priority_of self phone ≤ 10 →
  let p := priority_of self phone in
  let p' := priority_of (update_priority t self (phone, m)) phone in
  Z.abs (p' - p) ≤ 2 ∧ 1 ≤ p' ≤ 10 ∧ (few_operations m → p' = p).
Proof.
  unfold priority_of, few_operations, update_priority. cbv zeta. cbn [fst snd].
  intros Hp.
  destruct (session_priorities self !! phone) as [p|] eqn:Ep; simpl in Hp.
  - destruct (operations m) as [ops|]; [|rewrite Ep; cbn; lia].
    destruct (Z.ltb_spec ops 10); [rewrite Ep; cbn; lia|].
    match goal with
    | |- context [Z.max (Z.min ?a 2) (-2)] => generalize a; intros adj
    end.
    case_bool_decide as Hnew; cbn; rewrite ?lookup_insert_eq, ?Ep; cbn;
      unfold max_priority, min_priority in *; lia.
  - destruct (operations m) as [ops|];
      [|cbn; rewrite lookup_insert_eq; cbn; unfold default_priority in *; lia].
    destruct (Z.ltb_spec ops 10);
      [cbn; rewrite lookup_insert_eq; cbn; unfold default_priority in *; lia|].
    cbn [session_priorities set_session_priorities flood_wait_times].
    rewrite lookup_insert_eq. cbn [default].
    match goal with
    | |- context [Z.max (Z.min ?a 2) (-2)] => generalize a; intros adj
    end.
    case_bool_decide as Hnew; cbn; rewrite ?lookup_insert_eq; cbn;
      unfold max_priority, min_priority, default_priority in *; lia.
Qed.

Lemma update_priorities_fold t phone items : ∀ self,
  NoDup items.*1 →
  1 ≤ priority_of self phone ≤ 10 →
  let p := priority_of self phone in
  let p' := priority_of (foldl (update_priority t) self items) phone in
  Z.abs (p' - p) ≤ 2 ∧ 1 ≤ p' ≤ 10 ∧
  ((∀ m, (phone, m) ∈ items → few_operations m) → p' = p).
Proof.
  induction items as [|[phone' m'] items IH]; intros self Hnd Hp; cbn [foldl].
  - cbn. lia.
  - apply NoDup_cons in Hnd as [Hnotin Hnd]. cbn in Hnotin.
    destruct (decide (phone = phone')) as [->|Hne].
    + assert (∀ self0, priority_of (foldl (update_priority t) self0 items) phone'
                       = priority_of self0 phone') as Hrest.
      { clear -Hnotin. induction items as [|[q mq] items IH]; intros self0; [reflexivity|].
        cbn [foldl]. rewrite IH by (intros Hin; apply Hnotin; cbn; right; exact Hin).
        unfold priority_of. rewrite update_priority_other; [reflexivity|].
        cbn. intros ->. apply Hnotin. cbn. left. }
      cbv zeta. rewrite Hrest.
      destruct (update_priority_bounds t self phone' m' Hp) as (H1 & H2 & H3).
      split; [exact H1|]. split; [exact H2|]. intros Hfew. apply H3, Hfew. left.
    + assert (priority_of (update_priority t self (phone', m')) phone
              = priority_of self phone) as Hstep.
      { unfold priority_of. rewrite update_priority_other; [reflexivity|exact Hne]. }
      specialize (IH (update_priority t self (phone', m')) Hnd).
      rewrite Hstep in IH. destruct (IH Hp) as (H1 & H2 & H3).
      split; [exact H1|]. split; [exact H2|]. intros Hfew. apply H3.
      intros m Hin. apply Hfew. right. exact Hin.
Qed.

(** C8. One cycle of [update_session_priorities] returns; it moves the
    priority of a session (read with the default 5 when unset) that was
    within [1, 10] by at most 2 and leaves it within [1, 10]; the priority
    of a session with fewer than 10 operations, or no [operations] key, or
    no metrics at all, is the one it had. *)
Theorem update_session_priorities_bounds clock w phone :
  1 ≤ priority_of (lb w) phone ≤ 10 →
  (update_session_priorities clock w).1 = Ok tt ∧
  let p := priority_of (lb w) phone in
  let p' := priority_of (lb (update_session_priorities clock w).2) phone in
  Z.abs (p' - p) ≤ 2 ∧ 1 ≤ p' ≤ 10 ∧
  (∀ m, session_metrics (lb w) !! phone = Some m → few_operations m → p' = p) ∧
  (session_metrics (lb w) !! phone = None → p' = p).
Proof.
  intros Hp. split; [reflexivity|].
  unfold update_session_priorities, bind, time_time, modify. cbn [fst snd lb].
  destruct (update_priorities_fold (clock (ticks w)) phone
              (map_to_list (session_metrics (lb w))) (lb w)
              (NoDup_fst_map_to_list _) Hp) as (H1 & H2 & H3).
  cbv zeta in *. split; [exact H1|]. split; [exact H2|]. split.
  - intros m Hm Hfew. apply H3. intros m0 Hin.
    apply elem_of_map_to_list in Hin. congruence.
  - intros Hnone. apply H3. intros m0 Hin.
    apply elem_of_map_to_list in Hin. congruence.
Qed.


(** ** A session with no recorded operation *)

(** The metrics of a session for which nothing was recorded: as
    [register_client] creates them, whatever the keys other methods add. *)
Definition quiet (m : Metrics) : Prop :=
  operation_timestamps m = None ∧ error_timestamps m = Some [] ∧
  consecutive_errors m = Some 0 ∧ response_times m = Some ∅ ∧
  overload_history m = Some [].

Definition no_operations (phone : string) (self : LoadBalancer) : Prop :=
  flood_wait_times self !! phone = None ∧
  ∀ m, session_metrics self !! phone = Some m → quiet m.

(** The calls that record an operation for [phone], or may. *)
Definition records_into (phone : string) (c : call) : bool :=
  match c with
  | RecordOperation p _ _ _ _ => bool_decide (p = phone)
  | ExecuteWithPriority _ _ _ _ => true
  | _ => false
  end.

Definition quiet_kept (g : Metrics → Metrics) : Prop := ∀ m, quiet m → quiet (g m).

Ltac quiet_kept_tac :=
  idtac; lazymatch goal with
  | |- quiet_kept _ =>
    let m := fresh "m" in
    intros m (? & ? & ? & ? & ?); unfold track_consistency;
    repeat case_match; repeat split; first [assumption | reflexivity]
  end.

Lemma no_operations_same phone self self' :
  session_metrics self' = session_metrics self →
  flood_wait_times self' = flood_wait_times self →
  no_operations phone self → no_operations phone self'.
Proof. unfold no_operations. intros -> ->. auto. Qed.

Lemma no_operations_alter phone g phone' self :
  quiet_kept g ∨ phone' ≠ phone → no_operations phone self →
  no_operations phone (set_session_metrics (alter g phone' (session_metrics self)) self).
Proof.
  intros Hg [Hf H]. split; [exact Hf|]. intros m'. cbn. rewrite lookup_alter.
  case_decide as E; [|apply H]. subst phone'.
  destruct Hg as [Hg|Hg]; [|congruence].
  destruct (session_metrics self !! phone) as [m|]; [|discriminate].
  intros [= <-]. apply Hg, H. reflexivity.
Qed.

Lemma no_operations_insert phone phone' m' self :
  quiet m' ∨ phone' ≠ phone → no_operations phone self →
  no_operations phone (set_session_metrics (<[phone' := m']> (session_metrics self)) self).
Proof.
  intros Hm [Hf H]. split; [exact Hf|]. intros m. cbn. rewrite lookup_insert.
  case_decide as E; [|apply H]. subst phone'.
  destruct Hm as [Hm|Hm]; [|congruence]. intros [= <-]. exact Hm.
Qed.

Lemma no_operations_flood phone phone' l self :
  phone' ≠ phone → no_operations phone self →
  no_operations phone (set_flood_wait_times (<[phone' := l]> (flood_wait_times self)) self).
Proof.
  intros Hne [Hf H]. split; [|exact H]. cbn. rewrite lookup_insert_ne; assumption.
Qed.

Lemma no_operations_update_priority phone t items : ∀ self,
  no_operations phone self → no_operations phone (foldl (update_priority t) self items).
Proof.
  induction items as [|item items IH]; intros self H; [exact H|].
  cbn [foldl]. apply IH. unfold update_priority.
  repeat case_match;
    try (apply no_operations_alter; [left; quiet_kept_tac|]);
    repeat first [assumption | eapply no_operations_same; [reflexivity|reflexivity|]].
Qed.

Ltac no_operations_leaf :=
  idtac; lazymatch goal with
  | |- keeps (on_lb (no_operations _)) (modify _) =>
    apply keeps_modify; let self := fresh "self" in let H := fresh "H" in
    intros self H;
    first [ apply no_operations_alter; [first [left; quiet_kept_tac | right; assumption]|exact H]
          | apply no_operations_update_priority; exact H
          | repeat case_match;
            first [ exact H
                  | apply no_operations_insert;
                    [first [left; repeat split; reflexivity | right; assumption]|exact H]
                  | apply no_operations_flood; [assumption|exact H]
                  | eapply no_operations_same; [reflexivity|reflexivity|exact H] ] ]
  | |- _ =>
    keeps_helpers ltac:(intros ? ?; apply no_operations_same; reflexivity)
  end.

(** Running a computation step by step. *)
Lemma bind_run {A B} (m : M A) (f : A → M B) w a w' :
  m w = (Ok a, w') → bind m f w = f a w'.
Proof. intros E. unfold bind. rewrite E. reflexivity. Qed.

Lemma bind_stop {A B} (m : M A) (f : A → M B) w e w' :
  m w = (Raise e, w') → bind m f w = (Raise e, w').
Proof. intros E. unfold bind. rewrite E. reflexivity. Qed.

Lemma truediv_run a b w : Qeq_bool b 0 = false → truediv a b w = (Ok (a / b)%Q, w).
Proof. intros E. unfold truediv. rewrite E. reflexivity. Qed.

Ltac run_step :=
  erewrite bind_run by first [reflexivity | apply truediv_run; reflexivity];
  cbv beta zeta.

(** On a session with no recorded operation the detection returns [False],
    and the session stays one. *)
Lemma detect_quiet clock phone w :
  no_operations phone (lb w) →
  (detect_session_overload clock phone w).1 = Ok false ∧
  no_operations phone (lb (detect_session_overload clock phone w).2).
Proof.
  intros [Hf H]. unfold detect_session_overload.
  run_step.
  destruct (session_metrics (lb w) !! phone) as [m|] eqn:Em.
  2:{ split; [reflexivity|]. split; [exact Hf|]. intros m. cbn. rewrite Em. discriminate. }
  destruct (H m eq_refl) as (Hops & Herr & Hcons & Hresp & Hhist).
  run_step. rewrite Hops, Herr, Hcons, Hresp. cbn [default from_option id].
  change (count_recent _ _ []) with 0.
  run_step. unfold flood_wait_frequency. run_step. cbn [lb]. rewrite Hf. cbn [default from_option id List.filter].
  rewrite map_to_list_empty. cbn [degraded_types]. run_step.
  unfold pattern_score_of. rewrite Hhist. cbn [len length Z.of_nat Z.leb Z.compare].
  run_step.
  match goal with
  | |- context [Qgeb ?s overload_combined_warning_threshold] =>
    change (Qgeb s overload_combined_warning_threshold) with false;
    generalize s; intros score
  end.
  unfold modify_metrics. do 5 run_step. unfold ret. cbn [fst snd lb].
  split; [reflexivity|].
  repeat (apply no_operations_alter; [left; quiet_kept_tac|]).
  split; [exact Hf|]. rewrite Em. exact H.
Qed.

Lemma no_operations_after clock rand phone c w :
  records_into phone c = false →
  on_lb (no_operations phone) w → on_lb (no_operations phone) (after clock rand c w).
Proof.
  intros Hc H. destruct c; cbn [after]; cbn in Hc; try discriminate.
  all: try apply bool_decide_eq_false in Hc.
  all: lazymatch goal with
       | |- on_lb _ (detect_session_overload _ ?p _).2 =>
         destruct (decide (p = phone)) as [->|Hne]; [apply detect_quiet, H|]
       | |- _ => idtac
       end.
  all: revert w H;
    lazymatch goal with
    | |- ∀ w, _ → on_lb ?I (?m w).2 => change (keeps (on_lb I) m)
    end;
    keeps_auto no_operations_leaf.
Qed.

Lemma no_operations_run clock rand phone calls :
  forallb (λ c, negb (records_into phone c)) calls = true →
  no_operations phone (lb (run clock rand calls)).
Proof.
  unfold run. induction calls as [|c calls IH] using rev_ind; intros Hcalls.
  - split; [apply lookup_empty|]. intros m. cbn. rewrite lookup_empty. discriminate.
  - rewrite forallb_app in Hcalls. apply andb_prop in Hcalls as [Hcalls Hc].
    cbn in Hc. rewrite andb_true_r in Hc. apply negb_true_iff in Hc.
    rewrite foldl_app. cbn [foldl]. apply no_operations_after; [exact Hc|].
    apply IH, Hcalls.
Qed.

(** C9. On an object reached by any calls of which none records an
    operation for [phone], [detect_session_overload phone] returns [False]:
    the divisor of the error rate is at least 1, nothing raises, and the
    combined score is below the threshold. *)
Theorem detect_overload_without_operations clock rand phone calls :
  forallb (λ c, negb (records_into phone c)) calls = true →
  (detect_session_overload clock phone (run clock rand calls)).1 = Ok false.
Proof.
  intros Hcalls. apply detect_quiet, no_operations_run, Hcalls.
Qed.


(** ** Running a method step by step *)

Lemma bind_assoc {A B C} (m : M A) (g : A → M B) (f : B → M C) w :
  bind (bind m g) f w = bind m (λ a, bind (g a) f) w.
Proof. unfold bind. destruct (m w) as [[a|e] w1]; reflexivity. Qed.

(** Keeps the object in the form of a record of its fields. *)
Ltac norm_world :=
  cbn [lb ticks draws sleeps
       active_clients session_metrics last_health_check sessions flood_wait_times
       session_cooldowns session_cooldown_history session_priorities behavior_patterns
       last_priority_update
       set_active_clients set_session_metrics set_last_health_check set_sessions
       set_flood_wait_times set_session_cooldowns set_session_cooldown_history
       set_session_priorities set_behavior_patterns set_last_priority_update].

(** How each primitive statement runs. *)
Section Run.
Context {A B : Type}.
Variable f : A → M B.
Variable k : unit → M B.
Variable w : World.

Lemma run_ret a : bind (ret a) f w = f a w.
Proof. reflexivity. Qed.

Lemma run_skip : bind skip k w = k tt w.
Proof. reflexivity. Qed.

Lemma run_raise e : bind (raise e) f w = (Raise e, w).
Proof. reflexivity. Qed.

Lemma run_gets g : bind (gets g) f w = f (g (lb w)) w.
Proof. reflexivity. Qed.

Lemma run_modify g :
  bind (modify g) k w = k tt (mkWorld (g (lb w)) (ticks w) (draws w) (sleeps w)).
Proof. reflexivity. Qed.

Lemma run_modify_metrics p g :
  bind (modify_metrics p g) k w
  = k tt (mkWorld (set_session_metrics (alter g p (session_metrics (lb w))) (lb w))
                  (ticks w) (draws w) (sleeps w)).
Proof. reflexivity. Qed.

Lemma run_sleep d :
  bind (sleep d) k w = k tt (mkWorld (lb w) (ticks w) (draws w) (sleeps w ++ [d])).
Proof. reflexivity. Qed.

Lemma run_check_session_health p :
  bind (check_session_health p) k w
  = (Raise (AttributeError "'LoadBalancer' object has no attribute 'check_session_health'"),
     w).
Proof. reflexivity. Qed.

Lemma run_check_all_sessions_health :
  bind check_all_sessions_health k w
  = (Raise (AttributeError
              "'LoadBalancer' object has no attribute 'check_all_sessions_health'"), w).
Proof. reflexivity. Qed.

End Run.

Lemma run_has_metrics {B} (f : bool → M B) w p :
  bind (has_metrics p) f w = f (bool_decide (is_Some (session_metrics (lb w) !! p))) w.
Proof. reflexivity. Qed.

Lemma run_time {B} (f : Q → M B) w clock :
  bind (time_time clock) f w
  = f (clock (ticks w)) (mkWorld (lb w) (S (ticks w)) (draws w) (sleeps w)).
Proof. reflexivity. Qed.

Lemma run_uniform {B} (f : Q → M B) w rand a b :
  bind (uniform rand a b) f w
  = f (a + (b - a) * rand (draws w))%Q (mkWorld (lb w) (ticks w) (S (draws w)) (sleeps w)).
Proof. reflexivity. Qed.

Lemma run_truediv {B} (f : Q → M B) w a b :
  Qeq_bool b 0 = false → bind (truediv a b) f w = f (a / b)%Q w.
Proof. intros E. unfold bind, truediv. rewrite E. reflexivity. Qed.

Lemma end_check_session_health p w :
  check_session_health p w
  = (Raise (AttributeError "'LoadBalancer' object has no attribute 'check_session_health'"),
     w).
Proof. reflexivity. Qed.

Lemma end_ret {A} (a : A) w : ret a w = (Ok a, w).
Proof. reflexivity. Qed.

Lemma end_raise {A} e w : raise e w = (@Raise A e, w).
Proof. reflexivity. Qed.

Lemma end_skip w : skip w = (Ok tt, w).
Proof. reflexivity. Qed.

Lemma end_modify g w :
  modify g w = (Ok tt, mkWorld (g (lb w)) (ticks w) (draws w) (sleeps w)).
Proof. reflexivity. Qed.

Lemma end_modify_metrics p g w :
  modify_metrics p g w
  = (Ok tt, mkWorld (set_session_metrics (alter g p (session_metrics (lb w))) (lb w))
                    (ticks w) (draws w) (sleeps w)).
Proof. reflexivity. Qed.

(** Runs the first statement of the computation applied to a world, when it
    is a primitive one. *)
Ltac exec_step :=
  first
    [ rewrite bind_assoc | rewrite run_ret | rewrite run_skip | rewrite run_raise
    | rewrite run_gets | rewrite run_has_metrics | rewrite run_modify
    | rewrite run_modify_metrics | rewrite run_time | rewrite run_uniform
    | rewrite run_sleep | rewrite run_check_session_health
    | rewrite run_check_all_sessions_health
    | rewrite end_check_session_health | rewrite end_ret | rewrite end_raise
    | rewrite end_skip | rewrite end_modify | rewrite end_modify_metrics ];
  cbv beta iota; norm_world.

(** ** What [record_operation] leaves behind *)

(** The slip in the flood-wait bookkeeping that makes [record_operation]
    stop early: the list of [phone] is created only when the literal key
    ["flood_waits"] is absent, so with that key present a session without a
    list meets a [KeyError]. *)
Definition flood_key_slip (self : LoadBalancer) (phone : string) (floodwait_seconds : Z)
  : Prop :=
  0 < floodwait_seconds ∧ is_Some (flood_wait_times self !! "flood_waits"%string) ∧
  flood_wait_times self !! phone = None.


















Lemma alter_chain_lookup {g : Metrics → Metrics} {phone : string}
    {ms : gmap string Metrics} {m : Metrics} :
  ms !! phone = Some m → alter g phone ms !! phone = Some (g m).
Proof. intros H. rewrite lookup_alter_eq, H. reflexivity. Qed.


(** The flood-wait bookkeeping: the event is appended to the list of [phone],
    which is emptied first whenever the literal key ["flood_waits"] is
    absent, and the list is then pruned by the cutoff. *)
Lemma record_operation_flood_wait clock phone success error fw ot w :
  ¬ flood_key_slip (lb w) phone fw → 0 < fw →
  let failed := negb success && bool_decide (is_Some error) in
  let n := ((if failed then 2 else 1) + ticks w)%nat in
  let before :=
    match flood_wait_times (lb w) !! "flood_waits"%string with
    | Some _ => default [] (flood_wait_times (lb w) !! phone)
    | None => []
    end in
  flood_wait_times (lb (record_operation clock phone success error fw ot w).2) !! phone
  = Some (List.filter
            (λ p : Q * Z, Qle_bool (clock (S n) - overload_flood_wait_time_window) p.1)
            (before ++ [(clock n, fw)])).
Proof.
  intros Hslip Hfw. cbv zeta.
  unfold record_operation. exec_step.
  destruct (session_metrics (lb w) !! phone) as [m0|] eqn:Em0; cbv iota; norm_world;
    repeat exec_step.
  all: destruct (negb success && bool_decide (is_Some error)); cbv iota; repeat exec_step.
  all: destruct (Z.ltb_spec 0 fw) as [_|Hle]; [|lia]; cbv iota; repeat exec_step.
  all: destruct (flood_wait_times (lb w) !! "flood_waits"%string) as [l|] eqn:Ekey;
    cbv iota; norm_world; repeat exec_step.
  all: try (rewrite lookup_insert_eq; cbv iota; repeat exec_step;
            cbn [fst snd]; norm_world; rewrite !lookup_insert_eq; reflexivity).
  all: destruct (flood_wait_times (lb w) !! phone) as [l'|] eqn:Ephone;
    cbv iota; repeat exec_step.
  all: try (cbn [fst snd]; norm_world; rewrite !lookup_insert_eq, ?Ephone; reflexivity).
  all: exfalso; apply Hslip; repeat split;
    [exact Hfw|rewrite Ekey; eexists; reflexivity|exact Ephone].
Qed.


(** With the literal key ["flood_waits"] absent, the list of a session holds
    at most the flood wait just recorded. *)
Lemma record_operation_flood_window clock phone success error fw ot w :
  flood_wait_times (lb w) !! "flood_waits"%string = None → 0 < fw →
  ∃ waits,
    flood_wait_times (lb (record_operation clock phone success error fw ot w).2) !! phone
    = Some waits ∧ (length waits ≤ 1)%nat.
Proof.
  intros Hkey Hfw. eexists. split.
  - apply record_operation_flood_wait; [|exact Hfw].
    intros (_ & [l Hl] & _). congruence.
  - rewrite Hkey. cbn [app List.filter]. case_match; cbn; lia.
Qed.


(** ** [execute_with_priority] records what the operation did *)

Lemma run_try {A B} (m : M A) (f : result A → M B) w :
  bind (try m) f w = f (m w).1 (m w).2.
Proof. reflexivity. Qed.




(** ** The bounds of [calculate_adaptive_cooldown] *)

Lemma int_of_float_floor q : (0 <= q)%Q → int_of_float q = Qfloor q.
Proof.
  intros Hq. destruct q as [n d]. unfold int_of_float, Qfloor. cbn.
  apply Z.quot_div_nonneg; [|lia].
  unfold Qle in Hq. cbn in Hq. lia.
Qed.

Lemma int_of_clamped q :
  base_cooldown
  ≤ int_of_float (pymin (pymax q (inject_Z base_cooldown)) (inject_Z max_cooldown))
  ≤ max_cooldown.
Proof.
  unfold pymin, pymax.
  set (c := Qmin (Qmax q (inject_Z base_cooldown)) (inject_Z max_cooldown)).
  assert (inject_Z base_cooldown <= c)%Q as Hlo.
  { apply Q.min_glb; [apply Q.le_max_r|discriminate]. }
  assert (c <= inject_Z max_cooldown)%Q as Hhi by apply Q.le_min_r.
  rewrite int_of_float_floor.
  - split.
    + rewrite <- (Qfloor_Z base_cooldown). apply Qfloor_resp_le, Hlo.
    + rewrite <- (Qfloor_Z max_cooldown). apply Qfloor_resp_le, Hhi.
  - eapply Qle_trans; [|exact Hlo]. discriminate.
Qed.

Lemma bind_returns {A B} (m : M A) (f : A → M B) w b w' :
  bind m f w = (Ok b, w') → ∃ a w1, m w = (Ok a, w1) ∧ f a w1 = (Ok b, w').
Proof.
  unfold bind. destruct (m w) as [[a|e] w1]; [eauto|discriminate].
Qed.

(** Whenever [calculate_adaptive_cooldown] returns, its result is within
    [base_cooldown, max_cooldown]. *)
Lemma calculate_adaptive_cooldown_in_bounds clock rand phone error_type w d w' :
  calculate_adaptive_cooldown clock rand phone error_type w = (Ok d, w') →
  base_cooldown ≤ d ≤ max_cooldown.
Proof.
  unfold calculate_adaptive_cooldown. intros H.
  apply bind_returns in H as (known & w1 & _ & H).
  destruct known as [metrics|].
  2:{ injection H as <- _. unfold base_cooldown, max_cooldown. lia. }
  repeat (apply bind_returns in H as (? & ? & _ & H)).
  injection H as <- _. apply int_of_clamped.
Qed.

(** A clock that does not advance between the readings, a clock that
    advances by one second at each reading, a clock that reads ten seconds
    after the epoch, and a random source that always draws the middle. *)
Definition frozen_clock : nat → Q := λ _, 1000%Q.
Definition ticking_clock : nat → Q := λ n, inject_Z (1000 + Z.of_nat n).
Definition early_clock : nat → Q := λ _, 10%Q.
Definition middle : nat → Q := λ _, (1 # 2)%Q.

Definition boom : exn := Exception "boom".

(** Three failures make the session overloaded; three detections at the
    same clock reading then record three overloads with one timestamp. *)
Definition overloaded_thrice : list call :=
  [RegisterClient "A" 7%nat "general" true;
   RecordOperation "A" false (Some boom) 0 "general";
   RecordOperation "A" false (Some boom) 0 "general";
   RecordOperation "A" false (Some boom) 0 "general";
   DetectSessionOverload "A"; DetectSessionOverload "A"; DetectSessionOverload "A"].

(** C7: the failing input.  The average interval between the overloads is
    zero and the division by it raises. *)
Lemma calculate_adaptive_cooldown_zero_division :
  (oe_timestamp <$>
     default [] (overload_history
                   (default empty_metrics
                      (session_metrics (lb (run frozen_clock middle overloaded_thrice))
                       !! "A"%string))))
  = [1000%Q; 1000%Q; 1000%Q] ∧
  (calculate_adaptive_cooldown frozen_clock middle "A" "general"
     (run frozen_clock middle overloaded_thrice)).1
  = Raise (ZeroDivisionError "float division by zero").
Proof. split; vm_compute; reflexivity. Qed.

(** C4: the failing input.  Five flood waits are recorded for one session
    within a few seconds; the window holds one, the frequency signal is 1
    and the session is not detected as overloaded. *)
Definition five_flood_waits : list call :=
  [RegisterClient "A" 7%nat "general" true;
   RecordOperation "A" true None 30 "general";
   RecordOperation "A" true None 30 "general";
   RecordOperation "A" true None 30 "general";
   RecordOperation "A" true None 30 "general";
   RecordOperation "A" true None 30 "general"].

Lemma flood_waits_not_accumulated :
  let w := run ticking_clock middle five_flood_waits in
  length <$> flood_wait_times (lb w) !! "A"%string = Some 1%nat ∧
  flood_wait_frequency (lb w) "A" (ticking_clock (ticks w)) = 1 ∧
  (detect_session_overload ticking_clock "A" w).1 = Ok false.
Proof. cbv zeta. repeat split; vm_compute; reflexivity. Qed.




(** ** What a method returns *)

(** [triple P m R]: from a world in [P], if [m] returns [a] then [R a] holds
    of the world it leaves. *)
Definition triple {A} (P : World → Prop) (m : M A) (R : A → World → Prop) : Prop :=
  ∀ w, P w → match m w with
             | (Ok a, w') => R a w'
             | (Raise _, _) => True
             end.

Lemma triple_bind {A B} P (m : M A) (f : A → M B) R S :
  triple P m R → (∀ a, triple (R a) (f a) S) → triple P (bind m f) S.
Proof.
  intros Hm Hf w Hw. unfold bind. specialize (Hm w Hw).
  destruct (m w) as [[a|e] w1]; [|exact I]. apply Hf, Hm.
Qed.

Lemma triple_ret {A} (P : World → Prop) (a : A) (R : A → World → Prop) :
  (∀ w, P w → R a w) → triple P (ret a) R.
Proof. intros H w Hw. apply H, Hw. Qed.

Lemma triple_raise {A} P e (R : A → World → Prop) : triple P (raise e) R.
Proof. intros w Hw. exact I. Qed.

Lemma triple_gets {A} (P : World → Prop) (g : LoadBalancer → A) :
  triple P (gets g) (λ a w, P w ∧ a = g (lb w)).
Proof. intros w Hw. split; [exact Hw|reflexivity]. Qed.

Lemma triple_weaken {A} (P P' : World → Prop) (m : M A) (R R' : A → World → Prop) :
  triple P' m R' → (∀ w, P w → P' w) → (∀ a w, R' a w → R a w) → triple P m R.
Proof.
  intros Hm HP HR w Hw. specialize (Hm w (HP w Hw)).
  destruct (m w) as [[a|e] w1]; [apply HR, Hm|exact I].
Qed.

(** [l.sort(reverse=True)] and [l.sort()] reorder [l]. *)
Lemma insert_descending_elem x y l : y ∈ insert_descending x l ↔ y = x ∨ y ∈ l.
Proof.
  induction l as [|z l IH]; cbn.
  - rewrite list_elem_of_singleton, elem_of_nil. tauto.
  - destruct (tuple_ltb x z); rewrite !elem_of_cons, ?IH; tauto.
Qed.

Lemma sort_reverse_elem y l : y ∈ sort_reverse l ↔ y ∈ l.
Proof.
  induction l as [|x l IH]; [reflexivity|].
  cbn. rewrite insert_descending_elem, elem_of_cons, IH. tauto.
Qed.

(** ** A session in cooldown is not selected *)

Section Cooling.
Variable clock : nat → Q.
Variable A : string.
Variable t0 : Q.
Variable n0 : nat.
Hypothesis active : ∀ n, (n0 ≤ n)%nat → (clock n <= t0)%Q.

(** [A] has the cooldown expiry [t0], not reached by any reading of the
    clock from the [n0]-th on, and the status [STATUS_COOLING]. *)
Definition cooling (w : World) : Prop :=
  session_cooldowns (lb w) !! A = Some t0 ∧
  (∃ m, session_metrics (lb w) !! A = Some m ∧ status m = Some STATUS_COOLING) ∧
  (n0 ≤ ticks w)%nat.

Lemma cooling_is_in_cooldown phone :
  triple cooling (is_in_cooldown clock phone)
    (λ r w, cooling w ∧ (phone = A → r = true)).
Proof.
  intros w (Hc & Hm & Ht). unfold is_in_cooldown. rewrite run_gets.
  destruct (decide (phone = A)) as [->|Hne].
  - rewrite Hc, run_time.
    assert (Qgtb (clock (ticks w)) t0 = false) as ->.
    { apply Qltb_ge, active, Ht. }
    cbn. repeat split; auto; cbn; lia.
  - destruct (session_cooldowns (lb w) !! phone) as [until|] eqn:E.
    + rewrite run_time. destruct (Qgtb _ _); cbn.
      * repeat split; try assumption; cbn; try lia; try congruence.
        rewrite lookup_delete_ne; [exact Hc|congruence].
      * repeat split; try assumption; cbn; try lia; congruence.
    + cbn. repeat split; try assumption. congruence.
Qed.

Lemma cooling_collect_available b phones :
  triple cooling (collect_available clock b phones) (λ l w, cooling w ∧ A ∉ (l.*2)).
Proof.
  induction phones as [|phone phones IH]; cbn [collect_available].
  - apply triple_ret. intros w Hw. split; [exact Hw|]. cbn. apply not_elem_of_nil.
  - eapply triple_bind; [apply triple_gets|]. intros active_phone.
    eapply triple_bind with (R := λ e w, cooling w ∧ (e = true → phone ≠ A)).
    + destruct active_phone.
      * eapply triple_bind.
        { eapply triple_weaken; [apply cooling_is_in_cooldown| |intros ? ? H; exact H].
          intros w [Hw _]. exact Hw. }
        intros cool_now. apply triple_ret. intros w [Hw Hr]. split; [exact Hw|].
        intros Hn ->. rewrite Hr in Hn by reflexivity. discriminate.
      * apply triple_ret. intros w [Hw _]. split; [exact Hw|discriminate].
    + intros [|].
      * eapply triple_bind; [apply triple_gets|]. intros score.
        eapply triple_bind with (R := λ l w, cooling w ∧ (A ∉ (l.*2)) ∧ phone ≠ A).
        { intros w [[Hw Hne] _]. specialize (IH w Hw).
          destruct (collect_available clock b phones w) as [[l|e] w1]; [|exact I].
          destruct IH as [H1 H2]. auto. }
        intros others. apply triple_ret. intros w (Hw & Hnot & Hne).
        split; [exact Hw|]. cbn. rewrite not_elem_of_cons. auto.
      * eapply triple_weaken; [apply IH| |intros ? ? H; exact H].
        intros w [Hw _]. exact Hw.
Qed.

Lemma cooling_last_resort phones :
  triple cooling (last_resort phones) (λ r w, cooling w ∧ ∀ c, r ≠ Some (A, c)).
Proof.
  induction phones as [|phone phones IH]; cbn [last_resort].
  - apply triple_ret. intros w Hw. split; [exact Hw|discriminate].
  - intros w Hw. rewrite !run_gets.
    destruct (active_clients (lb w) !! phone) as [c|];
      [|apply IH, Hw].
    destruct (session_metrics (lb w) !! phone) as [m|] eqn:Em; [|apply IH, Hw].
    destruct (status m) as [st|] eqn:Est; [|exact I].
    case_bool_decide as Hst; [|apply IH, Hw].
    cbn. split; [exact Hw|]. intros c' [= -> _].
    destruct Hw as (_ & (m' & Hm' & Hs') & _). congruence.
Qed.


Lemma track_consistency_status good m : status (track_consistency good m) = status m.
Proof. unfold track_consistency. repeat case_match; reflexivity. Qed.

(** An iteration of the priority update touches, of the metrics, the
    good-behaviour keys of its session only, and no cooldown. *)
Lemma update_priority_frame t self item :
  session_cooldowns (update_priority t self item) = session_cooldowns self ∧
  (session_metrics (update_priority t self item) = session_metrics self ∨
   ∃ good, session_metrics (update_priority t self item)
           = alter (track_consistency good) item.1 (session_metrics self)).
Proof.
  unfold update_priority. cbv zeta.
  set (self1 := match session_priorities self !! item.1 with
                | Some _ => self
                | None => _
                end).
  assert (session_cooldowns self1 = session_cooldowns self ∧
          session_metrics self1 = session_metrics self) as [Hc Hm].
  { subst self1. destruct (session_priorities self !! item.1); split; reflexivity. }
  destruct (operations item.2) as [ops|]; [|auto].
  destruct (ops <? 10); [auto|].
  case_bool_decide; norm_world; rewrite Hm; (split; [exact Hc|right; eauto]).
Qed.

Lemma cooling_update_priorities t items self m :
  session_metrics self !! A = Some m → status m = Some STATUS_COOLING →
  session_cooldowns (foldl (update_priority t) self items) = session_cooldowns self ∧
  ∃ m', session_metrics (foldl (update_priority t) self items) !! A = Some m' ∧
        status m' = Some STATUS_COOLING.
Proof.
  revert self m. induction items as [|item items IH]; intros self m Hm Hs; [eauto|].
  cbn [foldl].
  destruct (update_priority_frame t self item) as [Hc Hframe].
  assert (∃ m', session_metrics (update_priority t self item) !! A = Some m' ∧
                status m' = Some STATUS_COOLING) as (m' & Hm' & Hs').
  { destruct Hframe as [->|[good ->]]; [eauto|].
    rewrite lookup_alter. case_decide as E; [|eauto].
    rewrite E, Hm. eexists. split; [reflexivity|].
    rewrite track_consistency_status. exact Hs. }
  destruct (IH _ _ Hm' Hs') as (Hc2 & Hm2). split; [congruence|exact Hm2].
Qed.

Lemma cooling_update_session_priorities :
  triple cooling (update_session_priorities clock) (λ _ w, cooling w).
Proof.
  intros w (Hc & (m & Hm & Hs) & Ht). unfold update_session_priorities.
  rewrite run_time, end_modify. norm_world.
  destruct (cooling_update_priorities (clock (ticks w))
              (map_to_list (session_metrics (lb w))) (lb w) m Hm Hs) as (Hc' & Hm').
  repeat split; cbn; [congruence|exact Hm'|lia].
Qed.

Lemma cooling_get_best_client purpose :
  triple cooling (get_best_client clock purpose) (λ r w, ∀ c, r ≠ Some (A, c)).
Proof.
  unfold get_best_client.
  eapply triple_bind with (R := λ _ w, cooling w).
  { intros w (Hc & Hm & Ht). repeat split; cbn; auto. }
  intros current_time.
  eapply triple_bind; [apply triple_gets|]. intros last_check.
  eapply triple_bind with (R := λ _ w, cooling w).
  { destruct (Qgtb _ _).
    - intros w Hw. exact I.
    - intros w [Hw _]. exact Hw. }
  intros [].
  eapply triple_bind; [apply triple_gets|]. intros last_update.
  eapply triple_bind with (R := λ _ w, cooling w).
  { destruct (Qgtb _ _).
    - eapply triple_bind.
      + eapply triple_weaken; [apply cooling_update_session_priorities| |intros ? ? H; exact H].
        intros w [Hw _]. exact Hw.
      + intros [] w Hw. exact Hw.
    - intros w [Hw _]. exact Hw. }
  intros [].
  eapply triple_bind; [apply triple_gets|]. intros [pool|].
  2:{ apply triple_ret. discriminate. }
  eapply triple_bind.
  { eapply triple_weaken; [apply cooling_collect_available| |intros ? ? H; exact H].
    intros w [Hw _]. exact Hw. }
  intros available.
  eapply triple_bind with (R := λ l w, cooling w ∧ A ∉ (l.*2)).
  { destruct available as [|x available'].
    - eapply triple_weaken; [apply cooling_collect_available| |intros ? ? H; exact H].
      intros w [Hw _]. exact Hw.
    - apply triple_ret. auto. }
  intros available2.
  destruct (sort_reverse available2) as [|[best_score best_phone] rest] eqn:Esort.
  - eapply triple_bind.
    { eapply triple_weaken; [apply cooling_last_resort| |intros ? ? H; exact H].
      intros w [Hw _]. exact Hw. }
    intros [found|].
    + apply triple_ret. intros w [_ H]. exact H.
    + eapply triple_weaken; [apply cooling_last_resort| |].
      * intros w [Hw _]. exact Hw.
      * intros r w [_ H]. exact H.
  - eapply triple_bind; [apply triple_gets|]. intros client.
    apply triple_ret. intros w [[_ Hnot] _] c [= -> _].
    apply Hnot. apply list_elem_of_fmap. exists (best_score, A). split; [reflexivity|].
    apply sort_reverse_elem. rewrite Esort. left.
Qed.

End Cooling.

(** ** Forced rotation *)

Definition has_status (phone : string) (st : Status) (self : LoadBalancer) : Prop :=
  ∃ m, session_metrics self !! phone = Some m ∧ status m = Some st.

Lemma has_status_same phone st self self' :
  session_metrics self' = session_metrics self →
  has_status phone st self → has_status phone st self'.
Proof. unfold has_status. intros ->. auto. Qed.

Lemma has_status_alter phone st g phone' self :
  (∀ m, status (g m) = status m) → has_status phone st self →
  has_status phone st (set_session_metrics (alter g phone' (session_metrics self)) self).
Proof.
  intros Hg (m & Hm & Hs). unfold has_status. cbn. rewrite lookup_alter.
  case_decide as E; [|eauto]. subst phone'. rewrite Hm. exists (g m). rewrite Hg. auto.
Qed.

Lemma has_status_update_priority phone st t items : ∀ self,
  has_status phone st self → has_status phone st (foldl (update_priority t) self items).
Proof.
  induction items as [|item items IH]; intros self H; [exact H|].
  cbn [foldl]. apply IH.
  destruct (update_priority_frame t self item) as [_ [E|[good E]]].
  - eapply has_status_same; [exact E|exact H].
  - destruct H as (m & Hm & Hs). unfold has_status. rewrite E, lookup_alter.
    case_decide as Ek; [|eauto]. rewrite Ek, Hm. eexists. split; [reflexivity|].
    rewrite track_consistency_status. exact Hs.
Qed.

Ltac has_status_leaf :=
  idtac; lazymatch goal with
  | |- keeps (on_lb (has_status _ _)) (modify _) =>
    apply keeps_modify; let self := fresh "self" in let H := fresh "H" in
    intros self H;
    first [ apply has_status_update_priority; exact H
          | repeat case_match;
            first [ exact H | eapply has_status_same; [reflexivity|exact H] ] ]
  | |- _ => keeps_helpers ltac:(intros ? ?; apply has_status_same; reflexivity)
  end.

Lemma has_status_rotation clock rand phone st purpose current :
  keeps (on_lb (has_status phone st)) (implement_session_rotation clock rand purpose current).
Proof. keeps_auto has_status_leaf. Qed.

(** [calculate_adaptive_cooldown] leaves the metrics as they are. *)
Lemma calculate_adaptive_cooldown_metrics clock rand phone error_type ms :
  keeps (on_lb (λ self, session_metrics self = ms))
    (calculate_adaptive_cooldown clock rand phone error_type).
Proof.
  keeps_auto ltac:(first
    [ apply keeps_modify; intros self H; exact H
    | keeps_helpers ltac:(intros ? ? H; exact H) ]).
Qed.

(** A cooldown that is placed on a session with metrics marks it cooling. *)
Lemma cool_down_session_status clock rand phone error_type w d w1 :
  is_Some (session_metrics (lb w) !! phone) →
  cool_down_session clock rand phone error_type w = (Ok d, w1) →
  has_status phone STATUS_COOLING (lb w1).
Proof.
  intros [m Hm] Hrun. unfold cool_down_session in Hrun.
  apply bind_returns in Hrun as (duration & w' & Hcalc & Hrun).
  pose proof (calculate_adaptive_cooldown_metrics clock rand phone error_type
                (session_metrics (lb w)) w eq_refl) as Hms.
  rewrite Hcalc in Hms. cbn in Hms. unfold on_lb in Hms.
  revert Hrun. repeat exec_step. rewrite Hms, Hm.
  rewrite bool_decide_eq_true_2 by eauto. cbv iota. repeat exec_step.
  intros [= _ <-]. unfold has_status. norm_world.
  rewrite !lookup_alter_eq, Hms, Hm. cbn. eauto.
Qed.

(** C5. After [force_session_rotation purpose A] has returned for a session
    [A] that has metrics, as long as the cooldown placed on [A] is active
    (no later reading of the clock exceeds the expiry stored for [A]),
    [get_best_client] does not return [A], whatever the purpose: neither
    from a pool nor as the last resort. *)
Theorem forced_rotation_excludes clock rand purpose A w r w1 t0 :
  is_Some (session_metrics (lb w) !! A) →
  force_session_rotation clock rand purpose A w = (Ok r, w1) →
  session_cooldowns (lb w1) !! A = Some t0 →
  (∀ n, (ticks w1 ≤ n)%nat → (clock n <= t0)%Q) →
  ∀ purpose' c, (get_best_client clock purpose' w1).1 ≠ Ok (Some (A, c)).
Proof.
  intros Hreg Hrun Hcool Hactive purpose' c.
  assert (has_status A STATUS_COOLING (lb w1)) as Hstatus.
  { unfold force_session_rotation in Hrun. revert Hrun. rewrite run_has_metrics.
    rewrite bool_decide_eq_true_2 by exact Hreg. cbv iota. intros Hrun.
    apply bind_returns in Hrun as ([] & w2 & Hcd & Hrun).
    apply bind_returns in Hcd as (d & w3 & Hcd & Hskip).
    injection Hskip as <-.
    pose proof (cool_down_session_status _ _ _ _ _ _ _ Hreg Hcd) as Hst.
    pose proof (has_status_rotation clock rand A STATUS_COOLING purpose (Some A) w3 Hst)
      as Hkeep.
    rewrite Hrun in Hkeep. exact Hkeep. }
  pose proof (cooling_get_best_client clock A t0 (ticks w1) Hactive purpose' w1) as H.
  destruct (get_best_client clock purpose' w1) as [[res|e] w2]; [|discriminate].
  cbn. intros [= ->]. eapply H; [|reflexivity].
  split; [exact Hcool|]. split; [exact Hstatus|lia].
Qed.


(** ** Selection of an eligible session *)

(** From [w] to [w'] the clients are the same and no cooldown was added. *)
Definition shrinks (w w' : World) : Prop :=
  active_clients (lb w') = active_clients (lb w) ∧
  ∀ p, session_cooldowns (lb w) !! p = None → session_cooldowns (lb w') !! p = None.

Lemma shrinks_same w w' : lb w' = lb w → shrinks w w'.
Proof. intros E. unfold shrinks. rewrite E. auto. Qed.

Lemma shrinks_refl w : shrinks w w.
Proof. apply shrinks_same. reflexivity. Qed.

Lemma shrinks_trans w1 w2 w3 : shrinks w1 w2 → shrinks w2 w3 → shrinks w1 w3.
Proof. intros [H1 H2] [H3 H4]. split; [congruence|auto]. Qed.

(** A session of the pool that has a client and no cooldown entry. *)
Definition eligible (w : World) (p : string) : Prop :=
  is_Some (active_clients (lb w) !! p) ∧ session_cooldowns (lb w) !! p = None.

Lemma eligible_shrinks w w' p : shrinks w w' → eligible w p → eligible w' p.
Proof. intros [H1 H2] [H3 H4]. split; [rewrite H1; exact H3|auto]. Qed.

Section Selection.
Variable clock : nat → Q.

Lemma is_in_cooldown_total phone w :
  ∃ b w', is_in_cooldown clock phone w = (Ok b, w') ∧ shrinks w w' ∧
          (b = false → session_cooldowns (lb w') !! phone = None) ∧
          (session_cooldowns (lb w) !! phone = None → b = false).
Proof.
  unfold is_in_cooldown. rewrite run_gets.
  destruct (session_cooldowns (lb w) !! phone) as [until|] eqn:E.
  - rewrite run_time. destruct (Qgtb _ _).
    + rewrite run_modify, end_ret. norm_world. eexists _, _. split; [reflexivity|].
      split; [|split; [|discriminate]].
      * split; [reflexivity|]. intros p Hp. cbn.
        rewrite lookup_delete. case_decide; [reflexivity|exact Hp].
      * intros _. cbn. apply lookup_delete_eq.
    + rewrite end_ret. eexists _, _. split; [reflexivity|].
      split; [apply shrinks_same; reflexivity|]. split; discriminate.
  - rewrite end_ret. eexists _, _. split; [reflexivity|].
    split; [apply shrinks_refl|]. split; auto.
Qed.

Lemma collect_available_total b phones : ∀ w,
  ∃ l w', collect_available clock b phones w = (Ok l, w') ∧ shrinks w w' ∧
          (∀ p, p ∈ (l.*2) → p ∈ phones ∧ eligible w' p) ∧
          (∀ p, p ∈ phones → eligible w p → p ∈ (l.*2)).
Proof.
  induction phones as [|phone phones IH]; intros w; cbn [collect_available].
  - rewrite end_ret. exists [], w. split; [reflexivity|]. split; [apply shrinks_refl|].
    split; intros p Hp; inversion Hp.
  - rewrite run_gets.
    destruct (active_clients (lb w) !! phone) as [c|] eqn:Ec.
    + rewrite bool_decide_eq_true_2 by eauto. cbv iota. rewrite bind_assoc.
      destruct (is_in_cooldown_total phone w) as (cool & w1 & Hrun & Hs1 & Hfalse & Hnone).
      rewrite (bind_run _ _ _ _ _ Hrun). cbv beta. rewrite run_ret.
      destruct cool; cbn [negb]; cbv iota.
      * destruct (IH w1) as (l & w2 & Hrest & Hs2 & Hin & Hall).
        exists l, w2. split; [exact Hrest|]. split; [eapply shrinks_trans; eassumption|].
        split.
        -- intros p Hp. destruct (Hin p Hp). split; [right|]; assumption.
        -- intros p Hp Hel. apply elem_of_cons in Hp as [->|Hp].
           ++ destruct Hel as [_ Hn]. specialize (Hnone Hn). discriminate.
           ++ apply Hall; [exact Hp|]. eapply eligible_shrinks; eassumption.
      * rewrite run_gets.
        destruct (IH w1) as (l & w2 & Hrest & Hs2 & Hin & Hall).
        rewrite (bind_run _ _ _ _ _ Hrest). cbv beta. rewrite end_ret.
        eexists _, w2. split; [reflexivity|].
        split; [eapply shrinks_trans; eassumption|]. split.
        -- intros p Hp. cbn in Hp. apply elem_of_cons in Hp as [->|Hp].
           ++ split; [left|]. eapply eligible_shrinks; [exact Hs2|].
              split; [|auto]. destruct Hs1 as [-> _]. eauto.
           ++ destruct (Hin p Hp). split; [right|]; assumption.
        -- intros p Hp Hel. cbn. apply elem_of_cons in Hp as [->|Hp]; [left|right].
           apply Hall; [exact Hp|]. eapply eligible_shrinks; eassumption.
    + rewrite bool_decide_eq_false_2 by (intros [? ?]; discriminate).
      cbv iota. rewrite run_ret. cbv iota.
      destruct (IH w) as (l & w2 & Hrest & Hs2 & Hin & Hall).
      exists l, w2. split; [exact Hrest|]. split; [exact Hs2|]. split.
      * intros p Hp. destruct (Hin p Hp). split; [right|]; assumption.
      * intros p Hp Hel. apply elem_of_cons in Hp as [->|Hp]; [|auto].
        destruct Hel as [[c Hc] _]. congruence.
Qed.


(** [total P m R]: from a world in [P], [m] returns some [a] and leaves a
    world in [R a]. *)
Definition total {A} (P : World → Prop) (m : M A) (R : A → World → Prop) : Prop :=
  ∀ w, P w → ∃ a w', m w = (Ok a, w') ∧ R a w'.


Lemma total_ret {A} (P : World → Prop) (a : A) (R : A → World → Prop) :
  (∀ w, P w → R a w) → total P (ret a) R.
Proof. intros H w Hw. exists a, w. split; [reflexivity|apply H, Hw]. Qed.


Lemma update_priority_clients t self item :
  active_clients (update_priority t self item) = active_clients self ∧
  sessions (update_priority t self item) = sessions self ∧
  session_cooldowns (update_priority t self item) = session_cooldowns self.
Proof.
  unfold update_priority. cbv zeta.
  set (self1 := match session_priorities self !! item.1 with
                | Some _ => self
                | None => _
                end).
  assert (active_clients self1 = active_clients self ∧ sessions self1 = sessions self ∧
          session_cooldowns self1 = session_cooldowns self) as H.
  { subst self1. destruct (session_priorities self !! item.1); repeat split; reflexivity. }
  destruct (operations item.2) as [ops|]; [|exact H].
  destruct (ops <? 10); [exact H|].
  case_bool_decide; norm_world; exact H.
Qed.

Lemma update_priorities_clients t items : ∀ self,
  active_clients (foldl (update_priority t) self items) = active_clients self ∧
  sessions (foldl (update_priority t) self items) = sessions self ∧
  session_cooldowns (foldl (update_priority t) self items) = session_cooldowns self.
Proof.
  induction items as [|item items IH]; intros self; [repeat split; reflexivity|].
  cbn [foldl]. destruct (IH (update_priority t self item)) as (H1 & H2 & H3).
  destruct (update_priority_clients t self item) as (H4 & H5 & H6).
  repeat split; congruence.
Qed.

(** The pools are those of [w] and the sessions eligible in [w] still are. *)
Definition selecting (w w' : World) : Prop :=
  sessions (lb w') = sessions (lb w) ∧ shrinks w w'.


End Selection.


(** ** The theorems at concrete objects *)

Definition one_session : list call := [RegisterClient "A" 7%nat "general" true].

Definition two_sessions : list call :=
  [RegisterClient "A" 7%nat "general" true; RegisterClient "B" 8%nat "general" true].




(** Of two sessions, the one rotated away from is not returned while its
    cooldown of 300 seconds runs. *)
Lemma forced_rotation_excludes_witness :
  let w := run early_clock middle two_sessions in
  let w1 := (force_session_rotation early_clock middle "general" "A" w).2 in
  session_cooldowns (lb w1) !! "A"%string = Some 310%Q ∧
  (get_best_client early_clock "general" w1).1 ≠ Ok (Some ("A"%string, Some 7%nat)).
Proof.
  cbv zeta. split; [vm_compute; reflexivity|].
  apply (forced_rotation_excludes early_clock middle "general" "A"
           (run early_clock middle two_sessions) (Some ("B"%string, Some 8%nat))
           (force_session_rotation early_clock middle "general" "A"
              (run early_clock middle two_sessions)).2 310%Q).
  - vm_compute. eexists. reflexivity.
  - vm_compute. reflexivity.
  - vm_compute. reflexivity.
  - intros n _. vm_compute. discriminate.
Defined.

(** A session without operations keeps the default priority. *)
Lemma update_session_priorities_bounds_witness :
  let w := run frozen_clock middle one_session in
  (update_session_priorities frozen_clock w).1 = Ok tt ∧
  priority_of (lb (update_session_priorities frozen_clock w).2) "A" = 5.
Proof.
  cbv zeta.
  destruct (update_session_priorities_bounds frozen_clock
              (run frozen_clock middle one_session) "A") as (H1 & _ & _ & H2 & _).
  - vm_compute. split; discriminate.
  - split; [exact H1|].
    apply (H2 (default empty_metrics
                 (session_metrics (lb (run frozen_clock middle one_session)) !! "A"%string))).
    + vm_compute. reflexivity.
    + vm_compute. reflexivity.
Defined.

(** Registration, selection and a cooldown record no operation. *)
Lemma detect_overload_without_operations_witness :
  (detect_session_overload early_clock "A"
     (run early_clock middle
        [RegisterClient "A" 7%nat "general" true; GetBestClient "general";
         CoolDownSession "A" "general"])).1 = Ok false.
Proof.
  apply (detect_overload_without_operations early_clock middle "A"). reflexivity.
Defined.


(** ** The pools *)

(** Every pool lists a session at most once, and only sessions that have a
    client. *)
Definition pools_well_formed (self : LoadBalancer) : Prop :=
  ∀ purpose pool, sessions self !! purpose = Some pool →
    NoDup (primary pool) ∧ NoDup (backup pool) ∧
    ∀ p, p ∈ primary pool ++ backup pool → is_Some (active_clients self !! p).

Lemma pools_same self self' :
  sessions self' = sessions self → active_clients self' = active_clients self →
  pools_well_formed self → pools_well_formed self'.
Proof. unfold pools_well_formed. intros -> ->. auto. Qed.

Lemma NoDup_snoc (l : list string) (x : string) : x ∉ l → NoDup l → NoDup (l ++ [x]).
Proof.
  intros Hx Hl. apply NoDup_app. repeat split; [exact Hl| |apply NoDup_singleton].
  intros y Hy Hy'. apply list_elem_of_singleton in Hy'. congruence.
Qed.

(** The pools are well formed and [phone] has a client. *)
Definition pools_with (phone : string) (self : LoadBalancer) : Prop :=
  pools_well_formed self ∧ is_Some (active_clients self !! phone).

Lemma pools_with_insert phone purpose pool self :
  NoDup (primary pool) → NoDup (backup pool) →
  (∀ p, p ∈ primary pool ++ backup pool → is_Some (active_clients self !! p)) →
  pools_with phone self →
  pools_with phone (set_sessions (<[purpose := pool]> (sessions self)) self).
Proof.
  intros H1 H2 H3 [Hw Hphone]. split; [|exact Hphone].
  intros purpose' pool'. cbn. rewrite lookup_insert. case_decide.
  - intros [= <-]. auto.
  - apply Hw.
Qed.

Lemma pools_register_client phone client purpose is_primary :
  keeps (on_lb pools_well_formed) (register_client phone client purpose is_primary).
Proof.
  intros w Hw. unfold register_client. rewrite run_modify.
  match goal with
  | |- on_lb _ (?m ?w1).2 =>
    enough (keeps (on_lb (pools_with phone)) m) as Hrest;
      [apply (Hrest w1)|]
  end.
  - split; norm_world; [|rewrite lookup_insert_eq; eauto].
    intros purpose' pool' Hlook. destruct (Hw _ _ Hlook) as (H1 & H2 & H3).
    split; [exact H1|]. split; [exact H2|]. intros p Hp. cbn.
    rewrite lookup_insert. case_decide; [eauto|auto].
  - repeat (apply keeps_bind; [|intros _]); apply keeps_modify; intros self [Hself Hphone].
    + destruct (session_metrics self !! phone); split; assumption.
    + destruct (sessions self !! purpose) eqn:Hfound; [split; assumption|].
      apply pools_with_insert; [apply NoDup_nil_2|apply NoDup_nil_2| |split; assumption].
      intros p Hp. inversion Hp.
    + destruct (sessions self !! purpose) as [pool|] eqn:Hfound; [|split; assumption].
      destruct (Hself _ _ Hfound) as (H1 & H2 & H3). cbv zeta.
      destruct is_primary; case_bool_decide as Hmem; apply pools_with_insert;
        cbn [primary backup]; try assumption; try (split; assumption);
        try (apply NoDup_snoc; assumption).
      all: intros p Hin; repeat rewrite elem_of_app in Hin;
        rewrite ?list_elem_of_singleton in Hin;
        assert (p = phone ∨ p ∈ primary pool ∨ p ∈ backup pool) as [->|Hp] by tauto;
        [exact Hphone|apply H3, elem_of_app, Hp].
Qed.

Lemma pools_update_priorities t items self :
  pools_well_formed self → pools_well_formed (foldl (update_priority t) self items).
Proof.
  destruct (update_priorities_clients t items self) as (H1 & H2 & _).
  apply pools_same; assumption.
Qed.

Ltac pools_leaf :=
  idtac; lazymatch goal with
  | |- keeps (on_lb pools_well_formed) (register_client _ _ _ _) =>
    apply pools_register_client
  | |- keeps (on_lb pools_well_formed) (modify _) =>
    apply keeps_modify; let self := fresh "self" in let H := fresh "H" in
    intros self H;
    first [ apply pools_update_priorities; exact H
          | repeat case_match;
            first [ exact H | eapply pools_same; [reflexivity|reflexivity|exact H] ] ]
  | |- _ => keeps_helpers ltac:(intros ? ?; apply pools_same; reflexivity)
  end.

Lemma pools_after clock rand c w :
  on_lb pools_well_formed w → on_lb pools_well_formed (after clock rand c w).
Proof. intros H. keeps_call; keeps_auto pools_leaf. Qed.

(** On the object reached by any sequence of calls, every pool lists a
    session at most once, in its primary list and in its backup list, and
    every session listed has a client. *)
Theorem pools_without_duplicates clock rand calls purpose pool :
  sessions (lb (run clock rand calls)) !! purpose = Some pool →
  NoDup (primary pool) ∧ NoDup (backup pool) ∧
  ∀ p, p ∈ primary pool ++ backup pool →
       is_Some (active_clients (lb (run clock rand calls)) !! p).
Proof.
  revert purpose pool. change (pools_well_formed (lb (run clock rand calls))).
  unfold run. induction calls as [|c calls IH] using rev_ind.
  - intros purpose pool. cbn. rewrite lookup_empty. discriminate.
  - rewrite foldl_app. cbn [foldl]. apply pools_after. exact IH.
Qed.

(** ** The histories are trimmed *)

(** The two histories kept in a metrics dictionary are within their
    limits. *)
Definition trimmed (m : Metrics) : Prop :=
  (length (default [] (overload_history m)) ≤ 20)%nat ∧
  (length (default [] (operation_rate_history m)) ≤ 10)%nat.

Definition histories_bounded (self : LoadBalancer) : Prop :=
  map_Forall (λ _ history, (length history ≤ 10)%nat) (session_cooldown_history self) ∧
  map_Forall (λ _ m, trimmed m) (session_metrics self).

Definition trimmed_kept (g : Metrics → Metrics) : Prop := ∀ m, trimmed m → trimmed (g m).

Lemma length_last_n {A} (n : nat) (l : list A) : (length (last_n n l) ≤ n)%nat.
Proof. unfold last_n. rewrite length_drop. lia. Qed.

Ltac trimmed_kept_tac :=
  idtac; lazymatch goal with
  | |- trimmed_kept _ =>
    let m := fresh "m" in
    intros m; unfold trimmed, track_consistency; cbv beta zeta;
    repeat match goal with
    | |- context [if (?a <? ?b)%Z then _ else _] => destruct (Z.ltb_spec a b)
    | |- context [if (?a <=? ?b)%Z then _ else _] => destruct (Z.leb_spec a b)
    | |- context [match ?x with _ => _ end] => destruct x eqn:?
    end;
    intros [? ?]; split; cbn in *; unfold len in *; rewrite ?length_drop, ?length_app in *; cbn in *;
    first [ assumption | lia
          | repeat match goal with E : ?x = _ |- context [?x] => rewrite E end;
            cbn; first [assumption | lia] ]
  end.

Lemma histories_same self self' :
  session_cooldown_history self' = session_cooldown_history self →
  session_metrics self' = session_metrics self →
  histories_bounded self → histories_bounded self'.
Proof. unfold histories_bounded. intros -> ->. auto. Qed.

Lemma trimmed_alter g phone (ms : gmap string Metrics) :
  trimmed_kept g → map_Forall (λ _ m, trimmed m) ms →
  map_Forall (λ _ m, trimmed m) (alter g phone ms).
Proof.
  intros Hg Hm phone' m'. rewrite lookup_alter.
  case_decide as E; [|apply Hm]. subst phone'.
  destruct (ms !! phone) as [m|] eqn:Em; [|discriminate].
  intros [= <-]. apply Hg. exact (Hm _ _ Em).
Qed.

Lemma histories_alter g phone self :
  trimmed_kept g → histories_bounded self →
  histories_bounded (set_session_metrics (alter g phone (session_metrics self)) self).
Proof. intros Hg [Hc Hm]. split; [exact Hc|]. apply trimmed_alter; assumption. Qed.

Lemma histories_insert phone m self :
  trimmed m → histories_bounded self →
  histories_bounded (set_session_metrics (<[phone := m]> (session_metrics self)) self).
Proof. intros Hm [Hc Hms]. split; [exact Hc|]. apply map_Forall_insert_2; assumption. Qed.

Lemma histories_update_priority t items : ∀ self,
  histories_bounded self → histories_bounded (foldl (update_priority t) self items).
Proof.
  induction items as [|item items IH]; intros self H; [exact H|].
  cbn [foldl]. apply IH. unfold update_priority.
  repeat case_match; try (apply histories_alter; [trimmed_kept_tac|]);
    repeat first [assumption | eapply histories_same; [reflexivity|reflexivity|]].
Qed.

(** The cooldown recorded by [calculate_adaptive_cooldown]: appended, then
    the list is cut to its last 10 entries. *)
Lemma histories_record phone record self :
  histories_bounded self →
  histories_bounded
    (let history := default [] (session_cooldown_history self !! phone) ++ [record] in
     let history := if (10 <? len history)%Z then last_n 10 history else history in
     set_session_cooldown_history (<[phone := history]> (session_cooldown_history self)) self).
Proof.
  intros [Hc Hm]. cbv zeta. split; [|exact Hm]. cbn.
  apply map_Forall_insert_2; [|exact Hc].
  destruct (Z.ltb_spec 10 (len (default [] (session_cooldown_history self !! phone) ++ [record])))
    as [Hlt|Hge]; [apply length_last_n|].
  unfold len in Hge. lia.
Qed.

(** Two and three consecutive assignments to the metrics of [phone], of
    which only the last restores the limits. *)
Lemma histories_metrics_twice {A} phone f g (k : unit → M A) :
  trimmed_kept (λ m, g (f m)) → keeps (on_lb histories_bounded) (k tt) →
  keeps (on_lb histories_bounded)
    (bind (modify_metrics phone f) (λ _, bind (modify_metrics phone g) k)).
Proof.
  intros Hgf Hk w [Hc Hm]. rewrite run_modify_metrics, run_modify_metrics. apply Hk.
  split; norm_world; [exact Hc|].
  rewrite alter_alter_eq. apply (trimmed_alter (g ∘ f)); assumption.
Qed.

Lemma histories_metrics_thrice phone f g h :
  trimmed_kept (λ m, h (g (f m))) →
  keeps (on_lb histories_bounded)
    (bind (modify_metrics phone f)
       (λ _, bind (modify_metrics phone g) (λ _, modify_metrics phone h))).
Proof.
  intros Hhgf w [Hc Hm]. rewrite run_modify_metrics, run_modify_metrics, end_modify_metrics.
  split; cbn [snd]; norm_world; [exact Hc|].
  rewrite !alter_alter_eq. apply (trimmed_alter (h ∘ g ∘ f)); assumption.
Qed.

Ltac histories_leaf :=
  idtac; lazymatch goal with
  | |- keeps (on_lb histories_bounded)
         (bind (modify_metrics _ _)
            (λ _, bind (modify_metrics _ _) (λ _, modify_metrics _ _))) =>
    apply histories_metrics_thrice; trimmed_kept_tac
  | |- keeps (on_lb histories_bounded)
         (bind (modify_metrics _ _) (λ _, bind (modify_metrics _ _) _)) =>
    apply histories_metrics_twice; [trimmed_kept_tac|]
  | |- keeps (on_lb histories_bounded) (modify_metrics _ _) =>
    apply keeps_modify; let self := fresh "self" in let H := fresh "H" in
    intros self H; apply histories_alter; [trimmed_kept_tac|exact H]
  | |- keeps (on_lb histories_bounded) (modify _) =>
    apply keeps_modify; let self := fresh "self" in let H := fresh "H" in
    intros self H;
    first [ apply histories_update_priority; exact H
          | apply histories_record; exact H
          | repeat case_match;
            first [ exact H
                  | apply histories_insert; [split; cbn; lia|exact H]
                  | eapply histories_same; [reflexivity|reflexivity|exact H] ] ]
  | |- _ => keeps_helpers ltac:(intros ? ?; apply histories_same; reflexivity)
  end.

Ltac unfold_methods_but_metrics :=
  unfold register_client, calculate_adaptive_cooldown, escalate, flood_wait_adjust,
    pattern_adjust, cool_down_session, is_in_cooldown, update_session_priorities,
    get_best_client, apply_priority_throttling, record_operation, pattern_score_of,
    detect_session_overload, execute_with_priority, register_user_behavior,
    implement_session_rotation, force_session_rotation, operation_of.

Lemma histories_after clock rand c w :
  on_lb histories_bounded w → on_lb histories_bounded (after clock rand c w).
Proof.
  intros H. keeps_call;
    repeat first [ histories_leaf | keeps_step | progress unfold_methods_but_metrics ].
Qed.

(** On the object reached by any sequence of calls the histories are
    bounded: at most 10 recorded cooldowns per session, and in every metrics
    dictionary at most 20 recorded overloads and at most 10 operation
    rates. *)
Theorem histories_stay_bounded clock rand calls :
  let self := lb (run clock rand calls) in
  (∀ phone history, session_cooldown_history self !! phone = Some history →
     (length history ≤ 10)%nat) ∧
  (∀ phone m, session_metrics self !! phone = Some m →
     (length (default [] (overload_history m)) ≤ 20)%nat ∧
     (length (default [] (operation_rate_history m)) ≤ 10)%nat).
Proof.
  cbv zeta. change (histories_bounded (lb (run clock rand calls))).
  unfold run. induction calls as [|c calls IH] using rev_ind.
  - split; apply map_Forall_empty.
  - rewrite foldl_app. cbn [foldl]. apply histories_after. exact IH.
Qed.

(** ** Throttling *)

Lemma priority_cases p : 1 ≤ p ≤ 10 →
  p = 1 ∨ p = 2 ∨ p = 3 ∨ p = 4 ∨ p = 5 ∨ p = 6 ∨ p = 7 ∨ p = 8 ∨ p = 9 ∨ p = 10.
Proof. lia. Qed.

Lemma throttle_factor_range p :
  1 ≤ p ≤ 10 → (1 <= throttle_factor_of p <= 5)%Q.
Proof.
  intros Hp. destruct (priority_cases p Hp) as [->|[->|[->|[->|[->|[->|[->|[->|[->| ->]]]]]]]]];
    vm_compute; split; discriminate.
Qed.

Lemma throttle_factor_step p :
  1 ≤ p → p + 1 ≤ 10 → (throttle_factor_of (p + 1) <= throttle_factor_of p)%Q.
Proof.
  intros H1 H2. assert (1 ≤ p ≤ 10) as Hp by lia.
  destruct (priority_cases p Hp) as [->|[->|[->|[->|[->|[->|[->|[->|[->| ->]]]]]]]]];
    first [lia | vm_compute; discriminate].
Qed.

Lemma throttle_factor_steps (n : nat) p :
  1 ≤ p → p + Z.of_nat n ≤ 10 →
  (throttle_factor_of (p + Z.of_nat n) <= throttle_factor_of p)%Q.
Proof.
  intros Hp. induction n as [|n IH]; intros Hq.
  - rewrite Z.add_0_r. apply Qle_refl.
  - eapply Qle_trans; [|apply IH; lia].
    replace (p + Z.of_nat (S n)) with (p + Z.of_nat n + 1) by lia.
    apply throttle_factor_step; lia.
Qed.

(** The throttle factor is between 1 and 5: the one [apply_priority_throttling]
    returns on the object reached by any sequence of calls, which it leaves
    as it is, and the one [execute_with_priority] takes from a priority
    override, whatever the override; and a higher priority never gets a
    higher factor. *)
Theorem throttle_factor_bounds clock rand calls phone :
  (∃ factor,
     apply_priority_throttling phone (run clock rand calls)
     = (Ok factor, run clock rand calls) ∧ (1 <= factor <= 5)%Q) ∧
  (∀ override,
     (1 <= throttle_factor_of (Z.max (Z.min override max_priority) min_priority) <= 5)%Q) ∧
  (∀ p q, 1 ≤ p → p ≤ q → q ≤ 10 → (throttle_factor_of q <= throttle_factor_of p)%Q).
Proof.
  split; [|split].
  - eexists. split; [reflexivity|]. apply throttle_factor_range.
    pose proof (in_range_run clock rand calls) as Hrange.
    destruct (session_priorities (lb (run clock rand calls)) !! phone) as [p|] eqn:Hp.
    + cbn. exact (Hrange _ _ Hp).
    + cbn. unfold default_priority. lia.
  - intros override. apply throttle_factor_range. unfold max_priority, min_priority. lia.
  - intros p q Hp Hpq Hq.
    replace q with (p + Z.of_nat (Z.to_nat (q - p))) by lia.
    apply throttle_factor_steps; lia.
Qed.

(** ** Registering twice *)

Lemma set_active_clients_id self :
  set_active_clients (active_clients self) self = self.
Proof. destruct self. reflexivity. Qed.

Lemma set_sessions_id self : set_sessions (sessions self) self = self.
Proof. destruct self. reflexivity. Qed.

(** What [register_client] establishes, and what makes it change nothing. *)
Definition registered (phone : string) (client : Client) (purpose : string)
    (is_primary : bool) (self : LoadBalancer) : Prop :=
  active_clients self !! phone = Some client ∧
  is_Some (session_metrics self !! phone) ∧
  ∃ pool, sessions self !! purpose = Some pool ∧
          phone ∈ (if is_primary then primary pool else backup pool).

Lemma register_client_registers phone client purpose is_primary w :
  registered phone client purpose is_primary
    (lb (register_client phone client purpose is_primary w).2).
Proof.
  unfold register_client. repeat exec_step. cbn [snd]. norm_world.
  destruct (session_metrics (lb w) !! phone) eqn:Hm; norm_world.
  all: destruct (sessions (lb w) !! purpose) as [pool|] eqn:Hs; norm_world.
  all: rewrite ?Hs, ?lookup_insert_eq; norm_world.
  all: unfold registered; norm_world.
  all: split; [apply lookup_insert_eq|]; split; [rewrite ?lookup_insert_eq, ?Hm; eauto|].
  all: eexists; split; [apply lookup_insert_eq|].
  all: destruct is_primary; try case_bool_decide; cbn [primary backup]; try assumption.
  all: apply elem_of_app; right; left.
Qed.

Lemma register_client_again phone client purpose is_primary w :
  registered phone client purpose is_primary (lb w) →
  lb (register_client phone client purpose is_primary w).2 = lb w.
Proof.
  intros (Hc & [m Hm] & pool & Hs & Hin).
  unfold register_client. repeat exec_step. cbn [snd]. norm_world.
  rewrite Hm. cbv iota. norm_world. rewrite Hs. cbv iota. norm_world.
  rewrite ?Hs. cbv iota. norm_world.
  assert ((if is_primary
           then if bool_decide (phone ∈ primary pool) then pool
                else mkPool (primary pool ++ [phone]) (backup pool)
           else if bool_decide (phone ∈ backup pool) then pool
                else mkPool (primary pool) (backup pool ++ [phone])) = pool) as ->.
  { destruct is_primary; rewrite bool_decide_eq_true_2 by exact Hin; reflexivity. }
  rewrite (insert_id _ _ _ Hs), (insert_id _ _ _ Hc).
  destruct (lb w). reflexivity.
Qed.

(** Registering a client a second time with the same arguments changes
    nothing: the session is not listed twice and its metrics are kept. *)
Theorem register_client_idempotent phone client purpose is_primary w :
  let once := (register_client phone client purpose is_primary w).2 in
  lb (register_client phone client purpose is_primary once).2 = lb once.
Proof.
  cbv zeta. apply register_client_again, register_client_registers.
Qed.

(** ** The health check *)

(** [last_health_check] is assigned after the call of the undefined
    [check_all_sessions_health] only, so never. *)
Definition never_checked (self : LoadBalancer) : Prop := last_health_check self = 0%Q.

Lemma never_checked_same self self' :
  last_health_check self' = last_health_check self → never_checked self → never_checked self'.
Proof. unfold never_checked. intros ->. auto. Qed.

Lemma never_checked_update_priority t items : ∀ self,
  never_checked self → never_checked (foldl (update_priority t) self items).
Proof.
  induction items as [|item items IH]; intros self H; [exact H|].
  cbn [foldl]. apply IH. unfold update_priority.
  repeat case_match; repeat first [assumption | eapply never_checked_same; [reflexivity|]].
Qed.

Lemma keeps_bind_check_all {A} I (k : unit → M A) : keeps I (bind check_all_sessions_health k).
Proof. intros w Hw. exact Hw. Qed.

Ltac never_checked_leaf :=
  idtac; lazymatch goal with
  | |- keeps _ (bind check_all_sessions_health _) => apply keeps_bind_check_all
  | |- keeps (on_lb never_checked) (modify _) =>
    apply keeps_modify; let self := fresh "self" in let H := fresh "H" in
    intros self H;
    first [ apply never_checked_update_priority; exact H
          | repeat case_match;
            first [ exact H | eapply never_checked_same; [reflexivity|exact H] ] ]
  | |- _ => keeps_helpers ltac:(intros ? ?; apply never_checked_same; reflexivity)
  end.

Lemma never_checked_after clock rand c w :
  on_lb never_checked w → on_lb never_checked (after clock rand c w).
Proof. intros H. keeps_call; keeps_auto never_checked_leaf. Qed.

Lemma never_checked_run clock rand calls : never_checked (lb (run clock rand calls)).
Proof.
  unfold run. induction calls as [|c calls IH] using rev_ind.
  - reflexivity.
  - rewrite foldl_app. cbn [foldl]. apply never_checked_after. exact IH.
Qed.

Definition no_check_all_sessions_health : exn :=
  AttributeError "'LoadBalancer' object has no attribute 'check_all_sessions_health'".

(** With a clock that reads more than 60 seconds, as [time.time()] does, the
    health check is due at every call on every object that calls can reach:
    [get_best_client] raises [AttributeError] at the call of the undefined
    [check_all_sessions_health], having changed nothing, and
    [execute_with_priority] raises with it, before the wrapped function is
    run or anything is recorded. *)
Theorem get_best_client_health_check_raises clock rand calls purpose :
  (∀ n, (60 < clock n)%Q) →
  let w := run clock rand calls in
  get_best_client clock purpose w
  = (Raise no_check_all_sessions_health, mkWorld (lb w) (S (ticks w)) (draws w) (sleeps w)) ∧
  ∀ (func : Client → M Z) operation_type priority_override,
    execute_with_priority clock rand purpose func operation_type priority_override w
    = (Raise no_check_all_sessions_health,
       mkWorld (lb w) (S (ticks w)) (draws w) (sleeps w)).
Proof.
  intros Hclock. cbv zeta.
  assert (get_best_client clock purpose (run clock rand calls)
          = (Raise no_check_all_sessions_health,
             mkWorld (lb (run clock rand calls)) (S (ticks (run clock rand calls)))
               (draws (run clock rand calls)) (sleeps (run clock rand calls)))) as Hbest.
  { unfold get_best_client. rewrite run_time, run_gets.
    rewrite (never_checked_run clock rand calls).
    assert (Qgtb (clock (ticks (run clock rand calls)) - 0) HEALTH_CHECK_INTERVAL = true)
      as ->.
    { apply Qltb_lt. unfold HEALTH_CHECK_INTERVAL.
      assert (clock (ticks (run clock rand calls)) - 0 == clock (ticks (run clock rand calls)))%Q
        as -> by ring.
      apply Hclock. }
    rewrite !bind_assoc, run_check_all_sessions_health. reflexivity. }
  split; [exact Hbest|].
  intros func operation_type priority_override. unfold execute_with_priority.
  rewrite (bind_stop _ _ _ _ _ Hbest). reflexivity.
Qed.

(** ** [detect_session_overload] returns *)

Lemma inject_Z_nonzero z : 0 < z → Qeq_bool (inject_Z z) 0 = false.
Proof.
  intros Hz. destruct (Qeq_bool (inject_Z z) 0) eqn:E; [|reflexivity].
  apply Qeq_bool_eq in E. unfold Qeq in E. cbn in E. lia.
Qed.

Lemma len_cons_pos {A} (x : A) l : 0 < len (x :: l).
Proof. unfold len. cbn [length]. lia. Qed.

Lemma degraded_types_returns t items w :
  ∃ n, degraded_types t items w = (Ok n, w) ∧ 0 ≤ n.
Proof.
  induction items as [|[op times] items (n & IH & Hn)]; cbn [degraded_types].
  - exists 0. split; [reflexivity|lia].
  - cbv zeta.
    assert (∃ here, 0 ≤ here ∧ ∀ B (k : Z → M B),
      bind match snd <$> List.filter (λ p : Q * Q, Qle_bool (t - p.1) 1800) times,
                 baseline_response_times !! op with
           | _ :: _, Some baseline =>
             bind (truediv (Qsum (snd <$> List.filter (λ p : Q * Q, Qle_bool (t - p.1) 1800)
                                                      times))
                     (inject_Z (len (snd <$> List.filter
                                       (λ p : Q * Q, Qle_bool (t - p.1) 1800) times))))
               (λ avg_time,
                  ret (if Qgtb avg_time (baseline * overload_response_time_factor)
                       then 1 else 0))
           | _, _ => ret 0
           end k w = k here w) as (here & Hhere & Hrun).
    { destruct (snd <$> List.filter _ times) as [|x xs]; [exists 0; split; [lia|reflexivity]|].
      destruct (baseline_response_times !! op) as [baseline|];
        [|exists 0; split; [lia|reflexivity]].
      eexists. split; [|intros B k; rewrite bind_assoc, run_truediv, run_ret;
                        [reflexivity|apply inject_Z_nonzero, len_cons_pos]].
      destruct (Qgtb _ _); lia. }
    rewrite Hrun, (bind_run _ _ _ _ _ IH). exists (here + n). split; [reflexivity|lia].
Qed.

Lemma pattern_score_returns t m w :
  ∃ p, pattern_score_of t m w = (Ok p, w) ∧ (0 <= p)%Q.
Proof.
  unfold pattern_score_of.
  destruct (overload_history m) as [history|]; [|exists 0%Q; split; [reflexivity|discriminate]].
  destruct (2 <=? len history); [|exists 0%Q; split; [reflexivity|discriminate]].
  destruct (last history); [|exists 0%Q; split; [reflexivity|discriminate]].
  cbv zeta. destruct (intervals_of _) as [|x xs]; [exists 0%Q; split; [reflexivity|discriminate]|].
  unfold bind, truediv. rewrite inject_Z_nonzero by apply len_cons_pos.
  eexists. split; [reflexivity|]. destruct (Qgtb _ _); discriminate.
Qed.

(** The combined score, from its components. *)
Lemma overload_score_bound (error_rate : Q) (flood_waits consecutive degraded : Z)
    (pattern_score : Q) :
  0 ≤ degraded → (0 <= pattern_score)%Q →
  (let overload_score : Q := 0 in
   let overload_score :=
     if Qgeb error_rate overload_error_rate
     then overload_score + error_rate / overload_error_rate else overload_score in
   let overload_score :=
     if (overload_flood_wait_frequency <=? flood_waits)%Z
     then overload_score + inject_Z flood_waits / inject_Z overload_flood_wait_frequency
     else overload_score in
   let overload_score :=
     if (overload_consecutive_errors <=? consecutive)%Z
     then overload_score + inject_Z consecutive / inject_Z overload_consecutive_errors
     else overload_score in
   let overload_score := overload_score + inject_Z degraded * 0.2 in
   let overload_score := overload_score + pattern_score in
   (overload_consecutive_errors ≤ consecutive)%Z → 1 <= overload_score)%Q.
Proof.
  intros Hdeg Hps. cbv zeta.
  assert (0 <= if Qgeb error_rate overload_error_rate
               then 0 + error_rate / overload_error_rate else 0)%Q as He.
  { destruct (Qgeb error_rate overload_error_rate) eqn:E; [|discriminate].
    apply Qle_bool_iff in E. unfold overload_error_rate in *.
    rewrite Qplus_0_l. apply Qle_shift_div_l; [reflexivity|].
    rewrite Qmult_0_l. eapply Qle_trans; [|exact E]. discriminate. }
  set (e := if Qgeb error_rate overload_error_rate
            then (0 + error_rate / overload_error_rate)%Q else 0%Q) in *.
  assert (0 <= if (overload_flood_wait_frequency <=? flood_waits)%Z
               then inject_Z flood_waits / inject_Z overload_flood_wait_frequency
               else 0)%Q as Hf.
  { destruct (Z.leb_spec overload_flood_wait_frequency flood_waits) as [E|E]; [|discriminate].
    unfold overload_flood_wait_frequency in *. apply Qle_shift_div_l; [reflexivity|].
    rewrite Qmult_0_l. change 0%Q with (inject_Z 0). rewrite <- Zle_Qle. lia. }
  assert (0 <= inject_Z degraded * 0.2)%Q as Hd.
  { apply Qmult_le_0_compat; [|discriminate].
    change 0%Q with (inject_Z 0). rewrite <- Zle_Qle. exact Hdeg. }
  intros Hc. destruct (Z.leb_spec overload_consecutive_errors consecutive) as [_|E]; [|lia].
  assert (1 <= inject_Z consecutive / inject_Z overload_consecutive_errors)%Q as Hone.
  { unfold overload_consecutive_errors in *. apply Qle_shift_div_l; [reflexivity|].
    rewrite Qmult_1_l. rewrite <- Zle_Qle. exact Hc. }
  destruct (overload_flood_wait_frequency <=? flood_waits)%Z; lra.
Qed.

Lemma detect_known clock phone w m :
  session_metrics (lb w) !! phone = Some m →
  ∃ overloaded w',
    detect_session_overload clock phone w = (Ok overloaded, w') ∧
    (overload_consecutive_errors ≤ default 0 (consecutive_errors m) → overloaded = true) ∧
    (overloaded = true → has_status phone STATUS_OVERLOADED (lb w')).
Proof.
  intros Hm. unfold detect_session_overload. rewrite run_gets, Hm. cbv iota.
  rewrite run_time.
  match goal with
  | |- context [truediv ?a ?b] => set (error_rate := (a / b)%Q)
  end.
  lazy zeta.
  rewrite run_truediv by (apply inject_Z_nonzero; lia).
  rewrite run_gets. norm_world.
  match goal with
  | |- context [bind (degraded_types ?t ?items) _ ?w1] =>
    destruct (degraded_types_returns t items w1) as (deg & Hdeg & Hdeg0);
    rewrite (bind_run _ _ _ _ _ Hdeg)
  end.
  match goal with
  | |- context [bind (pattern_score_of ?t ?m) _ ?w1] =>
    destruct (pattern_score_returns t m w1) as (ps & Hps & Hps0);
    rewrite (bind_run _ _ _ _ _ Hps)
  end.
  cbv beta.
  match goal with
  | |- context [set_current_overload_score (Some ?s)] =>
    assert (overload_consecutive_errors ≤ default 0 (consecutive_errors m) → (1 <= s)%Q)
      as Hbound
      by exact (overload_score_bound error_rate
                  (flood_wait_frequency (lb w) phone (clock (ticks w)))
                  (default 0 (consecutive_errors m)) deg ps Hdeg0 Hps0);
    remember s as score eqn:Hscore
  end.
  clear Hscore Hdeg Hps.
  destruct (Qgeb score overload_combined_warning_threshold) eqn:Hover.
  - repeat exec_step. eexists _, _. split; [reflexivity|]. split; [reflexivity|].
    intros _. unfold has_status. norm_world.
    rewrite !lookup_alter_eq, Hm. cbn. eexists. split; [reflexivity|].
    repeat case_match; reflexivity.
  - repeat exec_step. eexists _, _. split; [reflexivity|]. split; [|discriminate].
    intros Hc. specialize (Hbound Hc).
    assert (Qle_bool overload_combined_warning_threshold score = true) as Hle.
    { apply Qle_bool_iff. eapply Qle_trans; [|exact Hbound]. discriminate. }
    unfold Qgeb in Hover. congruence.
Qed.

(** [detect_session_overload] never raises: no division in it is by zero.
    For a session without metrics it returns [False] and changes nothing;
    for a session with 3 or more consecutive errors it returns [True]; and
    whenever it returns [True] the status of the session is "overloaded". *)
Theorem detect_session_overload_returns clock phone w :
  ∃ overloaded w',
    detect_session_overload clock phone w = (Ok overloaded, w') ∧
    (session_metrics (lb w) !! phone = None → overloaded = false ∧ w' = w) ∧
    (∀ m, session_metrics (lb w) !! phone = Some m →
          overload_consecutive_errors ≤ default 0 (consecutive_errors m) →
          overloaded = true) ∧
    (overloaded = true → has_status phone STATUS_OVERLOADED (lb w')).
Proof.
  destruct (session_metrics (lb w) !! phone) as [m|] eqn:Hm.
  - destruct (detect_known clock phone w m Hm) as (overloaded & w' & Hrun & Hcons & Hstatus).
    exists overloaded, w'. split; [exact Hrun|]. split; [discriminate|].
    split; [|exact Hstatus]. intros m' [= <-]. exact Hcons.
  - exists false, w. unfold detect_session_overload. rewrite run_gets, Hm.
    split; [reflexivity|]. split; [auto|]. split; discriminate.
Qed.

(** ** A cooldown and its check *)

(** A cooldown that [cool_down_session] places lasts between 300 and 3600
    seconds from a reading of the clock, and [is_in_cooldown] then answers
    by that expiry: [True] until the clock reads more than it, and from then
    on [False], deleting the entry. *)
Theorem cooldown_round_trip clock rand phone error_type w d w1 :
  cool_down_session clock rand phone error_type w = (Ok d, w1) →
  base_cooldown ≤ d ≤ max_cooldown ∧
  ∃ n, session_cooldowns (lb w1) !! phone = Some (clock n + inject_Z d)%Q ∧
    ∀ w2, lb w2 = lb w1 →
      let check := is_in_cooldown clock phone w2 in
      check.1 = Ok (negb (Qgtb (clock (ticks w2)) (clock n + inject_Z d))) ∧
      (check.1 = Ok false → session_cooldowns (lb check.2) !! phone = None).
Proof.
  intros Hrun. unfold cool_down_session in Hrun.
  apply bind_returns in Hrun as (d' & wc & Hcalc & Hrun).
  split.
  - apply calculate_adaptive_cooldown_in_bounds in Hcalc.
    revert Hrun. repeat exec_step. case_bool_decide; cbv iota; repeat exec_step;
      intros [= <- _]; exact Hcalc.
  - exists (ticks wc).
    assert (d' = d ∧
            session_cooldowns (lb w1) !! phone = Some (clock (ticks wc) + inject_Z d')%Q)
      as [<- Hentry].
    { revert Hrun. repeat exec_step. case_bool_decide; cbv iota; repeat exec_step;
        intros [= <- <-]; norm_world; (split; [reflexivity|apply lookup_insert_eq]). }
    split; [exact Hentry|]. intros w2 Hlb. cbv zeta.
    unfold is_in_cooldown. rewrite run_gets, Hlb, Hentry. cbv iota. rewrite run_time.
    destruct (Qgtb _ _); [rewrite run_modify, end_ret|rewrite end_ret]; cbn [fst snd negb].
    + split; [reflexivity|]. intros _. norm_world. apply lookup_delete_eq.
    + split; [reflexivity|discriminate].
Qed.

(** ** Rotation *)

Lemma insert_ascending_elem x y l : y ∈ insert_ascending x l ↔ y = x ∨ y ∈ l.
Proof.
  induction l as [|z l IH]; cbn.
  - rewrite list_elem_of_singleton, elem_of_nil. tauto.
  - destruct (tuple_ltb z x); rewrite !elem_of_cons, ?IH; tauto.
Qed.

Lemma sort_elem y l : y ∈ sort l ↔ y ∈ l.
Proof.
  induction l as [|x l IH]; [reflexivity|].
  cbn. rewrite insert_ascending_elem, elem_of_cons, IH. tauto.
Qed.

Section Rotation.
Variable clock : nat → Q.
Variable rand : nat → Q.

Lemma collect_alternatives_total current phones : ∀ w,
  ∃ l w', collect_alternatives clock current phones w = (Ok l, w') ∧ shrinks w w' ∧
          (∀ p, p ∈ l → p ∈ phones ∧ p ≠ current ∧ eligible w' p) ∧
          (∀ p, p ∈ phones → p ≠ current → eligible w p → p ∈ l).
Proof.
  induction phones as [|phone phones IH]; intros w; cbn [collect_alternatives].
  - rewrite end_ret. exists [], w. split; [reflexivity|]. split; [apply shrinks_refl|].
    split; intros p Hp; inversion Hp.
  - rewrite run_gets.
    assert (∃ e w1,
      (if negb (phone =? current)%string
          && bool_decide (is_Some (active_clients (lb w) !! phone))
       then bind (is_in_cooldown clock phone) (λ cooling, ret (negb cooling))
       else ret false) w = (Ok e, w1) ∧ shrinks w w1 ∧
      (e = true → phone ≠ current ∧ eligible w1 phone) ∧
      (phone ≠ current → eligible w phone → e = true)) as (e & w1 & Hrun & Hs1 & Hyes & Hno).
    { destruct (String.eqb_spec phone current) as [Heq|Hne]; cbn [negb andb].
      { exists false, w. split; [reflexivity|]. split; [apply shrinks_refl|].
        split; [discriminate|]. intros Hne. contradiction. }
      case_bool_decide as Hactive.
      - destruct (is_in_cooldown_total clock phone w) as (cool & w1 & Hrun & Hs & Hfalse & Hnone).
        rewrite (bind_run _ _ _ _ _ Hrun), end_ret.
        exists (negb cool), w1. split; [reflexivity|]. split; [exact Hs|]. split.
        + intros Hcool. apply negb_true_iff in Hcool. split; [exact Hne|].
          split; [destruct Hs as [-> _]; exact Hactive|auto].
        + intros _ [_ Hfree]. rewrite (Hnone Hfree). reflexivity.
      - exists false, w. split; [reflexivity|]. split; [apply shrinks_refl|].
        split; [discriminate|]. intros _ [Hc _]. contradiction. }
    rewrite (bind_run _ _ _ _ _ Hrun).
    destruct (IH w1) as (l & w2 & Hrest & Hs2 & Hin & Hall).
    rewrite (bind_run _ _ _ _ _ Hrest), end_ret.
    eexists _, w2. split; [reflexivity|]. split; [eapply shrinks_trans; eassumption|].
    split.
    + intros p Hp. destruct e.
      * apply elem_of_cons in Hp as [->|Hp].
        -- destruct (Hyes eq_refl) as [Hne Hel]. split; [left|].
           split; [exact Hne|]. eapply eligible_shrinks; eassumption.
        -- destruct (Hin p Hp) as (H1 & H2 & H3). split; [right; exact H1|auto].
      * destruct (Hin p Hp) as (H1 & H2 & H3). split; [right; exact H1|auto].
    + intros p Hp Hne Hel. apply elem_of_cons in Hp as [->|Hp].
      * rewrite (Hno Hne Hel). left.
      * assert (p ∈ l) as Hl by (apply Hall; [exact Hp|exact Hne|];
                                 eapply eligible_shrinks; eassumption).
        destruct e; [right|]; exact Hl.
Qed.

Lemma filter_recent_total {A} (ts : A → Q) limit l : ∀ w,
  ∃ r w', filter_recent clock ts limit l w = (Ok r, w') ∧ lb w' = lb w.
Proof.
  induction l as [|x l IH]; intros w; cbn [filter_recent].
  - eexists _, _. split; reflexivity.
  - rewrite run_time.
    match goal with |- context [bind _ _ ?w1] => destruct (IH w1) as (r & w' & Hrun & Hlb) end.
    rewrite (bind_run _ _ _ _ _ Hrun), end_ret. eexists _, _. split; [reflexivity|exact Hlb].
Qed.

Lemma score_phones_total phones : ∀ w,
  ∃ l w', score_phones clock rand phones w = (Ok l, w') ∧ lb w' = lb w ∧ l.*2 = phones.
Proof.
  induction phones as [|phone phones IH]; intros w; cbn [score_phones].
  - eexists _, _. repeat split.
  - rewrite run_gets.
    assert (∃ score w1, ∀ B (k : Q * string → M B),
      bind match session_metrics (lb w) !! phone with
           | Some metrics =>
             bind (gets (λ self, default default_priority (session_priorities self !! phone)))
               (λ priority,
                  bind (filter_recent clock id 300 (default [] (operation_timestamps metrics)))
                    (λ recent,
                       bind (uniform rand 0 0.1)
                         (λ jitter,
                            ret ((0 - default 1.0 (health_score metrics)
                                  - inject_Z priority / 10
                                  + inject_Z (len recent) / 100 + jitter)%Q, phone))))
           | None => ret (0%Q, phone)
           end k w = k (score, phone) w1 ∧ lb w1 = lb w) as (score & w1 & Hentry).
    { destruct (session_metrics (lb w) !! phone) as [metrics|].
      - destruct (filter_recent_total id 300 (default [] (operation_timestamps metrics)) w)
          as (recent & w1 & Hrecent & Hlb).
        eexists _, _. intros B k. rewrite bind_assoc, run_gets, bind_assoc.
        rewrite (bind_run _ _ _ _ _ Hrecent). rewrite bind_assoc, run_uniform, run_ret.
        split; [reflexivity|]. norm_world. exact Hlb.
      - eexists _, w. intros B k. rewrite run_ret. split; reflexivity. }
    destruct (Hentry _ (λ entry, bind (score_phones clock rand phones)
                                   (λ others, ret (entry :: others)))) as [-> Hlb1].
    destruct (IH w1) as (l & w2 & Hrest & Hlb2 & Hl).
    rewrite (bind_run _ _ _ _ _ Hrest), end_ret.
    eexists _, w2. split; [reflexivity|]. split; [congruence|]. cbn. rewrite Hl. reflexivity.
Qed.

(** Rotation away from a session always returns a session: another one of
    the purpose's pools, with its client and out of cooldown, whenever the
    pools list one that has a client and no cooldown entry; the current one
    only when there is no such session. *)
Theorem rotation_returns_alternative purpose current w :
  current ≠ ""%string →
  let pool := default (mkPool [] []) (sessions (lb w) !! purpose) in
  ∃ chosen client w',
    implement_session_rotation clock rand purpose (Some current) w
    = (Ok (Some (chosen, client)), w') ∧
    client = active_clients (lb w') !! chosen ∧
    (chosen = current ∨
     chosen ∈ primary pool ++ backup pool ∧ is_Some client ∧
     session_cooldowns (lb w') !! chosen = None) ∧
    (∀ other, other ∈ primary pool ++ backup pool → other ≠ current → eligible w other →
              chosen ≠ current).
Proof.
  intros Hcurrent. cbv zeta. unfold implement_session_rotation.
  destruct current as [|c current']; [contradiction|]. set (current := String c current') in *.
  rewrite run_gets. set (pool := default (mkPool [] []) (sessions (lb w) !! purpose)).
  cbv zeta.
  set (is_backup := negb (bool_decide (current ∈ primary pool))
                    && bool_decide (current ∈ backup pool)).
  set (same_pool := if is_backup then backup pool else primary pool).
  set (other_pool := if is_backup then primary pool else backup pool).
  assert (∀ p, p ∈ primary pool ++ backup pool ↔ p ∈ same_pool ∨ p ∈ other_pool) as Hpools.
  { intros p. subst same_pool other_pool. rewrite elem_of_app. destruct is_backup; tauto. }
  destruct (collect_alternatives_total current same_pool w)
    as (l1 & w1 & Hrun1 & Hs1 & Hin1 & Hall1).
  rewrite (bind_run _ _ _ _ _ Hrun1).
  assert (∃ l w2,
    match l1 with
    | [] => collect_alternatives clock current other_pool
    | _ :: _ => ret l1
    end w1 = (Ok l, w2) ∧ shrinks w w2 ∧
    (∀ p, p ∈ l → p ∈ primary pool ++ backup pool ∧ p ≠ current ∧ eligible w2 p) ∧
    (∀ p, p ∈ primary pool ++ backup pool → p ≠ current → eligible w p → l ≠ []))
    as (l & w2 & Hrun2 & Hs2 & Hin2 & Hall2).
  { destruct l1 as [|x l1].
    - destruct (collect_alternatives_total current other_pool w1)
        as (l2 & w2 & Hrun2 & Hs2 & Hin2 & Hall2).
      exists l2, w2. split; [exact Hrun2|]. split; [eapply shrinks_trans; eassumption|].
      split.
      + intros p Hp. destruct (Hin2 p Hp) as (H1 & H2 & H3).
        split; [apply Hpools; right; exact H1|auto].
      + intros p Hp Hne Hel. apply Hpools in Hp as [Hp|Hp].
        * specialize (Hall1 p Hp Hne Hel). inversion Hall1.
        * assert (p ∈ l2) as Hl2
            by (apply Hall2; [exact Hp|exact Hne|eapply eligible_shrinks; eassumption]).
          intros ->. inversion Hl2.
    - exists (x :: l1), w1. split; [reflexivity|]. split; [exact Hs1|]. split; [|discriminate].
      intros p Hp. destruct (Hin1 p Hp) as (H1 & H2 & H3).
      split; [apply Hpools; left; exact H1|auto]. }
  rewrite (bind_run _ _ _ _ _ Hrun2).
  destruct l as [|x l].
  - rewrite run_gets, end_ret. eexists _, _, w2. split; [reflexivity|].
    split; [reflexivity|]. split; [left; reflexivity|].
    intros other Hother Hne Hel. exfalso. exact (Hall2 other Hother Hne Hel eq_refl).
  - destruct (score_phones_total (x :: l) w2) as (scores & w3 & Hrun3 & Hlb3 & Hscores).
    rewrite (bind_run _ _ _ _ _ Hrun3).
    destruct (sort scores) as [|[best_score best_phone] rest] eqn:Hsort.
    { destruct scores as [|s scores]; [discriminate|].
      assert (s ∈ sort (s :: scores)) as Hs by (apply sort_elem; left).
      rewrite Hsort in Hs. inversion Hs. }
    rewrite run_gets, end_ret.
    assert (best_phone ∈ x :: l) as Hbest.
    { rewrite <- Hscores. apply list_elem_of_fmap. exists (best_score, best_phone).
      split; [reflexivity|]. apply sort_elem. rewrite Hsort. left. }
    destruct (Hin2 _ Hbest) as (Hpool & Hne & [Hclient Hfree]).
    eexists _, _, w3. split; [reflexivity|]. split; [reflexivity|]. rewrite Hlb3.
    split; [right; auto|]. intros _ _ _ _. exact Hne.
Qed.

End Rotation.


(** ** The factors of the priority update *)

(** The chains of comparisons that give the error factor and the flood
    factor test [> 0.20] before [> 0.40] and [> 3] before [> 5], so their
    last branches are never taken: neither factor is ever -2. *)
Theorem priority_factors_never_lowest :
  (∀ error_rate, -1 ≤ error_factor_of error_rate ≤ 2) ∧
  (∀ flood_waits, -1 ≤ flood_factor_of flood_waits ≤ 1) ∧
  (∀ error_rate, (0.40 < error_rate)%Q → error_factor_of error_rate = -1) ∧
  (∀ flood_waits, 5 < flood_waits → flood_factor_of flood_waits = -1).
Proof.
  split; [|split; [|split]].
  - intros error_rate. unfold error_factor_of.
    destruct (Qltb error_rate 0.01); [lia|]. destruct (Qltb error_rate 0.05); [lia|].
    destruct (Qgtb error_rate 0.20) eqn:Hhigh; [lia|].
    destruct (Qgtb error_rate 0.40) eqn:Hvery; [|lia].
    apply Qltb_lt in Hvery. apply Qltb_ge in Hhigh. lra.
  - intros flood_waits. unfold flood_factor_of.
    destruct (flood_waits =? 0); [lia|]. destruct (Z.ltb_spec 3 flood_waits); [lia|].
    destruct (Z.ltb_spec 5 flood_waits); lia.
  - intros error_rate Hrate. unfold error_factor_of.
    assert (Qltb error_rate 0.01 = false) as -> by (apply Qltb_ge; lra).
    assert (Qltb error_rate 0.05 = false) as -> by (apply Qltb_ge; lra).
    assert (Qgtb error_rate 0.20 = true) as -> by (apply Qltb_lt; lra).
    reflexivity.
  - intros flood_waits Hwaits. unfold flood_factor_of.
    destruct (Z.eqb_spec flood_waits 0); [lia|]. destruct (Z.ltb_spec 3 flood_waits); lia.
Qed.

(** ** The properties at concrete objects *)

Lemma pools_without_duplicates_witness :
  NoDup ["A"%string] ∧ NoDup ([] : list string) ∧
  ∀ p, p ∈ ["A"%string] ++ [] →
       is_Some (active_clients (lb (run early_clock middle (one_session ++ one_session))) !! p).
Proof.
  apply (pools_without_duplicates early_clock middle (one_session ++ one_session)
           "general" (mkPool ["A"%string] [])).
  vm_compute. reflexivity.
Defined.

Lemma get_best_client_health_check_raises_witness :
  let w := run frozen_clock middle one_session in
  get_best_client frozen_clock "general" w
  = (Raise no_check_all_sessions_health, mkWorld (lb w) (S (ticks w)) (draws w) (sleeps w)) ∧
  ∀ (func : Client → M Z) operation_type priority_override,
    execute_with_priority frozen_clock middle "general" func operation_type
      priority_override w
    = (Raise no_check_all_sessions_health,
       mkWorld (lb w) (S (ticks w)) (draws w) (sleeps w)).
Proof.
  apply (get_best_client_health_check_raises frozen_clock middle one_session "general").
  intros n. reflexivity.
Defined.

Lemma cooldown_round_trip_witness :
  let w := run early_clock middle one_session in
  let w1 := (cool_down_session early_clock middle "A" "general" w).2 in
  base_cooldown ≤ 300 ≤ max_cooldown ∧
  ∃ n, session_cooldowns (lb w1) !! "A"%string = Some (early_clock n + inject_Z 300)%Q ∧
    ∀ w2, lb w2 = lb w1 →
      let check := is_in_cooldown early_clock "A" w2 in
      check.1 = Ok (negb (Qgtb (early_clock (ticks w2)) (early_clock n + inject_Z 300))) ∧
      (check.1 = Ok false → session_cooldowns (lb check.2) !! "A"%string = None).
Proof.
  apply (cooldown_round_trip early_clock middle "A" "general"
           (run early_clock middle one_session) 300).
  vm_compute. reflexivity.
Defined.

Lemma rotation_returns_alternative_witness :
  let w := run early_clock middle two_sessions in
  let pool := default (mkPool [] []) (sessions (lb w) !! "general"%string) in
  ∃ chosen client w',
    implement_session_rotation early_clock middle "general" (Some "A"%string) w
    = (Ok (Some (chosen, client)), w') ∧
    client = active_clients (lb w') !! chosen ∧
    (chosen = "A"%string ∨
     chosen ∈ primary pool ++ backup pool ∧ is_Some client ∧
     session_cooldowns (lb w') !! chosen = None) ∧
    (∀ other, other ∈ primary pool ++ backup pool → other ≠ "A"%string →
              eligible w other → chosen ≠ "A"%string).
Proof.
  apply (rotation_returns_alternative early_clock middle "general" "A"
           (run early_clock middle two_sessions)).
  discriminate.
Defined.


(** ** When [calculate_adaptive_cooldown] raises *)

Lemma fold_left_Qplus (l : list Q) (a : Q) : (fold_left Qplus l a == a + Qsum l)%Q.
Proof.
  unfold Qsum. revert a. induction l as [|x l IH]; intros a; cbn [fold_left].
  - ring.
  - rewrite (IH (a + x)%Q), (IH (0 + x)%Q). ring.
Qed.

Lemma last_cons_default {A} (b : A) (rest : list A) (a : A) :
  List.last (b :: rest) a = List.last rest b.
Proof.
  revert a b. induction rest as [|c rest IH]; intros a b; [reflexivity|].
  change (List.last (b :: c :: rest) a) with (List.last (c :: rest) a).
  rewrite (IH a c), (IH b c). reflexivity.
Qed.

(** The intervals between consecutive timestamps add up to the distance
    from the first to the last. *)
Lemma intervals_telescope (a : Q) (rest : list Q) :
  (Qsum (intervals_of (a :: rest)) == List.last rest a - a)%Q.
Proof.
  revert a. induction rest as [|b rest IH]; intros a.
  - unfold Qsum. cbn [intervals_of fold_left List.last]. lra.
  - change (intervals_of (a :: b :: rest)) with ((b - a)%Q :: intervals_of (b :: rest)).
    unfold Qsum at 1. cbn [fold_left]. rewrite fold_left_Qplus, IH.
    rewrite (last_cons_default b rest a). ring.
Qed.

Lemma intervals_length (t : list Q) : length (intervals_of t) = (length t - 1)%nat.
Proof.
  induction t as [|a [|b t] IH]; [reflexivity|reflexivity|].
  change (intervals_of (a :: b :: t)) with ((b - a)%Q :: intervals_of (b :: t)).
  cbn [length] in *. rewrite IH. lia.
Qed.

(** Three or more overloads are recorded, the first and the last of them
    with the same timestamp. *)
Definition overloads_at_one_instant (m : Metrics) : Prop :=
  ∃ first rest,
    overload_history m = Some (first :: rest) ∧ (2 ≤ length rest)%nat ∧
    (List.last (oe_timestamp <$> rest) (oe_timestamp first) == oe_timestamp first)%Q.

Definition float_division_by_zero : exn := ZeroDivisionError "float division by zero".

Lemma pattern_adjust_outcome m cooldown_period w :
  (overloads_at_one_instant m ∧
   pattern_adjust m cooldown_period w = (Raise float_division_by_zero, w)) ∨
  (¬ overloads_at_one_instant m ∧
   ∃ adjusted, pattern_adjust m cooldown_period w = (Ok adjusted, w)).
Proof.
  unfold pattern_adjust, overloads_at_one_instant.
  destruct (overload_history m) as [history|];
    [|right; split; [intros (? & ? & ? & _); discriminate|eexists; reflexivity]].
  destruct (Z.leb_spec 3 (len history)) as [Hlen|Hlen].
  2:{ right. split; [|eexists; reflexivity].
      intros (first & rest & [= ->] & Hrest & _). unfold len in Hlen. cbn in Hlen. lia. }
  destruct history as [|first rest]; [unfold len in Hlen; cbn in Hlen; lia|].
  assert (2 ≤ length rest)%nat as Hrest by (unfold len in Hlen; cbn in Hlen; lia).
  cbv zeta.
  set (intervals := intervals_of (oe_timestamp <$> first :: rest)).
  assert (0 < len intervals) as Hpos.
  { unfold len. subst intervals. rewrite intervals_length, length_fmap. cbn [length]. lia. }
  rewrite run_truediv by (apply inject_Z_nonzero, Hpos).
  rewrite run_truediv by (apply inject_Z_nonzero, Hpos).
  assert (Qsum intervals == List.last (oe_timestamp <$> rest) (oe_timestamp first)
                            - oe_timestamp first)%Q as Hsum
    by apply intervals_telescope.
  unfold truediv.
  destruct (Qeq_bool (Qsum intervals / inject_Z (len intervals)) 0) eqn:Hzero.
  - left. split; [|reflexivity]. exists first, rest. split; [reflexivity|].
    split; [exact Hrest|]. apply Qeq_bool_eq in Hzero.
    assert (Qsum intervals == 0)%Q as H0.
    { assert (~ inject_Z (len intervals) == 0)%Q as Hn.
      { intros E. apply Qeq_bool_iff in E.
        rewrite inject_Z_nonzero in E by exact Hpos. discriminate. }
      rewrite <- (Qmult_div_r (Qsum intervals) (inject_Z (len intervals)) Hn).
      rewrite Hzero. ring. }
    rewrite H0 in Hsum. lra.
  - right. split.
    + intros (first' & rest' & [= <- <-] & _ & Hsame).
      assert (Qsum intervals == 0)%Q as H0 by (rewrite Hsum; lra).
      assert (Qeq_bool (Qsum intervals / inject_Z (len intervals)) 0 = true) as Htrue.
      { apply Qeq_bool_iff. rewrite H0. unfold Qdiv. ring. }
      congruence.
    + rewrite run_ret. destruct (Qgtb _ _); eexists; reflexivity.
Qed.

Section Cooldown.
Variable clock : nat → Q.
Variable rand : nat → Q.

Lemma escalate_total history cooldown_period w :
  ∃ r w', escalate clock history cooldown_period w = (Ok r, w') ∧ lb w' = lb w.
Proof.
  unfold escalate. destruct (2 <=? len history); [|eexists _, _; split; reflexivity].
  destruct (filter_recent_total clock cr_timestamp 21600 history w) as (r & w' & Hrun & Hlb).
  rewrite (bind_run _ _ _ _ _ Hrun).
  destruct (repeated_issue_threshold <=? len r); eexists _, _; split; first [reflexivity|exact Hlb].
Qed.

Lemma flood_wait_adjust_total phone m cooldown_period w :
  ∃ r w', flood_wait_adjust clock phone m cooldown_period w = (Ok r, w') ∧ lb w' = lb w.
Proof.
  unfold flood_wait_adjust.
  destruct (last_flood_wait m) as [last|]; [|eexists _, _; split; reflexivity].
  destruct (0 <? last); [|eexists _, _; split; reflexivity].
  rewrite run_gets.
  destruct (filter_recent_total clock fst 3600 (default [] (flood_wait_times (lb w) !! phone)) w)
    as (r & w' & Hrun & Hlb).
  rewrite (bind_run _ _ _ _ _ Hrun).
  destruct (r.*2); eexists _, _; split; first [reflexivity|exact Hlb].
Qed.

(** [calculate_adaptive_cooldown] raises exactly when the session has three
    or more recorded overloads of which the first and the last carry the
    same timestamp: the average interval is then zero and the division by it
    raises [ZeroDivisionError], leaving the object as it was.  In every other
    case it returns a duration between 300 and 3600; for a session without
    metrics, 300 with nothing changed. *)
Theorem calculate_adaptive_cooldown_raises_iff phone error_type w :
  match session_metrics (lb w) !! phone with
  | None => calculate_adaptive_cooldown clock rand phone error_type w = (Ok base_cooldown, w)
  | Some m =>
    (overloads_at_one_instant m ∧
     ∃ w', calculate_adaptive_cooldown clock rand phone error_type w
           = (Raise float_division_by_zero, w') ∧ lb w' = lb w) ∨
    (¬ overloads_at_one_instant m ∧
     ∃ d w', calculate_adaptive_cooldown clock rand phone error_type w = (Ok d, w') ∧
             base_cooldown ≤ d ≤ max_cooldown)
  end.
Proof.
  unfold calculate_adaptive_cooldown. rewrite run_gets.
  destruct (session_metrics (lb w) !! phone) as [m|]; [|reflexivity].
  cbv iota. rewrite run_gets.
  destruct (escalate_total (default [] (session_cooldown_history (lb w) !! phone))
              (inject_Z base_cooldown) w) as (r1 & w1 & Hrun1 & Hlb1).
  rewrite (bind_run _ _ _ _ _ Hrun1). cbv zeta.
  destruct (flood_wait_adjust_total phone m (r1 * severity_weight error_type) w1)
    as (r2 & w2 & Hrun2 & Hlb2).
  rewrite (bind_run _ _ _ _ _ Hrun2).
  destruct (pattern_adjust_outcome m r2 w2) as [[Hsame Hrun3]|[Hnot [r3 Hrun3]]].
  - left. split; [exact Hsame|]. rewrite (bind_stop _ _ _ _ _ Hrun3).
    eexists. split; [reflexivity|congruence].
  - right. split; [exact Hnot|]. rewrite (bind_run _ _ _ _ _ Hrun3).
    repeat exec_step. eexists _, _. split; [reflexivity|]. apply int_of_clamped.
Qed.

End Cooldown.

(** ** The session selected has the highest score *)

Lemma tuple_ltb_true a b : tuple_ltb a b = true → (a.1 <= b.1)%Q.
Proof.
  unfold tuple_ltb. destruct (Qcompare a.1 b.1) eqn:E; try discriminate; intros _.
  - apply Qeq_alt in E. rewrite E. apply Qle_refl.
  - apply Qlt_alt in E. apply Qlt_le_weak, E.
Qed.

Lemma tuple_ltb_false a b : tuple_ltb a b = false → (b.1 <= a.1)%Q.
Proof.
  unfold tuple_ltb. destruct (Qcompare a.1 b.1) eqn:E; try discriminate; intros _.
  - apply Qeq_alt in E. rewrite E. apply Qle_refl.
  - apply Qgt_alt in E. apply Qlt_le_weak, E.
Qed.

(** The head of a list carries a score at least that of every element. *)
Definition led (l : list (Q * string)) : Prop :=
  match l with
  | [] => True
  | h :: _ => ∀ x, x ∈ l → (x.1 <= h.1)%Q
  end.

Lemma insert_descending_led x l : led l → led (insert_descending x l).
Proof.
  destruct l as [|y l]; cbn [insert_descending led].
  - intros _ z Hz. apply list_elem_of_singleton in Hz as ->. apply Qle_refl.
  - intros Hy. destruct (tuple_ltb x y) eqn:E; cbn [led].
    + intros z Hz. apply elem_of_cons in Hz as [->|Hz]; [apply Qle_refl|].
      apply insert_descending_elem in Hz as [->|Hz]; [apply tuple_ltb_true, E|].
      apply Hy. right. exact Hz.
    + intros z Hz. apply elem_of_cons in Hz as [->|Hz]; [apply Qle_refl|].
      eapply Qle_trans; [apply Hy, Hz|apply tuple_ltb_false, E].
Qed.

Lemma sort_reverse_led l : led (sort_reverse l).
Proof.
  induction l as [|x l IH]; [exact I|]. cbn. apply insert_descending_led, IH.
Qed.

(** The priorities and the metrics, from which the scores are computed. *)
Definition scores_fixed (priorities : gmap string Z) (metrics : gmap string Metrics)
    (w : World) : Prop :=
  session_priorities (lb w) = priorities ∧ session_metrics (lb w) = metrics.

Lemma combined_score_fixed self self' phone is_backup :
  session_priorities self' = session_priorities self →
  session_metrics self' = session_metrics self →
  combined_score self' phone is_backup = combined_score self phone is_backup.
Proof. unfold combined_score. intros -> ->. reflexivity. Qed.

Section Scores.
Variable clock : nat → Q.
Variable priorities : gmap string Z.
Variable metrics : gmap string Metrics.

Lemma scored_is_in_cooldown phone :
  triple (scores_fixed priorities metrics) (is_in_cooldown clock phone)
    (λ _ w, scores_fixed priorities metrics w).
Proof.
  intros w Hw. unfold is_in_cooldown. rewrite run_gets.
  destruct (session_cooldowns (lb w) !! phone); [|exact Hw].
  rewrite run_time. destruct (Qgtb _ _); exact Hw.
Qed.

Lemma scored_collect_available is_backup phones :
  triple (scores_fixed priorities metrics) (collect_available clock is_backup phones)
    (λ l w, scores_fixed priorities metrics w ∧
            ∀ x, x ∈ l → x.1 = combined_score (lb w) x.2 is_backup).
Proof.
  induction phones as [|phone phones IH]; cbn [collect_available].
  - apply triple_ret. intros w Hw. split; [exact Hw|]. intros x Hx. inversion Hx.
  - eapply triple_bind; [apply triple_gets|]. intros active.
    eapply triple_bind with (R := λ _ w, scores_fixed priorities metrics w).
    { destruct active.
      - eapply triple_bind.
        + eapply triple_weaken; [apply scored_is_in_cooldown| |intros ? ? H; exact H].
          intros w [Hw _]. exact Hw.
        + intros cooling. apply triple_ret. auto.
      - apply triple_ret. intros w [Hw _]. exact Hw. }
    intros [|]; [|exact IH].
    eapply triple_bind; [apply triple_gets|]. intros score.
    eapply triple_bind with
      (R := λ l w, (scores_fixed priorities metrics w ∧
                    ∀ x, x ∈ l → x.1 = combined_score (lb w) x.2 is_backup) ∧
                   ∀ self, session_priorities self = priorities →
                           session_metrics self = metrics →
                           score = combined_score self phone is_backup).
    { intros w [[Hp Hm] ->]. specialize (IH w (conj Hp Hm)).
      destruct (collect_available clock is_backup phones w) as [[l|e] w1]; [|exact I].
      split; [exact IH|]. intros self H1 H2. apply combined_score_fixed; congruence. }
    intros others. apply triple_ret. intros w [[[Hp Hm] Hothers] Hscore].
    split; [split; assumption|]. intros x Hx. apply elem_of_cons in Hx as [->|Hx].
    + cbn. apply Hscore; assumption.
    + apply Hothers, Hx.
Qed.

End Scores.

(** The priority update of [get_best_client], due or not, leaves the pools,
    the clients and the cooldowns. *)
Lemma run_priority_update {B} clock (due : bool) t (k : unit → M B) w :
  ∃ w1,
    bind (if due
          then bind (update_session_priorities clock)
                 (λ _, modify (set_last_priority_update t))
          else skip) k w = k tt w1 ∧
    selecting w w1.
Proof.
  destruct due.
  - unfold update_session_priorities.
    rewrite !bind_assoc, run_time, run_modify, run_modify. norm_world.
    eexists. split; [reflexivity|].
    destruct (update_priorities_clients (clock (ticks w))
                (map_to_list (session_metrics (lb w))) (lb w)) as (H1 & H2 & H3).
    split; norm_world; [exact H2|]. split; norm_world; [exact H1|].
    intros p Hp. rewrite H3. exact Hp.
  - rewrite run_skip. eexists. split; [reflexivity|]. split; [reflexivity|].
    apply shrinks_refl.
Qed.

(** Under the conditions in which [get_best_client] finds an eligible
    session (the health check not due, a session of the pool with a client
    and no cooldown entry), the session it returns has the highest combined
    score of the list it was taken from: the primary list, or the backup
    list when no session of the primary list was eligible; the scores are
    those of the object the call leaves. *)
Theorem get_best_client_picks_highest clock purpose w pool phone :
  Qgtb (clock (ticks w) - last_health_check (lb w)) HEALTH_CHECK_INTERVAL = false →
  match sessions (lb w) !! purpose with
  | Some p => Some p
  | None => sessions (lb w) !! "general"%string
  end = Some pool →
  phone ∈ primary pool ++ backup pool →
  eligible w phone →
  ∃ best client w' (is_backup : bool),
    get_best_client clock purpose w = (Ok (Some (best, Some client)), w') ∧
    best ∈ (if is_backup then backup pool else primary pool) ∧
    (is_backup = true → ∀ p, p ∈ primary pool → ¬ eligible w p) ∧
    ∀ p, p ∈ (if is_backup then backup pool else primary pool) → eligible w p →
         (combined_score (lb w') p is_backup <= combined_score (lb w') best is_backup)%Q.
Proof.
  intros Hdue Hpool Hin Hel. unfold get_best_client.
  rewrite run_time, run_gets. norm_world. rewrite Hdue, run_skip, run_gets. norm_world.
  (* the priority update *)
  match goal with
  | |- context [@bind unit _ (if ?c then ?m else skip) ?k ?w0] =>
    lazymatch m with
    | context [set_last_priority_update ?t] =>
      destruct (run_priority_update clock c t k w0) as (w1 & Hupd & Hses & Hshr);
      rewrite Hupd; clear Hupd
    end
  end.
  change (sessions (lb w1) = sessions (lb w)) in Hses.
  change (shrinks w w1) in Hshr.
  cbv beta. rewrite run_gets, Hses, Hpool. cbv iota.
  assert (eligible w1 phone) as Hel1 by (eapply eligible_shrinks; eassumption).
  (* the primary pool *)
  destruct (collect_available_total clock false (primary pool) w1)
    as (l1 & w2 & Hrun1 & Hs1 & Hin1 & Hall1).
  pose proof (scored_collect_available clock _ _ false (primary pool) w1
                (conj eq_refl eq_refl)) as Hsc1.
  rewrite Hrun1 in Hsc1. destruct Hsc1 as [[Hp2 Hm2] Hsc1].
  rewrite (bind_run _ _ _ _ _ Hrun1). cbv beta.
  (* the backup pool, if needed *)
  assert (∃ l w3 (is_backup : bool),
    match l1 with
    | [] => collect_available clock true (backup pool)
    | _ :: _ => ret l1
    end w2 = (Ok l, w3) ∧ shrinks w w3 ∧ l ≠ [] ∧
    (is_backup = true → ∀ p, p ∈ primary pool → ¬ eligible w p) ∧
    (∀ x, x ∈ l → x.2 ∈ (if is_backup then backup pool else primary pool) ∧
                  eligible w3 x.2 ∧ x.1 = combined_score (lb w3) x.2 is_backup) ∧
    (∀ p, p ∈ (if is_backup then backup pool else primary pool) → eligible w p →
          p ∈ l.*2))
    as (l & w3 & is_backup & Hrun2 & Hs3 & Hne & Hnone & Hin3 & Hall3).
  { destruct l1 as [|x l1].
    - assert (∀ p, p ∈ primary pool → ¬ eligible w p) as Hnone.
      { intros p Hp Hep.
        assert (p ∈ ([] : list (Q * string)).*2) as Hbad
          by (apply Hall1; [exact Hp|eapply eligible_shrinks; eassumption]).
        inversion Hbad. }
      destruct (collect_available_total clock true (backup pool) w2)
        as (l2 & w3 & Hrun2 & Hs2 & Hin2 & Hall2).
      pose proof (scored_collect_available clock _ _ true (backup pool) w2
                    (conj eq_refl eq_refl)) as Hsc2.
      rewrite Hrun2 in Hsc2. destruct Hsc2 as [_ Hsc2].
      assert (shrinks w w3) as Hs3
        by (eapply shrinks_trans; [exact Hshr|]; eapply shrinks_trans; eassumption).
      exists l2, w3, true. split; [exact Hrun2|]. split; [exact Hs3|].
      split; [|split; [intros _; exact Hnone|split]].
      + apply elem_of_app in Hin as [Hin|Hin]; [exfalso; exact (Hnone _ Hin Hel)|].
        assert (phone ∈ l2.*2) as Hl2.
        { apply Hall2; [exact Hin|].
          eapply eligible_shrinks; [exact Hs1|exact Hel1]. }
        intros ->. inversion Hl2.
      + intros x Hx.
        assert (x.2 ∈ l2.*2) as Hx2 by (apply list_elem_of_fmap; eauto).
        destruct (Hin2 _ Hx2) as [H1 H2]. split; [exact H1|]. split; [exact H2|].
        apply Hsc2, Hx.
      + intros p Hp Hep. apply Hall2; [exact Hp|].
        eapply eligible_shrinks; [exact Hs1|]. eapply eligible_shrinks; eassumption.
    - exists (x :: l1), w2, false. split; [reflexivity|].
      split; [eapply shrinks_trans; eassumption|]. split; [discriminate|].
      split; [discriminate|]. split.
      + intros y Hy.
        assert (y.2 ∈ (x :: l1).*2) as Hy2 by (apply list_elem_of_fmap; eauto).
        destruct (Hin1 _ Hy2) as [H1 H2]. split; [exact H1|]. split; [exact H2|].
        apply Hsc1, Hy.
      + intros p Hp Hep. apply Hall1; [exact Hp|]. eapply eligible_shrinks; eassumption. }
  rewrite (bind_run _ _ _ _ _ Hrun2). cbv beta.
  pose proof (sort_reverse_led l) as Hled.
  destruct (sort_reverse l) as [|[best_score best_phone] rest] eqn:Hsort.
  { destruct l as [|x l]; [congruence|].
    assert (x ∈ sort_reverse (x :: l)) as Hx by (apply sort_reverse_elem; left).
    rewrite Hsort in Hx. inversion Hx. }
  rewrite run_gets, end_ret.
  assert ((best_score, best_phone) ∈ l) as Hbest
    by (apply sort_reverse_elem; rewrite Hsort; left).
  destruct (Hin3 _ Hbest) as (Hpoolin & [[client Hclient] _] & Hscore). cbn [fst snd] in *.
  exists best_phone, client, w3, is_backup. rewrite Hclient.
  split; [reflexivity|]. split; [exact Hpoolin|]. split; [exact Hnone|].
  intros p Hp Hep. specialize (Hall3 p Hp Hep).
  apply list_elem_of_fmap in Hall3 as ([s p'] & -> & Hsp).
  destruct (Hin3 _ Hsp) as (_ & _ & Hs). cbn [fst snd] in *. rewrite <- Hs, <- Hscore.
  apply (Hled (s, p')). rewrite <- Hsort. apply sort_reverse_elem. exact Hsp.
Qed.

(** ** What the metrics can hold *)

(** The status is absent, cooling or overloaded; a session is marked as
    consistently good only with a streak of 5 or more; and the counters of
    consecutive errors and of successes since the last issue are not
    negative. *)
Definition sound (m : Metrics) : Prop :=
  (status m = None ∨ status m = Some STATUS_COOLING ∨ status m = Some STATUS_OVERLOADED) ∧
  (consistent_good_behavior m = Some true → 5 ≤ default 0 (good_behavior_streak m)) ∧
  0 ≤ default 0 (consecutive_errors m) ∧
  0 ≤ default 0 (successful_ops_since_last_issue m) ∧
  0 ≤ default 0 (good_behavior_streak m).

Definition metrics_sound (self : LoadBalancer) : Prop :=
  map_Forall (λ _ m, sound m) (session_metrics self).

Definition sound_kept (g : Metrics → Metrics) : Prop := ∀ m, sound m → sound (g m).

Ltac sound_kept_tac :=
  idtac; lazymatch goal with
  | |- sound_kept _ =>
    let m := fresh "m" in
    intros m; unfold sound, track_consistency; cbv beta zeta;
    repeat match goal with
    | |- context [if (?a <? ?b)%Z then _ else _] => destruct (Z.ltb_spec a b)
    | |- context [if (?a <=? ?b)%Z then _ else _] => destruct (Z.leb_spec a b)
    | |- context [match ?x with _ => _ end] => destruct x eqn:?
    end;
    let Hgood := fresh "Hgood" in let Hflag := fresh "Hflag" in
    intros (? & Hgood & ? & ? & ?); cbn in *;
    repeat split;
    first [ assumption | lia | discriminate | tauto
          | intros Hflag; first [discriminate | specialize (Hgood Hflag); lia] ]
  end.

Lemma sound_same self self' :
  session_metrics self' = session_metrics self → metrics_sound self → metrics_sound self'.
Proof. unfold metrics_sound. intros ->. auto. Qed.

Lemma sound_alter g phone self :
  sound_kept g → metrics_sound self →
  metrics_sound (set_session_metrics (alter g phone (session_metrics self)) self).
Proof.
  intros Hg Hm phone' m'. cbn. rewrite lookup_alter.
  case_decide as E; [|apply Hm]. subst phone'.
  destruct (session_metrics self !! phone) as [m|] eqn:Em; [|discriminate].
  intros [= <-]. apply Hg. exact (Hm _ _ Em).
Qed.

Lemma sound_insert phone m self :
  sound m → metrics_sound self →
  metrics_sound (set_session_metrics (<[phone := m]> (session_metrics self)) self).
Proof. intros Hm Hms. apply map_Forall_insert_2; assumption. Qed.

Lemma sound_registered : sound registered_metrics.
Proof. unfold sound. cbn. repeat split; first [tauto | discriminate | lia]. Qed.

Lemma sound_empty : sound empty_metrics.
Proof. unfold sound. cbn. repeat split; first [tauto | discriminate | lia]. Qed.

Lemma sound_update_priority t items : ∀ self,
  metrics_sound self → metrics_sound (foldl (update_priority t) self items).
Proof.
  induction items as [|item items IH]; intros self H; [exact H|].
  cbn [foldl]. apply IH. unfold update_priority.
  repeat case_match; try (apply sound_alter; [sound_kept_tac|]);
    repeat first [assumption | eapply sound_same; [reflexivity|]].
Qed.

Ltac sound_leaf :=
  idtac; lazymatch goal with
  | |- keeps (on_lb metrics_sound) (modify_metrics _ _) =>
    apply keeps_modify; let self := fresh "self" in let H := fresh "H" in
    intros self H; apply sound_alter; [sound_kept_tac|exact H]
  | |- keeps (on_lb metrics_sound) (modify _) =>
    apply keeps_modify; let self := fresh "self" in let H := fresh "H" in
    intros self H;
    first [ apply sound_update_priority; exact H
          | repeat case_match;
            first [ exact H
                  | apply sound_insert; [first [apply sound_registered|apply sound_empty]|exact H]
                  | eapply sound_same; [reflexivity|exact H] ] ]
  | |- _ => keeps_helpers ltac:(intros ? ?; apply sound_same; reflexivity)
  end.

Lemma sound_after clock rand c w :
  on_lb metrics_sound w → on_lb metrics_sound (after clock rand c w).
Proof.
  intros H. keeps_call;
    repeat first [ sound_leaf | keeps_step | progress unfold_methods_but_metrics ].
Qed.

Lemma sound_run clock rand calls : metrics_sound (lb (run clock rand calls)).
Proof.
  unfold run. induction calls as [|c calls IH] using rev_ind.
  - apply map_Forall_empty.
  - rewrite foldl_app. cbn [foldl]. apply sound_after. exact IH.
Qed.

(** On the object reached by any sequence of calls, in every metrics
    dictionary: the status is absent, "cooling" or "overloaded" (no method
    ever sets "healthy", "degraded" or "disabled", so a status once set
    never goes back to healthy); [consistent_good_behavior] is [True] only
    with a good-behaviour streak of at least 5; and the counters of
    consecutive errors and of successes since the last issue are not
    negative. *)
Theorem metrics_stay_sound clock rand calls phone m :
  session_metrics (lb (run clock rand calls)) !! phone = Some m →
  (status m = None ∨ status m = Some STATUS_COOLING ∨ status m = Some STATUS_OVERLOADED) ∧
  (consistent_good_behavior m = Some true → 5 ≤ default 0 (good_behavior_streak m)) ∧
  0 ≤ default 0 (consecutive_errors m) ∧
  0 ≤ default 0 (successful_ops_since_last_issue m).
Proof.
  intros Hm. destruct (sound_run clock rand calls _ _ Hm) as (H1 & H2 & H3 & H4 & _). auto.
Qed.

(** ** The last resort reads a status that may be missing *)

(** The status of a session: [None] without metrics, [Some None] with
    metrics that have no ["status"] key. *)
Definition status_of (self : LoadBalancer) (phone : string) : option (option Status) :=
  status <$> session_metrics self !! phone.

(** A session the last resort passes over: it has no client, or no metrics,
    or it is cooling. *)
Definition passed_over (self : LoadBalancer) (phone : string) : Prop :=
  active_clients self !! phone = None ∨ status_of self phone = None ∨
  status_of self phone = Some (Some STATUS_COOLING).

(** A session with a client whose metrics have no status. *)
Definition without_status (self : LoadBalancer) (phone : string) : Prop :=
  is_Some (active_clients self !! phone) ∧ status_of self phone = Some None.

(** [phone] is the first session of [phones] that the last resort does not
    pass over, and it has no status. *)
Definition first_without_status (self : LoadBalancer) (phones : list string)
    (phone : string) : Prop :=
  ∃ before after, phones = before ++ phone :: after ∧
    Forall (passed_over self) before ∧ without_status self phone.

Definition missing_status : exn := KeyError "'status'".

Lemma last_resort_passes phones w :
  Forall (passed_over (lb w)) phones → last_resort phones w = (Ok None, w).
Proof.
  induction phones as [|p phones IH]; intros Hall; [reflexivity|].
  apply Forall_cons in Hall as [Hp Hall]. cbn [last_resort]. rewrite !run_gets.
  unfold passed_over, status_of in Hp.
  destruct (active_clients (lb w) !! p); [|apply IH, Hall].
  destruct (session_metrics (lb w) !! p) as [m|]; [|apply IH, Hall].
  destruct Hp as [Hp|[Hp|Hp]]; try discriminate. injection Hp as ->.
  rewrite bool_decide_eq_false_2 by (intros H; apply H; reflexivity). apply IH, Hall.
Qed.

Lemma last_resort_missing_status phones phone w :
  first_without_status (lb w) phones phone →
  last_resort phones w = (Raise missing_status, w).
Proof.
  intros (before & after & -> & Hbefore & [[c Hc] Hs]).
  induction before as [|p before IH]; cbn [app last_resort]; rewrite !run_gets.
  - unfold status_of in Hs. rewrite Hc.
    destruct (session_metrics (lb w) !! phone) as [m|]; [|discriminate].
    injection Hs as ->. reflexivity.
  - apply Forall_cons in Hbefore as [Hp Hbefore]. specialize (IH Hbefore).
    unfold passed_over, status_of in Hp.
    destruct (active_clients (lb w) !! p); [|exact IH].
    destruct (session_metrics (lb w) !! p) as [m|]; [|exact IH].
    destruct Hp as [Hp|[Hp|Hp]]; try discriminate. injection Hp as ->.
    rewrite bool_decide_eq_false_2 by (intros H; apply H; reflexivity). exact IH.
Qed.

Lemma status_of_update_priority t item self phone :
  status_of (update_priority t self item) phone = status_of self phone.
Proof.
  unfold status_of. destruct (update_priority_frame t self item) as [_ [->|[good ->]]];
    [reflexivity|].
  rewrite lookup_alter. case_decide as E; [|reflexivity]. subst phone.
  destruct (session_metrics self !! item.1); [|reflexivity].
  cbn. rewrite track_consistency_status. reflexivity.
Qed.

Lemma status_of_update_priorities t items : ∀ self phone,
  status_of (foldl (update_priority t) self items) phone = status_of self phone.
Proof.
  induction items as [|item items IH]; intros self phone; [reflexivity|].
  cbn [foldl]. rewrite IH. apply status_of_update_priority.
Qed.

(** What the selection reads is the same in both worlds. *)
Definition same_selection (w w1 : World) : Prop :=
  sessions (lb w1) = sessions (lb w) ∧ active_clients (lb w1) = active_clients (lb w) ∧
  session_cooldowns (lb w1) = session_cooldowns (lb w) ∧ (ticks w ≤ ticks w1)%nat ∧
  ∀ phone, status_of (lb w1) phone = status_of (lb w) phone.

Lemma run_priority_update_same {B} clock (due : bool) t (k : unit → M B) w :
  ∃ w1,
    bind (if due
          then bind (update_session_priorities clock)
                 (λ _, modify (set_last_priority_update t))
          else skip) k w = k tt w1 ∧
    same_selection w w1.
Proof.
  destruct due.
  - unfold update_session_priorities.
    rewrite !bind_assoc, run_time, run_modify, run_modify. norm_world.
    eexists. split; [reflexivity|].
    destruct (update_priorities_clients (clock (ticks w))
                (map_to_list (session_metrics (lb w))) (lb w)) as (H1 & H2 & H3).
    repeat split; norm_world; try assumption; [lia|].
    intros phone. unfold status_of at 1. norm_world.
    apply (status_of_update_priorities (clock (ticks w)) _ (lb w) phone).
  - rewrite run_skip. eexists. split; [reflexivity|]. repeat split. lia.
Qed.

Section AllCooling.
Variable clock : nat → Q.

(** Every session of [phones] that has a client is in a cooldown that no
    reading of the clock from the [n0]-th on exceeds. *)
Definition all_cooling (self : LoadBalancer) (n0 : nat) (phones : list string) : Prop :=
  ∀ p, p ∈ phones → is_Some (active_clients self !! p) →
       ∃ t, session_cooldowns self !! p = Some t ∧ ∀ n, (n0 ≤ n)%nat → (clock n <= t)%Q.

Lemma collect_available_none is_backup phones : ∀ w,
  all_cooling (lb w) (ticks w) phones →
  ∃ w', collect_available clock is_backup phones w = (Ok [], w') ∧
        lb w' = lb w ∧ (ticks w ≤ ticks w')%nat.
Proof.
  induction phones as [|phone phones IH]; intros w Hall; cbn [collect_available].
  - exists w. auto.
  - rewrite run_gets.
    assert (all_cooling (lb w) (ticks w) phones) as Hrest
      by (intros p Hp; apply Hall; right; exact Hp).
    case_bool_decide as Hactive.
    + destruct (Hall phone ltac:(left) Hactive) as (t & Ht & Hclock).
      unfold is_in_cooldown. rewrite !bind_assoc, run_gets, Ht. cbv iota.
      rewrite !bind_assoc, run_time.
      assert (Qgtb (clock (ticks w)) t = false) as -> by (apply Qltb_ge, Hclock; lia).
      rewrite !run_ret. cbn [negb]. cbv iota.
      match goal with
      | |- context [collect_available _ _ _ ?w1] =>
        destruct (IH w1) as (w' & Hrun & Hlb & Hticks)
      end.
      { intros p Hp Hc. destruct (Hrest p Hp Hc) as (t' & Ht' & Hclock').
        exists t'. split; [exact Ht'|]. intros n Hn. apply Hclock'. cbn in Hn. lia. }
      exists w'. split; [exact Hrun|]. split; [exact Hlb|]. cbn in Hticks. lia.
    + rewrite run_ret. cbv iota. apply IH, Hrest.
Qed.

(** When the health check is not due and every session of the pool that has
    a client is in an active cooldown, [get_best_client] falls to its last
    resort, which reads [metrics["status"]] of the first session that has a
    client and metrics: if that session was never cooled or found
    overloaded since its metrics were created, the key is missing and
    [get_best_client] raises [KeyError] instead of returning. *)
Theorem get_best_client_missing_status purpose w pool phone :
  Qgtb (clock (ticks w) - last_health_check (lb w)) HEALTH_CHECK_INTERVAL = false →
  match sessions (lb w) !! purpose with
  | Some p => Some p
  | None => sessions (lb w) !! "general"%string
  end = Some pool →
  all_cooling (lb w) (ticks w) (primary pool ++ backup pool) →
  first_without_status (lb w) (primary pool) phone ∨
  Forall (passed_over (lb w)) (primary pool) ∧
  first_without_status (lb w) (backup pool) phone →
  (get_best_client clock purpose w).1 = Raise missing_status.
Proof.
  intros Hdue Hpool Hcool Hfirst. unfold get_best_client.
  rewrite run_time, run_gets. norm_world. rewrite Hdue, run_skip, run_gets. norm_world.
  match goal with
  | |- context [@bind unit _ (if ?c then ?m else skip) ?k ?w0] =>
    lazymatch m with
    | context [set_last_priority_update ?t] =>
      destruct (run_priority_update_same clock c t k w0)
        as (w1 & Hupd & Hses & Hclients & Hcd & Hticks & Hstatus);
      rewrite Hupd; clear Hupd
    end
  end.
  cbn [lb ticks] in Hses, Hclients, Hcd, Hticks, Hstatus.
  cbv beta. rewrite run_gets, Hses, Hpool. cbv iota.
  assert (all_cooling (lb w1) (ticks w1) (primary pool ++ backup pool)) as Hcool1.
  { intros p Hp Hc. rewrite Hclients in Hc. destruct (Hcool p Hp Hc) as (t & Ht & Hclock).
    exists t. rewrite Hcd. split; [exact Ht|]. intros n Hn. apply Hclock. lia. }
  assert (∀ p, passed_over (lb w) p → passed_over (lb w1) p) as Hpass.
  { intros p. unfold passed_over. rewrite Hclients, Hstatus. auto. }
  assert (∀ phones p, first_without_status (lb w) phones p →
                      first_without_status (lb w1) phones p) as Hkeep.
  { intros phones p (before & after & -> & Hbefore & Hwithout).
    exists before, after. split; [reflexivity|]. split.
    - eapply Forall_impl; [exact Hbefore|]. exact Hpass.
    - unfold without_status in *. rewrite Hclients, Hstatus. exact Hwithout. }
  destruct (collect_available_none false (primary pool) w1) as (w2 & Hrun2 & Hlb2 & Hticks2).
  { intros p Hp. apply Hcool1, elem_of_app. left. exact Hp. }
  rewrite (bind_run _ _ _ _ _ Hrun2). cbv beta iota.
  destruct (collect_available_none true (backup pool) w2) as (w3 & Hrun3 & Hlb3 & Hticks3).
  { intros p Hp Hc. rewrite Hlb2 in *.
    destruct (Hcool1 p ltac:(apply elem_of_app; right; exact Hp) Hc) as (t & Ht & Hclock).
    exists t. split; [exact Ht|]. intros n Hn. apply Hclock. lia. }
  rewrite (bind_run _ _ _ _ _ Hrun3). cbv beta. cbn [sort_reverse fold_right].
  assert (lb w3 = lb w1) as Hlb by congruence.
  destruct Hfirst as [Hfirst|[Hnone Hfirst]].
  - apply Hkeep in Hfirst. rewrite <- Hlb in Hfirst.
    rewrite (bind_stop _ _ _ _ _ (last_resort_missing_status _ _ _ Hfirst)). reflexivity.
  - apply Hkeep in Hfirst. rewrite <- Hlb in Hfirst.
    assert (Forall (passed_over (lb w3)) (primary pool)) as Hnone3.
    { rewrite Hlb. eapply Forall_impl; [exact Hnone|]. exact Hpass. }
    rewrite (bind_run _ _ _ _ _ (last_resort_passes _ _ Hnone3)). cbv iota.
    rewrite (last_resort_missing_status _ _ _ Hfirst). reflexivity.
Qed.

End AllCooling.

(** ** The delay of [execute_with_priority] *)

(** The sleeps taken so far are [s]. *)
Definition slept (s : list Q) : World → Prop := λ w, sleeps w = s.

Lemma slept_modify s f : keeps (slept s) (modify f).
Proof. intros w Hw. exact Hw. Qed.

Lemma slept_time s clock : keeps (slept s) (time_time clock).
Proof. intros w Hw. exact Hw. Qed.

Lemma slept_uniform s rand a b : keeps (slept s) (uniform rand a b).
Proof. intros w Hw. exact Hw. Qed.

Ltac slept_leaf :=
  idtac; lazymatch goal with
  | |- keeps (slept _) (modify _) => apply slept_modify
  | |- keeps (slept _) (modify_metrics _ _) => apply slept_modify
  | |- keeps (slept _) (time_time _) => apply slept_time
  | |- keeps (slept _) (uniform _ _ _) => apply slept_uniform
  end.

Section Slept.
Variable clock : nat → Q.
Variable s : list Q.

Lemma slept_is_in_cooldown phone : keeps (slept s) (is_in_cooldown clock phone).
Proof. keeps_auto slept_leaf. Qed.

Lemma slept_collect_available b l : keeps (slept s) (collect_available clock b l).
Proof.
  induction l; cbn [collect_available];
    keeps_auto ltac:(first [assumption | apply slept_is_in_cooldown | slept_leaf]).
Qed.

Lemma slept_last_resort l : keeps (slept s) (last_resort l).
Proof. induction l; cbn [last_resort]; keeps_auto ltac:(first [assumption | slept_leaf]). Qed.

Lemma slept_get_best_client purpose : keeps (slept s) (get_best_client clock purpose).
Proof.
  keeps_auto ltac:(first [ apply slept_collect_available | apply slept_last_resort
                         | slept_leaf ]).
Qed.

Lemma slept_record_operation phone success error fw ot :
  keeps (slept s) (record_operation clock phone success error fw ot).
Proof. keeps_auto slept_leaf. Qed.

End Slept.

Lemma throttle_delay_range (factor sample : Q) :
  (1 <= factor <= 5)%Q → (0 <= sample <= 1)%Q →
  ((factor - 1.0) * (0.5 + (1.5 - 0.5) * sample) <= 6)%Q.
Proof.
  intros [H1 H5] [H0 Hs].
  apply Qle_trans with ((5 - 1.0) * (0.5 + (1.5 - 0.5) * sample))%Q.
  - apply Qmult_le_compat_r; lra.
  - lra.
Qed.

(** Before it runs the operation, [execute_with_priority] sleeps at most
    once, for more than 0.1 and at most 6 seconds, whatever the priority of
    the session or the override; nothing else in the call sleeps.  (The
    operation here is one that does not sleep itself.) *)
Theorem execute_with_priority_delay clock rand calls purpose outcome operation_type
    priority_override :
  (∀ n, (0 <= rand n <= 1)%Q) →
  let w := run clock rand calls in
  let done := execute_with_priority clock rand purpose (operation_of outcome) operation_type
                priority_override w in
  sleeps done.2 = sleeps w ∨
  ∃ delay, sleeps done.2 = sleeps w ++ [delay] ∧ (0.1 < delay <= 6)%Q.
Proof.
  intros Hrand. cbv zeta. set (w := run clock rand calls).
  unfold execute_with_priority.
  pose proof (slept_get_best_client clock (sleeps w) purpose w eq_refl) as Hs1.
  pose proof (in_range_after clock rand (GetBestClient purpose) w
                (in_range_run clock rand calls)) as Hrange.
  cbn [after] in Hrange. unfold on_lb in Hrange.
  destruct (get_best_client clock purpose w) as [[best|e] w1] eqn:Hbest; cbn [snd] in *.
  2:{ rewrite (bind_stop _ _ _ _ _ Hbest). left. exact Hs1. }
  rewrite (bind_run _ _ _ _ _ Hbest).
  destruct best as [[phone [client|]]|]; cbv iota; try (left; exact Hs1).
  (* the throttle factor *)
  assert (∃ factor, (1 <= factor <= 5)%Q ∧ ∀ B (k : Q → M B),
            bind match priority_override with
                 | Some override =>
                   ret (throttle_factor_of (Z.max (Z.min override max_priority) min_priority))
                 | None => apply_priority_throttling phone
                 end k w1 = k factor w1) as (factor & Hfactor & ->).
  { destruct priority_override as [override|].
    - eexists. split; [|reflexivity]. apply throttle_factor_range.
      unfold max_priority, min_priority. lia.
    - eexists. split; [|reflexivity]. apply throttle_factor_range.
      destruct (session_priorities (lb w1) !! phone) as [p|] eqn:Hp; cbn.
      + exact (Hrange _ _ Hp).
      + unfold default_priority. lia. }
  (* the delay *)
  assert (∃ w2, lb w2 = lb w1 ∧
            (sleeps w2 = sleeps w ∨
             ∃ delay, sleeps w2 = sleeps w ++ [delay] ∧ (0.1 < delay <= 6)%Q) ∧
            ∀ B (k : unit → M B),
              bind (if Qgtb factor 1.0
                    then bind (uniform rand 0.5 1.5)
                           (λ sample,
                              if Qgtb ((factor - 1.0) * sample) 0.1
                              then sleep ((factor - 1.0) * sample) else skip)
                    else skip) k w1 = k tt w2) as (w2 & Hlb2 & Hs2 & ->).
  { destruct (Qgtb factor 1.0); [|exists w1; auto].
    destruct (Qgtb ((factor - 1.0) * (0.5 + (1.5 - 0.5) * rand (draws w1))) 0.1) eqn:Hbig.
    - eexists. split; [|split]; [| |intros B k; rewrite bind_assoc, run_uniform, Hbig, run_sleep;
                                      reflexivity]; norm_world; [reflexivity|].
      right. eexists. rewrite Hs1. split; [reflexivity|]. split.
      + apply Qltb_lt, Hbig.
      + apply throttle_delay_range; [exact Hfactor|apply Hrand].
    - eexists. split; [|split]; [| |intros B k; rewrite bind_assoc, run_uniform, Hbig, run_skip;
                                      reflexivity]; norm_world; [reflexivity|].
      left. exact Hs1. }
  rewrite run_try.
  assert ((operation_of outcome client w2).2 = w2) as Hsame
    by (destruct outcome; reflexivity).
  destruct (recorded (operation_of outcome client w2).1) as [[success error] fw].
  rewrite Hsame.
  pose proof (slept_record_operation clock (sleeps w2) phone success error fw operation_type
                w2 eq_refl) as Hs3.
  destruct (record_operation clock phone success error fw operation_type w2)
    as [[[]|e] w3] eqn:Hrec; cbn [snd] in Hs3.
  - rewrite (bind_run _ _ _ _ _ Hrec).
    destruct (operation_of outcome client w2).1; rewrite end_ret; cbn [snd];
      unfold slept in Hs3; rewrite Hs3; exact Hs2.
  - rewrite (bind_stop _ _ _ _ _ Hrec). cbn [snd]. unfold slept in Hs3.
    rewrite Hs3. exact Hs2.
Qed.

(** ** The flood-wait seconds read from a message *)

(** No character of the text is a digit. *)
Fixpoint digit_free (s : string) : bool :=
  match s with
  | EmptyString => true
  | String c s' => negb (is_digit c) && digit_free s'
  end.

Definition starts_with_digit (s : string) : bool :=
  match s with
  | EmptyString => false
  | String c _ => is_digit c
  end.

Lemma is_digit_lower c : is_digit (lower_char c) = is_digit c.
Proof. destruct c as [[] [] [] [] [] [] [] []]; reflexivity. Qed.

Lemma lower_app a b : lower (a +:+ b) = lower a +:+ lower b.
Proof.
  induction a as [|c a IH]; [reflexivity|].
  change (String (lower_char c) (lower (a +:+ b))
          = String (lower_char c) (lower a +:+ lower b)).
  rewrite IH. reflexivity.
Qed.

Lemma digit_free_lower s : digit_free (lower s) = digit_free s.
Proof.
  induction s as [|c s IH]; [reflexivity|]. cbn [lower digit_free].
  rewrite is_digit_lower, IH. reflexivity.
Qed.

Lemma starts_with_digit_lower s : starts_with_digit (lower s) = starts_with_digit s.
Proof. destruct s as [|c s]; [reflexivity|]. cbn. apply is_digit_lower. Qed.

Lemma lower_decimal d : lower (NilEmpty.string_of_uint d) = NilEmpty.string_of_uint d.
Proof. induction d; cbn [NilEmpty.string_of_uint lower]; rewrite ?IHd; reflexivity. Qed.

Lemma leading_number_stops post acc :
  starts_with_digit post = false → leading_number post acc = acc.
Proof. destruct post as [|c post]; [reflexivity|]. cbn. intros ->. reflexivity. Qed.

Lemma leading_number_decimal d post : ∀ acc,
  starts_with_digit post = false →
  leading_number (NilEmpty.string_of_uint d +:+ post) (Z.pos acc)
  = Z.pos (Pos.of_uint_acc d acc).
Proof.
  induction d; intros acc Hpost;
    [apply leading_number_stops, Hpost|..];
    cbn [NilEmpty.string_of_uint Pos.of_uint_acc];
    match goal with
    | |- leading_number (String ?c ?s +:+ _) _ = _ =>
      change (String c s +:+ post) with (String c (s +:+ post))
    end;
    cbn [leading_number];
    match goal with
    | |- context [is_digit ?c] => change (is_digit c) with true
    end;
    cbv iota;
    match goal with
    | |- leading_number _ ?a = Z.pos (Pos.of_uint_acc _ ?p) =>
      replace a with (Z.pos p)
        by (match goal with
            | |- _ = _ + ?k => let k' := eval vm_compute in k in change k with k'
            end; lia)
    end;
    apply IHd, Hpost.
Qed.

Lemma leading_number_value d post :
  starts_with_digit post = false →
  leading_number (NilEmpty.string_of_uint d +:+ post) 0 = Z.of_N (Pos.of_uint d).
Proof.
  intros Hpost. induction d;
    [apply leading_number_stops, Hpost|..];
    cbn [NilEmpty.string_of_uint Pos.of_uint];
    match goal with
    | |- leading_number (String ?c ?s +:+ _) _ = _ =>
      change (String c s +:+ post) with (String c (s +:+ post))
    end;
    cbn [leading_number];
    match goal with
    | |- context [is_digit ?c] => change (is_digit c) with true
    end;
    cbv iota;
    first [ exact IHd
          | match goal with
            | |- leading_number _ ?a = Z.of_N (N.pos (Pos.of_uint_acc _ ?p)) =>
              change a with (Z.pos p)
            end;
            apply leading_number_decimal, Hpost ].
Qed.

Lemma decimal_head d :
  d ≠ Decimal.Nil →
  ∃ c s, NilEmpty.string_of_uint d = String c s ∧ is_digit c = true.
Proof. destruct d; [contradiction|..]; intros _; eexists _, _; split; reflexivity. Qed.

(** The decimal text of a natural number is read back as that number. *)
Lemma search_number_decimal n post :
  0 ≤ n → starts_with_digit post = false →
  search_number (Floodwait.str_of_int n +:+ post) = Some n.
Proof.
  intros Hn Hpost. unfold Floodwait.str_of_int. destruct n as [|p|p]; [| |lia].
  - change (NilZero.string_of_int (Z.to_int 0) +:+ post) with (String "0" post).
    cbn [search_number].
    change (is_digit "0") with true. cbv iota. cbn [leading_number].
    change (is_digit "0") with true. cbv iota.
    rewrite leading_number_stops by exact Hpost. reflexivity.
  - cbn [Z.to_int NilZero.string_of_int]. unfold NilZero.string_of_uint.
    pose proof (DecimalPos.Unsigned.to_uint_nonnil p) as Hnil.
    assert (match Pos.to_uint p with
            | Decimal.Nil => "0"%string
            | _ => NilEmpty.string_of_uint (Pos.to_uint p)
            end = NilEmpty.string_of_uint (Pos.to_uint p)) as ->
      by (destruct (Pos.to_uint p); [contradiction|reflexivity..]).
    destruct (decimal_head _ Hnil) as (c & s & Hs & Hc).
    pose proof (leading_number_value (Pos.to_uint p) post Hpost) as Hvalue.
    rewrite DecimalPos.Unsigned.of_to in Hvalue. rewrite Hs in *.
    change (String c s +:+ post) with (String c (s +:+ post)) in *.
    cbn [search_number]. rewrite Hc. f_equal. exact Hvalue.
Qed.

Lemma search_number_skips pre rest :
  digit_free pre = true → search_number (pre +:+ rest) = search_number rest.
Proof.
  induction pre as [|c pre IH]; [reflexivity|]. cbn [digit_free]. intros H.
  apply andb_true_iff in H as [Hc Hpre]. apply negb_true_iff in Hc.
  change (String c pre +:+ rest) with (String c (pre +:+ rest)). cbn [search_number].
  rewrite Hc. apply IH, Hpre.
Qed.

(** [execute_with_priority] reads the flood-wait seconds as the first number
    in the exception's text, when the text mentions a flood wait anywhere:
    for a text with no digit before a number written in decimal, and with
    no digit right after it, the seconds read are that number, whatever
    follows. *)
Theorem extract_floodwait_reads_seconds e pre n post :
  str e = pre +:+ Floodwait.str_of_int n +:+ post →
  0 ≤ n → digit_free pre = true → starts_with_digit post = false →
  contains "floodwait" (lower (str e)) || contains "flood wait" (lower (str e)) = true →
  extract_floodwait e = n.
Proof.
  intros Hstr Hn Hpre Hpost Hflood. unfold extract_floodwait. cbv zeta.
  rewrite Hflood, Hstr, !lower_app.
  rewrite search_number_skips by (rewrite digit_free_lower; exact Hpre).
  assert (lower (Floodwait.str_of_int n) = Floodwait.str_of_int n) as ->.
  { unfold Floodwait.str_of_int. destruct n as [|p|p]; [reflexivity| |lia].
    cbn [Z.to_int NilZero.string_of_int]. unfold NilZero.string_of_uint.
    destruct (Pos.to_uint p) eqn:E; try reflexivity; rewrite <- E; apply lower_decimal. }
  rewrite search_number_decimal; [reflexivity|exact Hn|].
  rewrite starts_with_digit_lower. exact Hpost.
Qed.


(** ** The further theorems at concrete objects *)

(** Of two registered sessions with the same priority and health, the one
    returned has the highest score of the primary list. *)
Lemma get_best_client_picks_highest_witness :
  let w := run early_clock middle two_sessions in
  let pool := mkPool ["A"%string; "B"%string] [] in
  ∃ best client w' (is_backup : bool),
    get_best_client early_clock "general" w = (Ok (Some (best, Some client)), w') ∧
    best ∈ (if is_backup then backup pool else primary pool) ∧
    (is_backup = true → ∀ p, p ∈ primary pool → ¬ eligible w p) ∧
    ∀ p, p ∈ (if is_backup then backup pool else primary pool) → eligible w p →
         (combined_score (lb w') p is_backup <= combined_score (lb w') best is_backup)%Q.
Proof.
  cbv zeta.
  apply (get_best_client_picks_highest early_clock "general"
           (run early_clock middle two_sessions)
           (mkPool ["A"%string; "B"%string] []) "A"%string).
  - vm_compute. reflexivity.
  - vm_compute. reflexivity.
  - simpl. left.
  - split; [vm_compute; eexists; reflexivity|vm_compute; reflexivity].
Defined.

(** After three failures and three detections the session is overloaded,
    and its counters are not negative. *)
Lemma metrics_stay_sound_witness :
  let m := default empty_metrics
             (session_metrics (lb (run early_clock middle overloaded_thrice)) !! "A"%string) in
  (status m = None ∨ status m = Some STATUS_COOLING ∨ status m = Some STATUS_OVERLOADED) ∧
  (consistent_good_behavior m = Some true → 5 ≤ default 0 (good_behavior_streak m)) ∧
  0 ≤ default 0 (consecutive_errors m) ∧
  0 ≤ default 0 (successful_ops_since_last_issue m).
Proof.
  cbv zeta.
  apply (metrics_stay_sound early_clock middle overloaded_thrice "A"%string).
  vm_compute. reflexivity.
Defined.

(** A session cooled down before it is registered has metrics without a
    status; while its cooldown runs, selecting it raises. *)
Lemma get_best_client_missing_status_witness :
  (get_best_client early_clock "general"
     (run early_clock middle
        [CoolDownSession "A" "general"; RegisterClient "A" 7%nat "general" true])).1
  = Raise missing_status.
Proof.
  apply (get_best_client_missing_status early_clock "general"
           (run early_clock middle
              [CoolDownSession "A" "general"; RegisterClient "A" 7%nat "general" true])
           (mkPool ["A"%string] []) "A"%string).
  - vm_compute. reflexivity.
  - vm_compute. reflexivity.
  - intros p Hp _. exists 310%Q. simpl in Hp. apply list_elem_of_singleton in Hp.
    subst p. split; [vm_compute; reflexivity|].
    intros n _. vm_compute. discriminate.
  - left. exists [], []. split; [reflexivity|]. split; [constructor|].
    split; [vm_compute; eexists; reflexivity|vm_compute; reflexivity].
Defined.

(** An operation that raises, run on the one registered session with every
    random sample one half. *)
Lemma execute_with_priority_delay_witness :
  let w := run early_clock middle one_session in
  let done := execute_with_priority early_clock middle "general" (operation_of (Raise boom))
                "general" None w in
  sleeps done.2 = sleeps w ∨
  ∃ delay, sleeps done.2 = sleeps w ++ [delay] ∧ (0.1 < delay <= 6)%Q.
Proof.
  cbv zeta.
  apply (execute_with_priority_delay early_clock middle one_session "general" (Raise boom)
           "general" None).
  intros n. unfold middle. split; unfold Qle; simpl; lia.
Defined.

(** A message that names the flood wait and then gives 42 seconds. *)
Lemma extract_floodwait_reads_seconds_witness :
  extract_floodwait (Exception "FloodWait: retry after 42 seconds, 3 attempts left") = 42.
Proof.
  apply (extract_floodwait_reads_seconds
           (Exception "FloodWait: retry after 42 seconds, 3 attempts left")
           "FloodWait: retry after " 42 " seconds, 3 attempts left").
  - vm_compute. reflexivity.
  - lia.
  - vm_compute. reflexivity.
  - vm_compute. reflexivity.
  - vm_compute. reflexivity.
Defined.


(** ** Response times *)

(** No method stores a response time: [response_times] is absent or empty. *)
Definition silent (m : Metrics) : Prop := default ∅ (response_times m) = ∅.

Definition no_response_times (self : LoadBalancer) : Prop :=
  map_Forall (λ _ m, silent m) (session_metrics self).

Definition silent_kept (g : Metrics → Metrics) : Prop := ∀ m, silent m → silent (g m).

Ltac silent_kept_tac :=
  idtac; lazymatch goal with
  | |- silent_kept _ =>
    let m := fresh "m" in let H := fresh "H" in
    intros m H; unfold silent, track_consistency in *; cbv beta zeta;
    repeat case_match; cbn; exact H
  end.

Lemma silent_same self self' :
  session_metrics self' = session_metrics self → no_response_times self →
  no_response_times self'.
Proof. unfold no_response_times. intros ->. auto. Qed.

Lemma silent_alter g phone self :
  silent_kept g → no_response_times self →
  no_response_times (set_session_metrics (alter g phone (session_metrics self)) self).
Proof.
  intros Hg Hm phone' m'. cbn. rewrite lookup_alter.
  case_decide as E; [|apply Hm]. subst phone'.
  destruct (session_metrics self !! phone) as [m|] eqn:Em; [|discriminate].
  intros [= <-]. apply Hg. exact (Hm _ _ Em).
Qed.

Lemma silent_insert phone m self :
  silent m → no_response_times self →
  no_response_times (set_session_metrics (<[phone := m]> (session_metrics self)) self).
Proof. intros Hm Hms. apply map_Forall_insert_2; assumption. Qed.

Lemma silent_update_priority t items : ∀ self,
  no_response_times self → no_response_times (foldl (update_priority t) self items).
Proof.
  induction items as [|item items IH]; intros self H; [exact H|].
  cbn [foldl]. apply IH. unfold update_priority.
  repeat case_match; try (apply silent_alter; [silent_kept_tac|]);
    repeat first [assumption | eapply silent_same; [reflexivity|]].
Qed.

Ltac silent_leaf :=
  idtac; lazymatch goal with
  | |- keeps (on_lb no_response_times) (modify_metrics _ _) =>
    apply keeps_modify; let self := fresh "self" in let H := fresh "H" in
    intros self H; apply silent_alter; [silent_kept_tac|exact H]
  | |- keeps (on_lb no_response_times) (modify _) =>
    apply keeps_modify; let self := fresh "self" in let H := fresh "H" in
    intros self H;
    first [ apply silent_update_priority; exact H
          | repeat case_match;
            first [ exact H
                  | apply silent_insert; [reflexivity|exact H]
                  | eapply silent_same; [reflexivity|exact H] ] ]
  | |- _ => keeps_helpers ltac:(intros ? ?; apply silent_same; reflexivity)
  end.

Lemma silent_after clock rand c w :
  on_lb no_response_times w → on_lb no_response_times (after clock rand c w).
Proof.
  intros H. keeps_call;
    repeat first [ silent_leaf | keeps_step | progress unfold_methods_but_metrics ].
Qed.

Lemma silent_run clock rand calls : no_response_times (lb (run clock rand calls)).
Proof.
  unfold run. induction calls as [|c calls IH] using rev_ind.
  - apply map_Forall_empty.
  - rewrite foldl_app. cbn [foldl]. apply silent_after. exact IH.
Qed.

(** No method records a response time: on the object reached by any
    sequence of calls, the [response_times] of every metrics dictionary is
    absent or the empty dictionary its registration stored. *)
Theorem response_times_never_recorded clock rand calls phone m :
  session_metrics (lb (run clock rand calls)) !! phone = Some m →
  default ∅ (response_times m) = ∅.
Proof. intros Hm. exact (silent_run clock rand calls _ _ Hm). Qed.

(** ** The load score of a session *)

Lemma baseline_nonzero operation_type :
  Qeq_bool (default (default 1.0%Q (baseline_response_times !! "default"%string))
                    (baseline_response_times !! operation_type)) 0 = false.
Proof.
  replace (default 1.0%Q (baseline_response_times !! "default"%string)) with 1.0%Q
    by (vm_compute; reflexivity).
  destruct (baseline_response_times !! operation_type) as [v|] eqn:E; [|reflexivity].
  unfold baseline_response_times, list_to_map in E. cbn [fold_right fst snd] in E.
  repeat (rewrite lookup_insert in E; case_decide; [injection E as <-; reflexivity|]).
  rewrite lookup_empty in E. discriminate.
Qed.

(** [calculate_client_score] never raises, whatever the object holds: the
    average of the recent response times is taken of a list that is not
    empty, and no baseline is zero.  It returns a score and leaves the object
    and the recorded sleeps as they were. *)
Theorem calculate_client_score_returns clock rand phone operation_type w :
  ∃ score w',
    calculate_client_score clock rand phone operation_type w = (Ok score, w') ∧
    lb w' = lb w ∧ sleeps w' = sleeps w.
Proof.
  unfold calculate_client_score. rewrite run_gets.
  destruct (session_metrics (lb w) !! phone) as [metrics|]; [|eexists _, _; split; [reflexivity|auto]].
  rewrite run_time. cbv zeta.
  set (base := (0.0 + _ + _)%Q).
  set (now := clock (ticks w)).
  set (w1 := mkWorld _ _ _ _).
  assert (∃ s, ∀ B (k : Q → M B),
    bind match default ∅ (response_times metrics) !! operation_type with
         | Some times =>
           match snd <$> List.filter (λ p : Q * Q, Qle_bool (now - p.1) 300) times with
           | [] => ret base
           | _ :: _ =>
             bind (truediv (Qsum (snd <$> List.filter (λ p : Q * Q, Qle_bool (now - p.1) 300)
                                                      times))
                     (inject_Z (len (snd <$> List.filter
                                       (λ p : Q * Q, Qle_bool (now - p.1) 300) times))))
               (λ avg_time,
                  bind (truediv avg_time
                          (default (default 1.0%Q (baseline_response_times !! "default"%string))
                                   (baseline_response_times !! operation_type)))
                    (λ time_factor, ret (base + Qmin (time_factor - 1) 1.0)%Q))
           end
         | None => ret base
         end k w1 = k s w1) as (s & Hs).
  { destruct (default ∅ (response_times metrics) !! operation_type) as [times|];
      [|exists base; reflexivity].
    destruct (snd <$> List.filter _ times) as [|x xs]; [exists base; reflexivity|].
    eexists. intros B k.
    rewrite bind_assoc, run_truediv by (apply inject_Z_nonzero, len_cons_pos).
    rewrite bind_assoc, run_truediv by apply baseline_nonzero.
    rewrite run_ret. reflexivity. }
  rewrite Hs, run_gets, run_uniform, end_ret.
  eexists _, _. split; [reflexivity|]. split; reflexivity.
Qed.

Lemma count_recent_nonneg t window l : 0 ≤ count_recent t window l.
Proof. unfold count_recent, len. lia. Qed.

(** Since no method records a response time, on the object reached by any
    sequence of calls the response-time term of the score, the only one that
    can be negative, is never added: with random samples that are not
    negative the score is not negative, and it is at least 0.5 for each
    error of the last 300 seconds. *)
Theorem calculate_client_score_nonnegative clock rand calls phone operation_type :
  (∀ n, (0 <= rand n)%Q) →
  let w := run clock rand calls in
  ∃ score w',
    calculate_client_score clock rand phone operation_type w = (Ok score, w') ∧
    (0 <= score)%Q ∧
    ∀ m, session_metrics (lb w) !! phone = Some m →
         (inject_Z (count_recent (clock (ticks w)) 300 (default [] (error_timestamps m))) * 0.5
          <= score)%Q.
Proof.
  intros Hrand w. unfold calculate_client_score. rewrite run_gets.
  pose proof (silent_run clock rand calls) as Hsilent. fold w in Hsilent.
  destruct (session_metrics (lb w) !! phone) as [metrics|] eqn:Em.
  - specialize (Hsilent _ _ Em). unfold silent in Hsilent. cbv beta in Hsilent.
    rewrite run_time. cbv zeta. rewrite Hsilent, lookup_empty.
    rewrite run_ret, run_gets, run_uniform, end_ret.
    eexists _, _. split; [reflexivity|].
    set (ops := count_recent _ _ (default [] (operation_timestamps metrics))).
    set (errs := count_recent _ _ (default [] (error_timestamps metrics))).
    set (floods := len _).
    pose proof (count_recent_nonneg (clock (ticks w)) 300
                  (default [] (operation_timestamps metrics))) as Hops.
    pose proof (count_recent_nonneg (clock (ticks w)) 300
                  (default [] (error_timestamps metrics))) as Herrs.
    fold ops in Hops. fold errs in Herrs.
    assert (0 ≤ floods) as Hfloods by (unfold floods, len; lia).
    assert (0 <= Qmin (inject_Z ops / 50) 1.0)%Q as Hmin.
    { apply Q.min_glb; [|unfold Qle; cbn; lia].
      apply Qle_shift_div_l; [reflexivity|]. rewrite Qmult_0_l.
      change 0%Q with (inject_Z 0). rewrite <- Zle_Qle. exact Hops. }
    assert (0 <= inject_Z errs)%Q as Herrs'
      by (change 0%Q with (inject_Z 0); rewrite <- Zle_Qle; exact Herrs).
    assert (0 <= inject_Z floods)%Q as Hfloods'
      by (change 0%Q with (inject_Z 0); rewrite <- Zle_Qle; exact Hfloods).
    pose proof (Hrand (draws w)) as Hdraw. norm_world.
    assert (0 <= inject_Z errs * 0.5)%Q as He
      by (apply Qmult_le_0_compat; [exact Herrs'|unfold Qle; cbn; lia]).
    assert (0 <= inject_Z floods * 0.3)%Q as Hf
      by (apply Qmult_le_0_compat; [exact Hfloods'|unfold Qle; cbn; lia]).
    assert (0 <= (0.1 - 0) * rand (draws w))%Q as Hj
      by (apply Qmult_le_0_compat; [unfold Qle; cbn; lia|exact Hdraw]).
    split; [|intros m [= <-]; fold errs];
      generalize dependent (Qmin (inject_Z ops / 50) 1.0);
      generalize dependent (inject_Z errs * 0.5)%Q;
      generalize dependent (inject_Z floods * 0.3)%Q;
      generalize dependent ((0.1 - 0) * rand (draws w))%Q;
      intros; lra.
  - eexists _, _. split; [reflexivity|]. split; [unfold Qle; cbn; lia|]. intros m [=].
Qed.

(** After three failures and three detections, the session has no response
    time. *)
Lemma response_times_never_recorded_witness :
  default ∅ (response_times
               (default empty_metrics
                  (session_metrics (lb (run early_clock middle overloaded_thrice))
                     !! "A"%string))) = ∅.
Proof.
  apply (response_times_never_recorded early_clock middle overloaded_thrice "A"%string).
  vm_compute. reflexivity.
Defined.

(** The score of a session after three failures, with every random sample
    one half. *)
Lemma calculate_client_score_nonnegative_witness :
  let w := run early_clock middle overloaded_thrice in
  ∃ score w',
    calculate_client_score early_clock middle "A" "message" w = (Ok score, w') ∧
    (0 <= score)%Q ∧
    ∀ m, session_metrics (lb w) !! "A"%string = Some m →
         (inject_Z (count_recent (early_clock (ticks w)) 300 (default [] (error_timestamps m)))
          * 0.5 <= score)%Q.
Proof.
  cbv zeta.
  apply (calculate_client_score_nonnegative early_clock middle overloaded_thrice "A"
           "message").
  intros n. unfold middle, Qle. simpl. lia.
Defined.

End LoadBalancerFacts.

(** * Further properties of [safe_execute] *)

Module RetryFacts.
Import Floodwait.
Local Open Scope Z_scope.

Section Outcomes.
Context {value : Type}.
Variable func : Z → result value.
Variable uniform01 : nat → Q.
Variable max_attempts : Z.
Variable exponential_backoff : bool.


(** What the wrapper gives its caller when a call is its last. *)
Definition outcome (r : result value) : result (option value) :=
  match r with
  | Ok v => Ok (Some v)
  | Raise e => Raise e
  end.



Let loop := while_loop func uniform01 max_attempts exponential_backoff.






Lemma safe_execute_no_attempt_loop :
  max_attempts ≤ 0 →
  loop (Z.to_nat max_attempts) (mkFrame 0 None 0 []) = Some (Ok None, mkFrame 0 None 0 []).
Proof.
  intros Hmax. subst loop.
  destruct (Z.to_nat max_attempts); cbn [while_loop attempt];
    (destruct (Z.ltb_spec 0 max_attempts); [lia|reflexivity]).
Qed.

(** With no attempt allowed, the wrapper returns [None] at once: the wrapped
    function is not called and nothing is slept. *)
Theorem safe_execute_no_attempt :
  max_attempts ≤ 0 →
  safe_execute func uniform01 max_attempts exponential_backoff
  = Some (Ok None, mkFrame 0 None 0 []).
Proof.
  intros Hmax. apply safe_execute_no_attempt_loop, Hmax.
Qed.





End Outcomes.

(** ** The wrapper at concrete functions *)

(** Fails once with a server error, then returns 7. *)
Definition flaky (k : Z) : result Z :=
  if k =? 0 then Raise (ServerError "busy") else Ok 7.


Definition half (n : nat) : Q := 1 # 2.

Lemma safe_execute_no_attempt_witness :
  safe_execute flaky half 0 true = Some (Ok None, mkFrame 0 None 0 []).
Proof. apply (safe_execute_no_attempt flaky half 0 true). lia. Defined.





End RetryFacts.

(** * Properties of [RateLimitManager] *)

Module RateLimitFacts.
Import Floodwait.
Local Open Scope Z_scope.

(** ** The daily limit *)

Definition counts_capped (limit : Z) (w : Loop) : Prop :=
  map_Forall (λ _ count, 1 ≤ count ≤ limit) (operation_counts (manager w)).

Lemma wait_for_interval_manager key now m w :
  manager (wait_for_interval key now m w) = manager w.
Proof.
  unfold wait_for_interval.
  destruct (session_timestamps (manager w) !! key); [|reflexivity].
  cbv zeta. destruct (Qltb _ _); reflexivity.
Qed.

Lemma counts_capped_serve loop_time limit w r :
  0 < limit → max_per_day r = Some limit →
  counts_capped limit w → counts_capped limit (serve loop_time w r).
Proof.
  intros Hpos Hlimit Hw. unfold serve, execute_with_rate_limit, check_daily_limit.
  rewrite Hlimit. cbv zeta. cbn [manager reads naps].
  destruct (Z.eqb_spec limit 0) as [|_]; [lia|].
  destruct (operation_counts (manager w) !! _) as [count|] eqn:Hcount.
  - destruct (Z.leb_spec limit count) as [|Hlt]; [exact Hw|].
    assert (1 ≤ count + 1 ≤ limit) as Hnew.
    { destruct (Hw _ _ Hcount). lia. }
    destruct (func_outcome r); unfold counts_capped; cbn [snd manager operation_counts];
      rewrite wait_for_interval_manager; cbn [manager operation_counts];
      apply map_Forall_insert_2; assumption.
  - destruct (func_outcome r); unfold counts_capped; cbn [snd manager operation_counts];
      rewrite wait_for_interval_manager; cbn [manager operation_counts];
      (apply map_Forall_insert_2; [lia|exact Hw]).
Qed.

(** When every request carries the same positive daily limit, no counter of
    the manager ever exceeds it; and a request that finds the counter of its
    day at the limit raises, whatever the wrapped function would do: the
    function is not run, nothing is slept and the manager is as it was. *)
Theorem daily_limit_enforced loop_time limit :
  0 < limit →
  (∀ requests, Forall (λ r, max_per_day r = Some limit) requests →
     counts_capped limit (serve_all loop_time requests)) ∧
  (∀ (func : result Z) session operation interval w count,
     operation_counts (manager w)
       !! day_key_of (operation_key_of session operation) (loop_time (reads w)) = Some count →
     limit ≤ count →
     execute_with_rate_limit loop_time session operation func interval (Some limit) w
     = (Raise (Exception (daily_limit_message limit operation session)),
        mkLoop (manager w) (S (reads w)) (naps w))).
Proof.
  intros Hpos. split.
  - intros requests. unfold serve_all.
    induction requests as [|r requests IH] using rev_ind; intros Hall.
    + apply map_Forall_empty.
    + apply Forall_app in Hall as [Hall Hr]. apply Forall_cons in Hr as [Hr _].
      rewrite foldl_app. cbn [foldl]. apply counts_capped_serve; auto.
  - intros func session operation interval w count Hcount Hfull.
    unfold execute_with_rate_limit, check_daily_limit. cbv zeta. cbn [manager reads naps].
    destruct (Z.eqb_spec limit 0) as [|_]; [lia|].
    rewrite Hcount. destruct (Z.leb_spec limit count); [reflexivity|lia].
Qed.

(** A wrapped function that raises, below the daily limit: its exception
    reaches the caller and the attempt is counted against the limit, but the
    timestamp of the key is not refreshed. *)
Theorem failed_operation_counted_not_timestamped loop_time session operation e interval
    limit w :
  limit ≠ 0 →
  default 0 (operation_counts (manager w)
               !! day_key_of (operation_key_of session operation) (loop_time (reads w)))
  < limit →
  let day_key := day_key_of (operation_key_of session operation) (loop_time (reads w)) in
  let done := execute_with_rate_limit loop_time session operation (@Raise Z e) interval
                (Some limit) w in
  done.1 = Raise e ∧
  session_timestamps (manager done.2) = session_timestamps (manager w) ∧
  operation_counts (manager done.2) !! day_key
  = Some (default 0 (operation_counts (manager w) !! day_key) + 1).
Proof.
  intros Hlimit. cbv zeta.
  unfold execute_with_rate_limit, check_daily_limit. cbv zeta. cbn [manager reads naps].
  destruct (Z.eqb_spec limit 0) as [|_]; [lia|].
  destruct (operation_counts (manager w) !! _) as [count|] eqn:Hcount; cbn [default from_option id];
    intros Hbelow.
  - destruct (Z.leb_spec limit count); [lia|]. cbn [fst snd].
    rewrite wait_for_interval_manager. cbn [manager session_timestamps operation_counts].
    rewrite lookup_insert_eq. auto.
  - cbn [fst snd]. rewrite wait_for_interval_manager.
    cbn [manager session_timestamps operation_counts]. rewrite lookup_insert_eq. auto.
Qed.

(** ** The sleeps *)

(** Every recorded timestamp is a past reading of the clock. *)
Definition timestamps_past (loop_time : nat → Q) (w : Loop) : Prop :=
  map_Forall (λ _ t, ∃ j, (j < reads w)%nat ∧ t = loop_time j)
    (session_timestamps (manager w)).

Definition naps_within (m : Q) (w : Loop) : Prop :=
  Forall (λ d, (0 < d <= m)%Q) (naps w).

Section Monotone.
Variable loop_time : nat → Q.
Hypothesis monotone : ∀ i j, (i ≤ j)%nat → (loop_time i <= loop_time j)%Q.

Lemma serve_sleeps m w r :
  (min_interval r <= m)%Q →
  timestamps_past loop_time w ∧ naps_within m w →
  timestamps_past loop_time (serve loop_time w r) ∧ naps_within m (serve loop_time w r).
Proof.
  intros Hm [Hpast Hnaps]. unfold serve, execute_with_rate_limit.
  cbv zeta.
  set (w1 := mkLoop (manager w) (S (reads w)) (naps w)).
  assert (timestamps_past loop_time w1 ∧ naps_within m w1) as [Hpast1 Hnaps1].
  { split; [|exact Hnaps]. intros k t Hk. destruct (Hpast k t Hk) as (j & Hj & ->).
    exists j. split; [cbn; lia|reflexivity]. }
  destruct (check_daily_limit _ _ _ _ w1) as [[[]|e] w2] eqn:Hcheck.
  2:{ assert (w2 = w1) as ->; [|auto].
      unfold check_daily_limit in Hcheck. repeat case_match; congruence. }
  assert (session_timestamps (manager w2) = session_timestamps (manager w1) ∧
          reads w2 = reads w1 ∧ naps w2 = naps w1) as (Hts & Hreads & Hnaps2).
  { unfold check_daily_limit in Hcheck.
    repeat case_match; try discriminate; injection Hcheck as <-; repeat split. }
  set (key := operation_key_of (session_id r) (operation_type r)).
  set (w3 := wait_for_interval key (loop_time (reads w)) (min_interval r) w2).
  assert (session_timestamps (manager w3) = session_timestamps (manager w1) ∧
          reads w3 = reads w1 ∧ naps_within m w3) as (Hts3 & Hreads3 & Hnaps3).
  { subst w3. unfold wait_for_interval. rewrite Hts.
    destruct (session_timestamps (manager w1) !! key) as [last_time|] eqn:Hlast;
      [|rewrite Hts; unfold naps_within; rewrite Hnaps2; auto].
    cbv zeta. destruct (Qltb _ _) eqn:Hlt;
      [|rewrite Hts; unfold naps_within; rewrite Hnaps2; auto].
    cbn [manager reads naps]. rewrite Hts, Hreads, Hnaps2. repeat split.
    apply Forall_app. split; [exact Hnaps1|]. apply Forall_cons. split; [|constructor].
    apply Qltb_lt in Hlt. destruct (Hpast _ _ Hlast) as (j & Hj & ->).
    assert (loop_time j <= loop_time (reads w))%Q as Hle by (apply monotone; lia).
    split.
    - apply (Qplus_lt_l _ _ (loop_time (reads w) - loop_time j)). ring_simplify. exact Hlt.
    - apply Qle_trans with (min_interval r); [|exact Hm].
      apply (Qplus_le_l _ _ (loop_time (reads w) - loop_time j)). ring_simplify.
      apply (Qplus_le_l _ _ (loop_time j)). ring_simplify.
      apply (Qplus_le_r _ _ (min_interval r)) in Hle. 
      apply Qle_trans with (min_interval r + loop_time j)%Q; [|exact Hle].
      apply Qle_refl. }
  destruct (func_outcome r) as [v|e]; cbn [snd].
  - split; [|exact Hnaps3].
    unfold timestamps_past. cbn [manager session_timestamps reads].
    apply map_Forall_insert_2.
    + exists (reads w3). split; [lia|reflexivity].
    + rewrite Hts3. intros k t Hk. destruct (Hpast1 k t Hk) as (j & Hj & ->).
      exists j. split; [lia|reflexivity].
  - split; [|exact Hnaps3].
    unfold timestamps_past. rewrite Hts3, Hreads3. exact Hpast1.
Qed.

End Monotone.

(** With a clock that never goes back, every sleep of the manager is
    positive and at most the minimum interval of its request. *)
Theorem rate_limit_sleeps_bounded loop_time m requests :
  (∀ i j, (i ≤ j)%nat → (loop_time i <= loop_time j)%Q) →
  Forall (λ r, (min_interval r <= m)%Q) requests →
  Forall (λ d, (0 < d <= m)%Q) (naps (serve_all loop_time requests)).
Proof.
  intros Hmono Hall.
  enough (timestamps_past loop_time (serve_all loop_time requests) ∧
          naps_within m (serve_all loop_time requests)) as [_ H] by exact H.
  unfold serve_all. induction requests as [|r requests IH] using rev_ind.
  - split; [apply map_Forall_empty|constructor].
  - apply Forall_app in Hall as [Hall Hr]. apply Forall_cons in Hr as [Hr _].
    rewrite foldl_app. cbn [foldl]. apply serve_sleeps; auto.
Qed.

(** ** The keys *)

Lemma append_assoc (a b c : string) : (a +:+ b) +:+ c = a +:+ (b +:+ c).
Proof.
  induction a as [|x a IH]; [reflexivity|].
  change (String x ((a +:+ b) +:+ c) = String x (a +:+ (b +:+ c))). f_equal. exact IH.
Qed.

(** The key of a session and an operation type is their texts joined by an
    underscore, so a session [s_t] with the operation [u] and a session [s]
    with the operation [t_u] share their timestamp and their daily counter:
    a request leaves the same manager, clock and sleeps for either. *)
Theorem rate_limit_keys_shared loop_time (func : result Z) s t u interval limit w :
  (execute_with_rate_limit loop_time (s +:+ "_" +:+ t) u func interval limit w).2
  = (execute_with_rate_limit loop_time s (t +:+ "_" +:+ u) func interval limit w).2.
Proof.
  assert (operation_key_of (s +:+ "_" +:+ t) u = operation_key_of s (t +:+ "_" +:+ u))
    as Hkey.
  { unfold operation_key_of. rewrite !append_assoc. reflexivity. }
  unfold execute_with_rate_limit, check_daily_limit. cbv zeta. rewrite Hkey.
  destruct limit as [z|]; [|reflexivity].
  destruct (z =? 0); [reflexivity|].
  destruct (operation_counts _ !! _) as [count|]; [destruct (z <=? count)|]; reflexivity.
Qed.

(** ** The manager at concrete requests *)

Definition steady (n : nat) : Q := inject_Z (Z.of_nat n).

Definition send (outcome : result Z) : request := mkRequest "a" "send" outcome 30 (Some 2).

Lemma daily_limit_enforced_witness :
  (∀ requests, Forall (λ r, max_per_day r = Some 2) requests →
     counts_capped 2 (serve_all steady requests)) ∧
  (∀ (func : result Z) session operation interval w count,
     operation_counts (manager w)
       !! day_key_of (operation_key_of session operation) (steady (reads w)) = Some count →
     2 ≤ count →
     execute_with_rate_limit steady session operation func interval (Some 2) w
     = (Raise (Exception (daily_limit_message 2 operation session)),
        mkLoop (manager w) (S (reads w)) (naps w))).
Proof. apply (daily_limit_enforced steady 2). lia. Defined.

Lemma failed_operation_counted_not_timestamped_witness :
  let w := serve_all steady [send (Ok 1)] in
  let done := execute_with_rate_limit steady "a" "send" (@Raise Z (Exception "boom")) 30
                (Some 2) w in
  done.1 = Raise (Exception "boom") ∧
  session_timestamps (manager done.2) = session_timestamps (manager w) ∧
  operation_counts (manager done.2) !! "a_send_0"%string = Some (1 + 1).
Proof.
  cbv zeta.
  apply (failed_operation_counted_not_timestamped steady "a" "send" (Exception "boom") 30 2
           (serve_all steady [send (Ok 1)])).
  - lia.
  - vm_compute. reflexivity.
Defined.

Lemma rate_limit_sleeps_bounded_witness :
  Forall (λ d, (0 < d <= 30)%Q) (naps (serve_all steady [send (Ok 1); send (Ok 2)])).
Proof.
  apply (rate_limit_sleeps_bounded steady 30 [send (Ok 1); send (Ok 2)]).
  - intros i j Hij. unfold steady. rewrite <- Zle_Qle. lia.
  - repeat constructor; discriminate.
Defined.

End RateLimitFacts.
